(** * bitstorm.js content server: a shallow embedding and its properties

    The development embeds the content distribution core of bitstorm.js
    (BitstormEmitter, BitstormResourceRequest, BitstormDataStore and
    BitstormContentServer) as executable Rocq definitions and states the
    properties of the design document against them.

    JavaScript objects that are shared by reference (server records, data
    stores, resource requests) live in heaps indexed by allocation order;
    a field holding such an object holds its index.  Code runs in a small
    monad that threads the heap, collects what the code sends to its
    environment, and stops at a thrown exception. *)

From stdpp Require Import base option list gmap strings.
From Stdlib Require Import ZArith Lia Ascii.

Open Scope Z_scope.
Open Scope string_scope.
Open Scope list_scope.

(** ** JavaScript values that cross the interfaces *)

(** Values that travel through events untouched by the code: request
    identifiers, payloads, error descriptions, progress events. *)
Inductive Value :=
| VUndefined
| VNumber (n : Z)
| VString (s : string)
| VProgressEvent (lengthComputable : bool) (loaded total : Z).

Global Instance Value_eq_dec : EqDecision Value.
Proof. solve_decision. Defined.

(** ** Plain objects used as maps *)

(** [this.listeners] and [this.dataStores] are plain objects, [{}]. A
    read [object[key]] of a key the object has no property of its own
    for gives the member of that name of Object.prototype, when there is
    one: a function, or Object.prototype itself for "__proto__". These
    are the names of the members: the properties of the Object prototype
    object that ECMAScript defines, and the accessors of its Annex B. *)
Definition prototypeNames : list string :=
  ["constructor"; "toString"; "toLocaleString"; "valueOf"; "hasOwnProperty";
   "isPrototypeOf"; "propertyIsEnumerable"; "__proto__";
   "__defineGetter__"; "__defineSetter__"; "__lookupGetter__";
   "__lookupSetter__"].

(** [key] names a member of Object.prototype. *)
Definition inherited (key : string) : bool := bool_decide (key ∈ prototypeNames).

(** Exceptions the code can run into. *)
Inductive Exn :=
| TypeError           (* property access on null or undefined *)
| InvalidStateError.  (* IDBDatabase.transaction on a closed connection *)

(** ** BitstormEmitter *)

Module Emitter.

(** [this.listeners]: event name to array of callbacks; a slot can also
    hold [null], written [None]. An absent slot is [undefined] for every
    event name but those of [prototypeNames]: for such a name without a
    slot of its own the read gives a member of Object.prototype, which is
    no array, and on, once and removeListener end in a TypeError at
    [push] or [splice]. The definitions of this module and of [Listener]
    are the methods at an event that has a slot of its own or is not
    [inherited]; the content server uses "data", "error", "progress",
    "ready" and "closing". *)
Abbreviation Listeners C := (gmap string (option (list C))).

(** [listeners[event]] as a truth value: the array, when present. *)
Definition handlers {C} (ls : Listeners C) (event : string) : option (list C) :=
  mjoin (ls !! event).

(** on(event, callback):
    handler = listeners[event] || []; handler.push(callback) *)
Definition on {C} (event : string) (callback : C) (ls : Listeners C) : Listeners C :=
  <[event := Some (default [] (handlers ls event) ++ [callback])]> ls.

(** A property key given as an argument that may be missing: a missing
    argument is [undefined], which names the property "undefined". *)
Definition propertyKey (event : option string) : string :=
  default "undefined" event.

(** removeAllListeners(event): listeners[event] = null *)
Definition removeAllListeners {C} (event : option string) (ls : Listeners C)
  : Listeners C :=
  <[propertyKey event := None]> ls.

(** The callbacks [emit(event, ...)] invokes, in order. *)
Definition receivers {C} (ls : Listeners C) (event : string) : list C :=
  default [] (handlers ls event).

End Emitter.

(** ** Data model *)

(** A record of [contentServers]: [{ serverUrl, loadValue }]. *)
Record ServerRecord := mkServerRecord {
  serverUrl : string;
  loadValue : Z
}.

(** The callbacks a resource request's events are bound to
    ([requestResource]), each a method of the content server. *)
Inductive RequestCallback :=
| HandleRequestData
| HandleRequestError
| HandleRequestProgress.

(** The callbacks a data store's events are bound to ([createDataStore]). *)
Inductive StoreCallback :=
| HandleDataStoreReady
| HandleDataStoreError
| HandleDataStoreClosing.

(** The state of the platform operation whose callbacks close over a
    request. The request of a lookup ends with one success or one error
    event, and an XMLHttpRequest with one load or one error event. The
    transaction of cacheData holds two put requests: it ends with one
    complete event, or it is aborted. The error event of a put that
    fails, and of a put that is pending when the transaction is aborted,
    bubbles to the transaction, so [txn.onerror] runs once for each of
    them; an abort while committing fires no error event at all. *)
Inductive RequestOp :=
| NoOp                    (* none outstanding *)
| GetOp                   (* IDBRequest of queryDataStore: onsuccess, onerror *)
| XhrOp                   (* XMLHttpRequest of downloadData: onload, onprogress, onerror *)
| TxnOp (data : Value)    (* transaction of cacheData: oncomplete, onerror; keeps [data] *)
| TxnAborting (data : Value).
                          (* the same after the error event of one put: the
                             transaction is aborting, the other put may
                             still get its error event *)

(** BitstormResourceRequest. [emitted] is a history variable: the names
    of the events the request has emitted so far, oldest first. No
    operation reads it. *)
Record ResourceRequest := mkRequest {
  key : string;
  url : string;
  type : string;
  store : nat;
  started : bool;
  server : option nat;
  clientId : Value;
  rlisteners : Emitter.Listeners RequestCallback;
  pending : RequestOp;
  emitted : list string
}.

(** An IDBDatabase connection; [close()] sets its close-pending flag. *)
Record IDBDatabase := mkDb { closePending : bool }.

(** The platform request a data store waits for while it opens. *)
Inductive StoreOp :=
| Idle
| OpenRequest         (* indexedDB.open: onupgradeneeded, onerror, onsuccess *)
| SetVersionRequest   (* db.setVersion: onsuccess, onerror *)
| VersionChangeTxn.   (* req.result.oncomplete *)

(** BitstormDataStore. [semitted] is the history of emitted event names. *)
Record DataStore := mkStore {
  name : string;
  ready : bool;
  db : option IDBDatabase;
  slisteners : Emitter.Listeners StoreCallback;
  spending : StoreOp;
  semitted : list string
}.

(** The content server together with the objects it reaches. *)
Record World := mkWorld {
  records : list ServerRecord;       (* heap of server records *)
  stores : list DataStore;           (* heap of data stores *)
  requests : list ResourceRequest;   (* heap of resource requests *)
  dataStores : gmap string nat;      (* this.dataStores *)
  contentServers : list nat          (* this.contentServers *)
}.

(** The percentage of a progress message. The quotient is floating
    point in the source and is kept as the pair it is computed from. *)
Inductive Progress :=
| Computed (loaded total : Z)   (* (info.loaded / info.total) * 100 *)
| Fixed (percent : Z).

(** Messages of the content server to its client. *)
Inductive Message :=
| CACHE_READY (name : string)
| PROGRESS (requestId : Value) (progress : Progress)
| RESOURCE_DATA (requestId : Value) (resourceUrl resourceName : string)
                (resourceData : Value) (resourceType : string).

(** What the code sends out: events of the content server itself and calls
    to the platform. *)
Inductive Output :=
| EmitError (error : Value) (requestId : Value)   (* emit('error', this, error, id) *)
| EmitMessage (m : Message)                       (* emit('message', this, m) *)
| IdbOpen (name : string) (version : Z)
| IdbSetVersion (name : string) (version : Z)
| IdbCreateObjectStore (name objectStore : string)
| IdbClose (name : string)
| IdbDeleteDatabase (name : string)
| IdbGet (name objectStore key : string)
| IdbPutMeta (name objectStore : string) (key type : string) (size modified : Z)
| IdbPutData (name objectStore : string) (key : string) (data : Value)
| XhrSend (method url responseType : string)
| Uncaught (e : Exn).

(** ** The monad the code runs in *)

Inductive Completion (A : Type) :=
| Normal (a : A)
| Throw (e : Exn).
Arguments Normal {A} a.
Arguments Throw {A} e.

Definition Js (A : Type) : Type := World → Completion A * World * list Output.

Definition ret {A} (a : A) : Js A := λ w, (Normal a, w, []).

Definition bind {A B} (m : Js A) (k : A → Js B) : Js B := λ w,
  match m w with
  | (Normal a, w1, o1) => let '(c, w2, o2) := k a w1 in (c, w2, o1 ++ o2)
  | (Throw e, w1, o1) => (Throw e, w1, o1)
  end.

Global Instance Js_ret : MRet Js := @ret.
Global Instance Js_bind : MBind Js := λ A B k m, bind m k.

Definition throw {A} (e : Exn) : Js A := λ w, (Throw e, w, []).
Definition getWorld : Js World := λ w, (Normal w, w, []).
Definition modifyWorld (f : World → World) : Js unit := λ w, (Normal tt, f w, []).
Definition out (o : Output) : Js unit := λ w, (Normal tt, w, [o]).

(** Dereference of an object that can be [null] or [undefined]. *)
Definition deref {A} (o : option A) : Js A :=
  match o with Some a => ret a | None => throw TypeError end.

(** Runs [f] on each element in order (a [for] loop over an array). *)
Fixpoint forEach {A} (f : A → Js unit) (l : list A) : Js unit :=
  match l with
  | [] => ret tt
  | x :: l' => f x;; forEach f l'
  end.

(** Field updates. *)
Definition setRecords (f : list ServerRecord → list ServerRecord) (w : World) : World :=
  mkWorld (f (records w)) (stores w) (requests w) (dataStores w) (contentServers w).
Definition setStores (f : list DataStore → list DataStore) (w : World) : World :=
  mkWorld (records w) (f (stores w)) (requests w) (dataStores w) (contentServers w).
Definition setRequests (f : list ResourceRequest → list ResourceRequest) (w : World) : World :=
  mkWorld (records w) (stores w) (f (requests w)) (dataStores w) (contentServers w).
Definition setDataStores (f : gmap string nat → gmap string nat) (w : World) : World :=
  mkWorld (records w) (stores w) (requests w) (f (dataStores w)) (contentServers w).
Definition setContentServers (f : list nat → list nat) (w : World) : World :=
  mkWorld (records w) (stores w) (requests w) (dataStores w) (f (contentServers w)).

Definition getRecord (r : nat) : Js ServerRecord :=
  w ← getWorld; deref (records w !! r).
Definition getStore (sid : nat) : Js DataStore :=
  w ← getWorld; deref (stores w !! sid).
Definition getRequest (rid : nat) : Js ResourceRequest :=
  w ← getWorld; deref (requests w !! rid).

(** Assignment to a field of the object at an index of a heap. *)
Definition updRecord (r : nat) (f : ServerRecord → ServerRecord) : Js unit :=
  modifyWorld (setRecords (alter f r)).
Definition updStore (sid : nat) (f : DataStore → DataStore) : Js unit :=
  modifyWorld (setStores (alter f sid)).
Definition updRequest (rid : nat) (f : ResourceRequest → ResourceRequest) : Js unit :=
  modifyWorld (setRequests (alter f rid)).

(** Field setters of the two object types. *)
Definition setStarted (b : bool) (q : ResourceRequest) : ResourceRequest :=
  mkRequest (key q) (url q) (type q) (store q) b (server q) (clientId q)
            (rlisteners q) (pending q) (emitted q).
Definition setServer (r : option nat) (q : ResourceRequest) : ResourceRequest :=
  mkRequest (key q) (url q) (type q) (store q) (started q) r (clientId q)
            (rlisteners q) (pending q) (emitted q).
Definition setClientId (v : Value) (q : ResourceRequest) : ResourceRequest :=
  mkRequest (key q) (url q) (type q) (store q) (started q) (server q) v
            (rlisteners q) (pending q) (emitted q).
Definition setRListeners
  (f : Emitter.Listeners RequestCallback → Emitter.Listeners RequestCallback)
  (q : ResourceRequest) : ResourceRequest :=
  mkRequest (key q) (url q) (type q) (store q) (started q) (server q) (clientId q)
            (f (rlisteners q)) (pending q) (emitted q).
Definition setPending (p : RequestOp) (q : ResourceRequest) : ResourceRequest :=
  mkRequest (key q) (url q) (type q) (store q) (started q) (server q) (clientId q)
            (rlisteners q) p (emitted q).
Definition logEmitted (event : string) (q : ResourceRequest) : ResourceRequest :=
  mkRequest (key q) (url q) (type q) (store q) (started q) (server q) (clientId q)
            (rlisteners q) (pending q) (emitted q ++ [event]).

Definition setReady (b : bool) (s : DataStore) : DataStore :=
  mkStore (name s) b (db s) (slisteners s) (spending s) (semitted s).
Definition setDb (d : option IDBDatabase) (s : DataStore) : DataStore :=
  mkStore (name s) (ready s) d (slisteners s) (spending s) (semitted s).
Definition setSListeners
  (f : Emitter.Listeners StoreCallback → Emitter.Listeners StoreCallback)
  (s : DataStore) : DataStore :=
  mkStore (name s) (ready s) (db s) (f (slisteners s)) (spending s) (semitted s).
Definition setSPending (p : StoreOp) (s : DataStore) : DataStore :=
  mkStore (name s) (ready s) (db s) (slisteners s) p (semitted s).
Definition logSEmitted (event : string) (s : DataStore) : DataStore :=
  mkStore (name s) (ready s) (db s) (slisteners s) (spending s) (semitted s ++ [event]).

Definition addLoad (d : Z) (x : ServerRecord) : ServerRecord :=
  mkServerRecord (serverUrl x) (loadValue x + d).

(** ** BitstormContentServer: the registry of content servers *)

(** The loop of findContentServer over [list]. *)
Fixpoint findLoop (url : string) (list : list nat) : Js (option nat) :=
  match list with
  | [] => mret None
  | r :: rest =>
      x ← getRecord r;
      if decide (serverUrl x = url) then mret (Some r) else findLoop url rest
  end.

Definition findContentServer (url : string) : Js (option nat) :=
  w ← getWorld; findLoop url (contentServers w).

Definition addContentServer (url : string) : Js unit :=
  found ← findContentServer url;
  match found with
  | None =>
      w ← getWorld;
      modifyWorld (setRecords (λ h, h ++ [mkServerRecord url 0]));;
      modifyWorld (setContentServers (λ l, l ++ [length (records w)]))
  | Some _ => mret tt
  end.

(** The loop of removeContentServer; [i] is the index of the head of
    [list] in [contentServers]. *)
Fixpoint removeLoop (url : string) (i : nat) (list : list nat) : Js unit :=
  match list with
  | [] => mret tt
  | r :: rest =>
      x ← getRecord r;
      if decide (serverUrl x = url)
      then modifyWorld (setContentServers (delete i))
      else removeLoop url (S i) rest
  end.

Definition removeContentServer (url : string) : Js unit :=
  w ← getWorld; removeLoop url 0 (contentServers w).

(** The loop of chooseContentServer from index [i] with the current
    [minid]: [inl r] when the loop returns record [r], [inr minid] when
    it runs to its end. *)
Fixpoint chooseLoop (i minid : nat) (list : list nat) : Js (nat + nat) :=
  match list with
  | [] => mret (inr minid)
  | r :: rest =>
      x ← getRecord r;
      let lv := loadValue x in
      if decide (lv = 0) then mret (inl r)
      else chooseLoop (S i) (if decide (lv < Z.of_nat minid) then i else minid) rest
  end.

Definition chooseContentServer : Js (option nat) :=
  w ← getWorld;
  let list := contentServers w in
  res ← chooseLoop 0 0 list;
  match res with
  | inl r => mret (Some r)
  | inr minid =>
      if decide (minid < length list)%nat then mret (list !! minid) else mret None
  end.

(** The constructor: empty maps, then the server that stands for the
    origin of the application. The constructor registers it with
    [this.addServer('')], and no file of src/ defines a method
    [addServer] of BitstormContentServer; the call is read as
    [addContentServer('')], the method that registers a server. *)
Definition emptyWorld : World := mkWorld [] [] [] ∅ [].

Definition newContentServer : World := (addContentServer "" emptyWorld).1.2.

(** ** Handlers of the content server *)

(** [req.server.loadValue--] *)
Definition releaseServer (rid : nat) : Js unit :=
  req ← getRequest rid;
  r ← deref (server req);
  updRecord r (addLoad (-1)).

Definition handleRequestData (rid : nat) (data : Value) : Js unit :=
  updRequest rid (setRListeners (Emitter.removeAllListeners None));;
  releaseServer rid;;
  req ← getRequest rid;
  out (EmitMessage (RESOURCE_DATA (clientId req) (url req) (key req) data (type req))).

Definition handleRequestError (rid : nat) (error : Value) : Js unit :=
  updRequest rid (setRListeners (Emitter.removeAllListeners None));;
  releaseServer rid;;
  req ← getRequest rid;
  out (EmitError error (clientId req)).

Definition handleRequestProgress (rid : nat) (info : Value) : Js unit :=
  req ← getRequest rid;
  let percent :=
    match info with
    | VProgressEvent true loaded total => Computed loaded total
    | _ => Fixed 99
    end in
  out (EmitMessage (PROGRESS (clientId req) percent)).

Definition handleDataStoreReady (sid : nat) : Js unit :=
  st ← getStore sid;
  modifyWorld (setDataStores <[name st := sid]>);;
  out (EmitMessage (CACHE_READY (name st))).

Definition handleDataStoreError (sid : nat) (error : Value) : Js unit :=
  out (EmitError error VUndefined).

Definition handleDataStoreClosing (sid : nat) : Js unit :=
  st ← getStore sid;
  modifyWorld (setDataStores (delete (name st))).

(** ** emit *)

Definition callRequestListener (rid : nat) (arg : Value) (cb : RequestCallback)
  : Js unit :=
  match cb with
  | HandleRequestData => handleRequestData rid arg
  | HandleRequestError => handleRequestError rid arg
  | HandleRequestProgress => handleRequestProgress rid arg
  end.

Definition callStoreListener (sid : nat) (arg : Value) (cb : StoreCallback)
  : Js unit :=
  match cb with
  | HandleDataStoreReady => handleDataStoreReady sid
  | HandleDataStoreError => handleDataStoreError sid arg
  | HandleDataStoreClosing => handleDataStoreClosing sid
  end.

(** request.emit(event, request, arg): the listeners registered when the
    call starts are invoked in order. *)
Definition emitRequest (rid : nat) (event : string) (arg : Value) : Js unit :=
  req ← getRequest rid;
  updRequest rid (logEmitted event);;
  forEach (callRequestListener rid arg) (Emitter.receivers (rlisteners req) event).

(** store.emit(event, store, arg) *)
Definition emitStore (sid : nat) (event : string) (arg : Value) : Js unit :=
  st ← getStore sid;
  updStore sid (logSEmitted event);;
  forEach (callStoreListener sid arg) (Emitter.receivers (slisteners st) event).

(** ** BitstormDataStore *)

Definition VERSION : Z := 1.
Definition METADATA : string := "metadata".
Definition FILEDATA : string := "filedata".

(** db.transaction(...): a [null] handle has no such method, and a
    connection that is closing refuses new transactions. *)
Definition transaction (sid : nat) : Js unit :=
  st ← getStore sid;
  d ← deref (db st);
  if closePending d then throw InvalidStateError else mret tt.

Definition createStorageContainers (sid : nat) : Js unit :=
  st ← getStore sid;
  out (IdbCreateObjectStore (name st) METADATA);;
  out (IdbCreateObjectStore (name st) FILEDATA).

Definition handleUpgrade (sid : nat) : Js unit :=
  updStore sid (setDb (Some (mkDb false)));;
  createStorageContainers sid.

Definition handleOpenError (sid : nat) (err : Value) : Js unit :=
  emitStore sid "error" err.

(** [legacy] is the test [db.setVersion && db.version != VERSION]. *)
Definition handleOpenSuccess (sid : nat) (legacy : bool) : Js unit :=
  updStore sid (setDb (Some (mkDb false)));;
  if legacy then
    st ← getStore sid;
    out (IdbSetVersion (name st) VERSION);;
    updStore sid (setSPending SetVersionRequest)
  else
    updStore sid (setReady true);;
    emitStore sid "ready" VUndefined.

(** The callbacks of the setVersion request and of its transaction. *)
Definition setVersionSuccess (sid : nat) : Js unit :=
  createStorageContainers sid;;
  updStore sid (setSPending VersionChangeTxn).

Definition setVersionError (sid : nat) (err : Value) : Js unit :=
  emitStore sid "error" err.

Definition versionChangeComplete (sid : nat) : Js unit :=
  updStore sid (setReady true);;
  emitStore sid "ready" VUndefined.

Definition open (sid : nat) : Js unit :=
  st ← getStore sid;
  out (IdbOpen (name st) VERSION);;
  updStore sid (setSPending OpenRequest).

Definition close (sid : nat) : Js unit :=
  st ← getStore sid;
  if ready st then
    updStore sid (setReady false);;
    emitStore sid "closing" VUndefined;;
    st' ← getStore sid;
    match db st' with
    | Some _ => updStore sid (setDb (Some (mkDb true)));; out (IdbClose (name st'))
    | None => mret tt
    end
  else mret tt.

Definition deleteStore (name : string) : Js unit :=
  out (IdbDeleteDatabase name).

(** The last character of a string, if any. *)
Fixpoint lastChar (s : string) : option Ascii.ascii :=
  match s with
  | EmptyString => None
  | String c EmptyString => Some c
  | String _ rest => lastChar rest
  end.

(** The URL createRequest builds from the server URL and the name. *)
Definition resourceUrl_of (server name : string) : string :=
  let url := server in
  let url :=
    if decide (0 < String.length url)%nat then
      if decide (lastChar url = Some "/"%char) then url else url +:+ "/"
    else url in
  url +:+ name.

(** createRequest(server, name, responseType): allocates the request; it
    is not started. *)
Definition createRequest (sid : nat) (server name responseType : string) : Js nat :=
  w ← getWorld;
  let request :=
    mkRequest name (resourceUrl_of server name) responseType sid false None
              VUndefined ∅ NoOp [] in
  modifyWorld (setRequests (λ h, h ++ [request]));;
  mret (length (requests w)).

(** ** BitstormResourceRequest *)

Definition queryDataStore (rid : nat) : Js unit :=
  req ← getRequest rid;
  st ← getStore (store req);
  transaction (store req);;
  out (IdbGet (name st) FILEDATA (key req));;
  updRequest rid (setPending GetOp).

(** cacheData(info, data); [total] is [info.total] and [now] is the
    value of [Date.now()]. *)
Definition cacheData (rid : nat) (total : Z) (data : Value) (now : Z) : Js unit :=
  req ← getRequest rid;
  st ← getStore (store req);
  transaction (store req);;
  out (IdbPutMeta (name st) METADATA (key req) (type req) total now);;
  out (IdbPutData (name st) FILEDATA (key req) data);;
  updRequest rid (setPending (TxnOp data)).

Definition downloadData (rid : nat) : Js unit :=
  req ← getRequest rid;
  out (XhrSend "GET" (url req) (type req));;
  updRequest rid (setPending XhrOp).

(** start(checkCache); the test is [checkCache != false]. *)
Definition start (rid : nat) (checkCache : option bool) : Js unit :=
  req ← getRequest rid;
  if started req then mret tt
  else if decide (checkCache = Some false) then
    updRequest rid (setStarted true);;
    downloadData rid
  else
    updRequest rid (setStarted true);;
    queryDataStore rid.

(** The callbacks the three operations register. *)
Definition getSuccess (rid : nat) (result : Value) : Js unit :=
  if decide (result = VUndefined) then downloadData rid
  else emitRequest rid "data" result.

Definition getError (rid : nat) : Js unit := downloadData rid.

Definition xhrLoad (rid : nat) (status : Z) (statusText : string)
  (response : Value) (total now : Z) : Js unit :=
  if decide (200 ≤ status < 300) then cacheData rid total response now
  else emitRequest rid "error" (VString statusText).

Definition xhrProgress (rid : nat) (e : Value) : Js unit :=
  emitRequest rid "progress" e.

Definition xhrError (rid : nat) (statusText : string) : Js unit :=
  emitRequest rid "error" (VString statusText).

Definition txnComplete (rid : nat) (data : Value) : Js unit :=
  emitRequest rid "data" data.

Definition txnError (rid : nat) (data : Value) : Js unit :=
  emitRequest rid "data" data.

(** ** BitstormContentServer: requests and data stores *)

Record Args := mkArgs {
  requestId : Value;
  cacheName : string;
  preferredServer : option string;
  resourceName : string;
  responseType : option string;
  returnCached : option bool
}.

(** A string argument as a truth value: missing and empty are false. *)
Definition truthy (s : option string) : option string :=
  match s with
  | Some "" => None
  | _ => s
  end.

(** [dataStore && dataStore.ready]. A member of Object.prototype, which
    the read gives for a name of [prototypeNames] that is not in the
    map, has no [ready]: it is refused like a missing data store. *)
Definition readyStore (dataStore : option nat) : Js (option nat) :=
  match dataStore with
  | Some sid => st ← getStore sid; mret (if ready st then Some sid else None)
  | None => mret None
  end.

Definition notReady (cacheName : string) : Value :=
  VString ("Cache " +:+ cacheName +:+ " is not ready.").

(** The statements of requestResource that resolve [serverRecord]: the
    preferred server when it is given and registered, else the choice of
    chooseContentServer. *)
Definition selectServer (preferredServer : option string) : Js (option nat) :=
  preferred ←
    match truthy preferredServer with
    | Some url => findContentServer url
    | None => mret None
    end;
  match preferred with
  | Some r => mret (Some r)
  | None => chooseContentServer
  end.

Definition requestResource (args : Args) : Js (option nat) :=
  let responseType := default "arraybuffer" (truthy (responseType args)) in
  w ← getWorld;
  dataStore ← readyStore (dataStores w !! cacheName args);
  match dataStore with
  | None =>
      out (EmitError (notReady (cacheName args)) (requestId args));;
      mret None
  | Some sid =>
      serverRecord ← selectServer (preferredServer args);
      r ← deref serverRecord;
      x ← getRecord r;
      rid ← createRequest sid (serverUrl x) (resourceName args) responseType;
      updRequest rid (setServer (Some r));;
      updRequest rid (setClientId (requestId args));;
      updRequest rid (setRListeners (Emitter.on "data" HandleRequestData));;
      updRequest rid (setRListeners (Emitter.on "error" HandleRequestError));;
      updRequest rid (setRListeners (Emitter.on "progress" HandleRequestProgress));;
      updRecord r (addLoad 1);;
      start rid (returnCached args);;
      mret (Some rid)
  end.

(** createDataStore(name). [this.dataStores[name]] is truthy for a data
    store in the map and for a name of [prototypeNames]; in both cases
    the function returns at once. *)
Definition createDataStore (name : string) : Js unit :=
  w ← getWorld;
  match dataStores w !! name with
  | Some _ => mret tt
  | None =>
      if inherited name then mret tt else
      let sid := length (stores w) in
      modifyWorld (setStores (λ h, h ++ [mkStore name false None ∅ Idle []]));;
      updStore sid (setSListeners (Emitter.on "ready" HandleDataStoreReady));;
      updStore sid (setSListeners (Emitter.on "error" HandleDataStoreError));;
      updStore sid (setSListeners (Emitter.on "closing" HandleDataStoreClosing));;
      open sid
  end.

(** deleteDataStore(name). For a name of [prototypeNames] that is not in
    the map, [dataStore] is a member of Object.prototype, which has no
    [close]: the call ends in a TypeError. *)
Definition deleteDataStore (name : string) : Js unit :=
  w ← getWorld;
  match dataStores w !! name with
  | Some sid => close sid
  | None => if inherited name then throw TypeError else mret tt
  end;;
  deleteStore name.

(** ** The event loop *)

(** What can happen to the content server: a call of its client
    (BitstormContentServerLocal) or a callback of the platform. *)
Inductive Event :=
| AddServer (url : string)
| RemoveServer (url : string)
| OpenCache (name : string)
| DeleteCache (name : string)
| RequestResource (args : Args)
| OnUpgradeNeeded (sid : nat)
| OnOpenError (sid : nat) (err : Value)
| OnOpenSuccess (sid : nat) (legacy : bool)
| OnSetVersionSuccess (sid : nat)
| OnSetVersionError (sid : nat) (err : Value)
| OnVersionChangeComplete (sid : nat)
| OnGetSuccess (rid : nat) (result : Value)
| OnGetError (rid : nat)
| OnXhrProgress (rid : nat) (e : Value)
| OnXhrLoad (rid : nat) (status : Z) (statusText : string) (response : Value)
            (total now : Z)
| OnXhrError (rid : nat) (statusText : string)
| OnTxnComplete (rid : nat)
| OnTxnError (rid : nat)      (* the error event of one put, at the transaction *)
| OnTxnAbort (rid : nat).     (* the abort event of the transaction; cacheData
                                 sets no [onabort] *)

(** The platform fires the events of an operation while the operation is
    in the state that has them; [f] gives the callback that runs in the
    state the operation of the request is in. *)
Definition requestCallback (rid : nat) (f : RequestOp → option (Js unit)) : Js unit :=
  w ← getWorld;
  match requests w !! rid with
  | Some q => default (mret tt) (f (pending q))
  | None => mret tt
  end.

Definition storeCallback (sid : nat) (f : StoreOp → option (Js unit)) : Js unit :=
  w ← getWorld;
  match stores w !! sid with
  | Some st => default (mret tt) (f (spending st))
  | None => mret tt
  end.

(** The operation is over once the platform has fired its last event. *)
Definition finish (rid : nat) : Js unit := updRequest rid (setPending NoOp).
Definition sfinish (sid : nat) : Js unit := updStore sid (setSPending Idle).

Definition handle (e : Event) : Js unit :=
  match e with
  | AddServer url => addContentServer url
  | RemoveServer url => removeContentServer url
  | OpenCache name => createDataStore name
  | DeleteCache name => deleteDataStore name
  | RequestResource args => requestResource args;; mret tt
  | OnUpgradeNeeded sid =>
      storeCallback sid (λ op,
        match op with OpenRequest => Some (handleUpgrade sid) | _ => None end)
  | OnOpenError sid err =>
      storeCallback sid (λ op,
        match op with
        | OpenRequest => Some (sfinish sid;; handleOpenError sid err)
        | _ => None
        end)
  | OnOpenSuccess sid legacy =>
      storeCallback sid (λ op,
        match op with
        | OpenRequest => Some (sfinish sid;; handleOpenSuccess sid legacy)
        | _ => None
        end)
  | OnSetVersionSuccess sid =>
      storeCallback sid (λ op,
        match op with
        | SetVersionRequest => Some (sfinish sid;; setVersionSuccess sid)
        | _ => None
        end)
  | OnSetVersionError sid err =>
      storeCallback sid (λ op,
        match op with
        | SetVersionRequest => Some (sfinish sid;; setVersionError sid err)
        | _ => None
        end)
  | OnVersionChangeComplete sid =>
      storeCallback sid (λ op,
        match op with
        | VersionChangeTxn => Some (sfinish sid;; versionChangeComplete sid)
        | _ => None
        end)
  | OnGetSuccess rid result =>
      requestCallback rid (λ op,
        match op with
        | GetOp => Some (finish rid;; getSuccess rid result)
        | _ => None
        end)
  | OnGetError rid =>
      requestCallback rid (λ op,
        match op with GetOp => Some (finish rid;; getError rid) | _ => None end)
  | OnXhrProgress rid e =>
      requestCallback rid (λ op,
        match op with XhrOp => Some (xhrProgress rid e) | _ => None end)
  | OnXhrLoad rid status statusText response total now =>
      requestCallback rid (λ op,
        match op with
        | XhrOp => Some (finish rid;; xhrLoad rid status statusText response total now)
        | _ => None
        end)
  | OnXhrError rid statusText =>
      requestCallback rid (λ op,
        match op with
        | XhrOp => Some (finish rid;; xhrError rid statusText)
        | _ => None
        end)
  | OnTxnComplete rid =>
      requestCallback rid (λ op,
        match op with
        | TxnOp data => Some (finish rid;; txnComplete rid data)
        | _ => None
        end)
  | OnTxnError rid =>
      requestCallback rid (λ op,
        match op with
        | TxnOp data =>
            Some (updRequest rid (setPending (TxnAborting data));;
                  txnError rid data)
        | TxnAborting data => Some (finish rid;; txnError rid data)
        | _ => None
        end)
  | OnTxnAbort rid =>
      requestCallback rid (λ op,
        match op with
        | TxnOp _ | TxnAborting _ => Some (finish rid)
        | _ => None
        end)
  end.

(** One turn of the event loop. An exception that leaves the handler is
    reported and the loop goes on with the heap as the handler left it. *)
Definition step (e : Event) (w : World) : World * list Output :=
  match handle e w with
  | (Normal _, w', o) => (w', o)
  | (Throw x, w', o) => (w', o ++ [Uncaught x])
  end.

Fixpoint run (events : list Event) (w : World) : World * list Output :=
  match events with
  | [] => (w, [])
  | e :: rest =>
      let '(w1, o1) := step e w in
      let '(w2, o2) := run rest w1 in
      (w2, o1 ++ o2)
  end.

Definition after (events : list Event) (w : World) : World := (run events w).1.
Definition outputs (events : list Event) (w : World) : list Output := (run events w).2.

(** * Properties *)

(** ** Notions the properties are stated with *)

Fixpoint count {A} (p : A → bool) (l : list A) : nat :=
  match l with
  | [] => 0
  | x :: rest => (if p x then 1 else 0) + count p rest
  end.

Definition terminal (event : string) : bool :=
  bool_decide (event = "data") || bool_decide (event = "error").

(** The number of terminal events in a history. *)
Definition terminals (history : list string) : nat := count terminal history.

Definition boundTo (r : nat) (q : ResourceRequest) : bool :=
  bool_decide (server q = Some r).

(** The number of requests dispatched to record [r]. *)
Definition dispatched (w : World) (r : nat) : nat :=
  count (boundTo r) (requests w).

(** The subscriptions requestResource makes on a request. *)
Definition subscribed (ls : Emitter.Listeners RequestCallback) : Prop :=
  Emitter.receivers ls "data" = [HandleRequestData] ∧
  Emitter.receivers ls "error" = [HandleRequestError] ∧
  Emitter.receivers ls "progress" = [HandleRequestProgress].

(** The subscriptions createDataStore makes on a data store. *)
Definition ssubscribed (ls : Emitter.Listeners StoreCallback) : Prop :=
  Emitter.receivers ls "ready" = [HandleDataStoreReady] ∧
  Emitter.receivers ls "error" = [HandleDataStoreError] ∧
  Emitter.receivers ls "closing" = [HandleDataStoreClosing].

(** What holds of every request the content server has created. *)
Record request_ok (w : World) (q : ResourceRequest) : Prop := {
  ok_server : ∃ r x, server q = Some r ∧ records w !! r = Some x ∧
                     url q = resourceUrl_of (serverUrl x) (key q);
  ok_subscribed : subscribed (rlisteners q)
}.

(** The invariant of the content server. *)
Record world_ok (w : World) : Prop := {
  ok_requests : ∀ rid q, requests w !! rid = Some q → request_ok w q;
  ok_stores : ∀ sid st, stores w !! sid = Some st → ssubscribed (slisteners st);
  ok_dataStores : ∀ n sid, dataStores w !! n = Some sid →
                           ∃ st, stores w !! sid = Some st ∧ name st = n;
  ok_names : ∀ sid st, stores w !! sid = Some st → inherited (name st) = false
}.

(** What the terminal handlers do to a request that emits [event]. *)
Definition completed (event : string) (q : ResourceRequest) : ResourceRequest :=
  setRListeners (Emitter.removeAllListeners None) (logEmitted event q).

(** The exception [db.transaction] raises on a data store, if any. *)
Definition transactionOutcome (w : World) (sid : nat) : option Exn :=
  match stores w !! sid with
  | Some st =>
      match db st with
      | Some d => if closePending d then Some InvalidStateError else None
      | None => Some TypeError
      end
  | None => Some TypeError
  end.

(** What close() does to a data store that is ready. *)
Definition closed (st : DataStore) : DataStore :=
  match db st with
  | Some _ => setDb (Some (mkDb true)) (logSEmitted "closing" (setReady false st))
  | None => logSEmitted "closing" (setReady false st)
  end.

(** The data store createDataStore makes. *)
Definition newStore (n : string) : DataStore :=
  mkStore n false None
    (Emitter.on "closing" HandleDataStoreClosing
      (Emitter.on "error" HandleDataStoreError
        (Emitter.on "ready" HandleDataStoreReady ∅)))
    OpenRequest [].

(** The part of the invariant that is about data stores. *)
Definition stores_ok (w : World) : Prop :=
  (∀ sid st, stores w !! sid = Some st → ssubscribed (slisteners st)) ∧
  (∀ n sid, dataStores w !! n = Some sid →
            ∃ st, stores w !! sid = Some st ∧ name st = n) ∧
  (∀ sid st, stores w !! sid = Some st → inherited (name st) = false).

(** What the callbacks of a successful open do to a data store. *)
Definition opened (st : DataStore) : DataStore :=
  logSEmitted "ready" (setReady true (setDb (Some (mkDb false)) (setSPending Idle st))).
Definition upgraded (st : DataStore) : DataStore :=
  logSEmitted "ready" (setReady true (setSPending Idle st)).

(** The request requestResource has made when it returns or throws:
    bound to record [r] with URL [serverUrl], subscribed, started, with
    operation [op] outstanding. *)
Definition newRequest (args : Args) (sid r : nat) (serverUrl : string)
  (op : RequestOp) : ResourceRequest :=
  mkRequest (resourceName args) (resourceUrl_of serverUrl (resourceName args))
    (default "arraybuffer" (truthy (responseType args))) sid true (Some r)
    (requestId args)
    (Emitter.on "progress" HandleRequestProgress
      (Emitter.on "error" HandleRequestError
        (Emitter.on "data" HandleRequestData ∅)))
    op [].

(** The world after a request [q] was dispatched to record [r]. *)
Definition dispatch (r : nat) (q : ResourceRequest) (w : World) : World :=
  setRecords (alter (addLoad 1) r) (setRequests (λ h, h ++ [q]) w).


(** The worlds the content server can be in. *)
Definition reachable (w : World) : Prop :=
  ∃ events, after events newContentServer = w.

(** ** Scenarios *)

Module Scenario.
(** A request for [n] from the cache "assets", with request id 1 and
    every optional argument left out. *)
Definition get (n : string) : Args :=
  mkArgs (VNumber 1) "assets" None n None None.

(** The same request with [returnCached] false. *)
Definition fetch (n : string) : Args :=
  mkArgs (VNumber 1) "assets" None n None (Some false).

(** The cache "assets" is opened and becomes ready. *)
Definition cacheReady : list Event :=
  [OpenCache "assets"; OnOpenSuccess 0 false].

(** Servers A and B are the registered ones, and three requests have
    been dispatched: one to A, one to B, and a third one to A. *)
Definition busy : list Event :=
  [RemoveServer ""; AddServer "A"; AddServer "B"] ++ cacheReady ++
  [RequestResource (get "a"); RequestResource (get "b");
   RequestResource (get "c")].

(** The only server has been removed. *)
Definition noServer : list Event := [RemoveServer ""] ++ cacheReady.

(** A request for "x.bin" missed the cache and is downloading. *)
Definition downloading : list Event :=
  cacheReady ++ [RequestResource (get "x.bin"); OnGetSuccess 0 VUndefined].

(** The download succeeded and the cache write is outstanding. *)
Definition caching : list Event :=
  downloading ++ [OnXhrLoad 0 200 "OK" (VString "bytes") 5 1000].

(** A request for "x.bin" was served from the cache. *)
Definition cacheHit : list Event :=
  cacheReady ++ [RequestResource (get "x.bin"); OnGetSuccess 0 (VString "bytes")].
End Scenario.

(** ** Notions the further properties are stated with *)

(** The URLs of the registered servers, in the order of registration;
    [None] stands for a reference to no record. *)
Definition registered (w : World) : list (option string) :=
  (λ r, serverUrl <$> records w !! r) <$> contentServers w.

(** The first of the references [list] whose record has the URL. *)
Fixpoint firstWithUrl (h : list ServerRecord) (url : string) (list : list nat)
  : option nat :=
  match list with
  | [] => None
  | r :: rest =>
      if decide (serverUrl <$> h !! r = Some url) then Some r
      else firstWithUrl h url rest
  end.

(** The invariant of the registry: every registered server has a record,
    and no URL is registered twice. *)
Definition registry_ok (w : World) : Prop :=
  NoDup (registered w) ∧ None ∉ registered w.

(** What a request keeps for its life: the fields the constructor,
    createRequest and requestResource set, and the events it has emitted
    so far. *)
Record same_request (q q' : ResourceRequest) : Prop := {
  same_key : key q' = key q;
  same_url : url q' = url q;
  same_type : type q' = type q;
  same_store : store q' = store q;
  same_server : server q' = server q;
  same_clientId : clientId q' = clientId q;
  same_started : started q' = started q;
  same_emitted : ∃ more, emitted q' = emitted q ++ more
}.

(** A change of a request that keeps all of that. *)
Definition keeps (f : ResourceRequest → ResourceRequest) : Prop :=
  ∀ q, same_request q (f q).

(** The request id a notification of the content server carries. *)
Definition notificationId (o : Output) : option Value :=
  match o with
  | EmitError _ requestId => Some requestId
  | EmitMessage (PROGRESS requestId _) => Some requestId
  | EmitMessage (RESOURCE_DATA requestId _ _ _ _) => Some requestId
  | _ => None
  end.

(** The request a callback of the platform belongs to. *)
Definition eventRequest (e : Event) : option nat :=
  match e with
  | OnGetSuccess rid _ | OnGetError rid | OnXhrProgress rid _
  | OnXhrLoad rid _ _ _ _ _ | OnXhrError rid _
  | OnTxnComplete rid | OnTxnError rid | OnTxnAbort rid => Some rid
  | _ => None
  end.

(** Every notification among [outs] carries the request id [id]. *)
Definition tagged (id : Value) (outs : list Output) : Prop :=
  ∀ o id', o ∈ outs → notificationId o = Some id' → id' = id.

(** Every request of the world has been started. *)
Definition all_started (w : World) : Prop :=
  ∀ rid q, requests w !! rid = Some q → started q = true.

(** The invariant of a data store: it is ready only with an open
    connection and no request of its opening outstanding, and while its
    version is changed its connection is open. *)
Record store_ok (st : DataStore) : Prop := {
  ready_open : ready st = true → db st = Some (mkDb false) ∧ spending st = Idle;
  upgrade_open : spending st = SetVersionRequest ∨ spending st = VersionChangeTxn →
                 db st = Some (mkDb false)
}.

(** The invariant of the caches: every data store is as above, and the
    map of data stores holds ready stores only. *)
Record caches_ok (w : World) : Prop := {
  caches_stores : ∀ sid st, stores w !! sid = Some st → store_ok st;
  caches_ready : ∀ n sid st, dataStores w !! n = Some sid →
                             stores w !! sid = Some st → ready st = true
}.

(** ** BitstormEmitter: removeListener, once and the loop of emit *)

Module Listener.

(** A function registered as a listener: a function of the application,
    known by its identity, or the function [func] that once(event,
    callback) makes, with the two variables it closes over. A function of
    the application is taken to leave the emitter alone; calling it is
    recorded by its identity. *)
Inductive Fn :=
| App (id : nat)
| OnceFn (id : nat) (event : string) (callback : Fn).

Global Instance Fn_eq_dec : EqDecision Fn.
Proof. solve_decision. Defined.

(** An emitter: its listeners and the number of functions once has made,
    which gives each of them its identity. *)
Record Emitter := mkEmitter {
  listeners : Emitter.Listeners Fn;
  made : nat
}.

(** handler.indexOf(callback) from index [i] on: -1 when it is absent. *)
Fixpoint indexOfFrom (callback : Fn) (handler : list Fn) (i : Z) : Z :=
  match handler with
  | [] => -1
  | f :: rest =>
      if decide (f = callback) then i else indexOfFrom callback rest (i + 1)
  end.

Definition indexOf (callback : Fn) (handler : list Fn) : Z :=
  indexOfFrom callback handler 0.

(** handler.splice(start, 1): a negative start counts from the end, and
    one element is removed when there is one at the start. *)
Definition splice1 (start : Z) (handler : list Fn) : list Fn :=
  let len := Z.of_nat (length handler) in
  let from := if decide (start < 0) then Z.max (len + start) 0
              else Z.min start len in
  delete (Z.to_nat from) handler.

(** removeListener(event, callback) *)
Definition removeListener (event : string) (callback : Fn)
  (ls : Emitter.Listeners Fn) : Emitter.Listeners Fn :=
  let handler := default [] (Emitter.handlers ls event) in
  <[event := Some (splice1 (indexOf callback handler) handler)]> ls.

(** once(event, callback) *)
Definition once (event : string) (callback : Fn) (e : Emitter) : Emitter :=
  let func := OnceFn (made e) event callback in
  mkEmitter (Emitter.on event func (listeners e)) (S (made e)).

(** on(event, callback) *)
Definition on (event : string) (callback : Fn) (e : Emitter) : Emitter :=
  mkEmitter (Emitter.on event callback (listeners e)) (made e).

(** A call of a listener: the listeners it leaves and the calls of
    functions of the application it makes, appended to [calls]. *)
Fixpoint call (f : Fn) (ls : Emitter.Listeners Fn) (calls : list nat)
  : Emitter.Listeners Fn * list nat :=
  match f with
  | App id => (ls, calls ++ [id])
  | OnceFn _ event callback => call callback (removeListener event f ls) calls
  end.

(** The loop of emit, [for (i; i < n; ++i) listener[i].call(...)], with
    [count] iterations to go. The array [listener] is the one in the slot
    of the event, which removeListener changes in place, so each
    iteration reads the slot; an index without an element is
    [undefined], which has no [call]. *)
Fixpoint emitLoop (event : string) (i count : nat)
  (ls : Emitter.Listeners Fn) (calls : list nat)
  : Completion unit * Emitter.Listeners Fn * list nat :=
  match count with
  | O => (Normal tt, ls, calls)
  | S k =>
      match Emitter.handlers ls event ≫= (λ listener, listener !! i) with
      | Some f =>
          let '(ls', calls') := call f ls calls in
          emitLoop event (S i) k ls' calls'
      | None => (Throw TypeError, ls, calls)
      end
  end.

(** emit(event, ...) *)
Definition emit (event : string) (ls : Emitter.Listeners Fn)
  : Completion unit * Emitter.Listeners Fn * list nat :=
  match Emitter.handlers ls event with
  | Some listener => emitLoop event 0 (length listener) ls []
  | None => (Normal tt, ls, [])
  end.

(** The identities of a list of functions of the application. *)
Definition apps (ids : list nat) : list Fn := App <$> ids.

End Listener.

(** ** Counting *)

Lemma count_app {A} (p : A → bool) l1 l2 :
  count p (l1 ++ l2) = (count p l1 + count p l2)%nat.
Proof. induction l1 as [|x l1 IH]; cbn; [done | rewrite IH; lia]. Qed.

Lemma count_alter {A} (p : A → bool) f (l : list A) i x :
  l !! i = Some x →
  (count p (alter f i l) + (if p x then 1 else 0)
   = count p l + (if p (f x) then 1 else 0))%nat.
Proof.
  revert i. induction l as [|y l IH]; intros [|i] Hi; try done.
  - injection Hi as ->. cbn. lia.
  - cbn. specialize (IH i Hi). cbn in IH. lia.
Qed.

Lemma alter_None {A} (f : A → A) (l : list A) i :
  l !! i = None → alter f i l = l.
Proof.
  revert i. induction l as [|y l IH]; intros [|i] Hi; try done.
  cbn. f_equal. by apply IH.
Qed.

Lemma count_alter_same {A} (p : A → bool) f (l : list A) i :
  (∀ x, l !! i = Some x → p (f x) = p x) →
  count p (alter f i l) = count p l.
Proof.
  intros Hp. destruct (l !! i) as [x|] eqn:Hi.
  - pose proof (count_alter p f l i x Hi) as H. rewrite (Hp x eq_refl) in H. lia.
  - by rewrite alter_None.
Qed.

Lemma terminals_snoc history event :
  terminals (history ++ [event])
  = (terminals history + (if terminal event then 1 else 0))%nat.
Proof. unfold terminals. rewrite count_app. cbn. lia. Qed.

(** ** The emitter *)

Section EmitterFacts.
Context {C : Type}.
Implicit Types ls : Emitter.Listeners C.

Lemma receivers_removeAllListeners_ne ls e event :
  event ≠ Emitter.propertyKey e →
  Emitter.receivers (Emitter.removeAllListeners e ls) event
  = Emitter.receivers ls event.
Proof.
  intros Hne. unfold Emitter.receivers, Emitter.handlers, Emitter.removeAllListeners.
  by rewrite lookup_insert_ne.
Qed.


Lemma receivers_on_eq ls event cb :
  Emitter.receivers (Emitter.on event cb ls) event
  = Emitter.receivers ls event ++ [cb].
Proof.
  unfold Emitter.receivers, Emitter.handlers, Emitter.on.
  by rewrite lookup_insert_eq.
Qed.

Lemma receivers_on_ne ls event event' cb :
  event ≠ event' →
  Emitter.receivers (Emitter.on event cb ls) event'
  = Emitter.receivers ls event'.
Proof.
  intros Hne. unfold Emitter.receivers, Emitter.handlers, Emitter.on.
  by rewrite lookup_insert_ne.
Qed.

Lemma receivers_empty event : Emitter.receivers (∅ : Emitter.Listeners C) event = [].
Proof. unfold Emitter.receivers, Emitter.handlers. by rewrite lookup_empty. Qed.
End EmitterFacts.

(** ** Evaluation of the monad *)

Arguments Emitter.receivers : simpl never.
Arguments Emitter.removeAllListeners : simpl never.
Arguments Emitter.on : simpl never.
Arguments alter : simpl never.
Arguments lookup : simpl never.
Arguments resourceUrl_of : simpl never.
Arguments notReady : simpl never.

Ltac js_unfold :=
  unfold getRequest, getRecord, getStore, updRequest, updRecord, updStore,
    finish, sfinish;
  unfold mbind, Js_bind, bind, mret, Js_ret, ret, getWorld, modifyWorld, out,
    deref, throw.

Lemma setRequests_twice f g w :
  setRequests g (setRequests f w) = setRequests (g ∘ f) w.
Proof. reflexivity. Qed.

Lemma alter_twice {A} (f g : A → A) i (l : list A) :
  alter g i (alter f i l) = alter (g ∘ f) i l.
Proof. apply list_alter_alter_eq. Qed.

Lemma alter_snoc {A} (f : A → A) (l : list A) x :
  alter f (length l) (l ++ [x]) = l ++ [f x].
Proof.
  replace (length l) with (length l + 0)%nat by lia.
  by rewrite alter_app_r.
Qed.

(** ** How the invariant is kept *)

Lemma subscribed_removeAllListeners ls :
  subscribed ls → subscribed (Emitter.removeAllListeners None ls).
Proof.
  intros (Hd & He & Hp).
  repeat split; rewrite receivers_removeAllListeners_ne; done.
Qed.

Lemma subscribed_on :
  subscribed (Emitter.on "progress" HandleRequestProgress
               (Emitter.on "error" HandleRequestError
                 (Emitter.on "data" HandleRequestData ∅))).
Proof.
  repeat split;
    repeat first [ rewrite receivers_on_eq | rewrite receivers_on_ne by done
                 | rewrite receivers_empty ]; done.
Qed.

Lemma ssubscribed_on :
  ssubscribed (Emitter.on "closing" HandleDataStoreClosing
                (Emitter.on "error" HandleDataStoreError
                  (Emitter.on "ready" HandleDataStoreReady ∅))).
Proof.
  repeat split;
    repeat first [ rewrite receivers_on_eq | rewrite receivers_on_ne by done
                 | rewrite receivers_empty ]; done.
Qed.

Lemma request_ok_records w w' q :
  (∀ r x, records w !! r = Some x →
          ∃ x', records w' !! r = Some x' ∧ serverUrl x' = serverUrl x) →
  request_ok w q → request_ok w' q.
Proof.
  intros Hrec [(r & x & Hs & Hx & Hu) Hsub].
  split; try done.
  destruct (Hrec r x Hx) as (x' & Hx' & Hurl).
  exists r, x'. by rewrite Hurl.
Qed.

Lemma records_addLoad d r (h : list ServerRecord) r' x :
  h !! r' = Some x →
  ∃ x', alter (addLoad d) r h !! r' = Some x' ∧ serverUrl x' = serverUrl x.
Proof.
  intros Hx. destruct (decide (r' = r)) as [->|Hne].
  - exists (addLoad d x). by rewrite list_lookup_alter_eq, Hx.
  - exists x. by rewrite list_lookup_alter_ne.
Qed.

(** A request changes and keeps its server, its URL, its key and its
    subscriptions. *)
Lemma world_ok_update w rid q f :
  world_ok w →
  requests w !! rid = Some q →
  server (f q) = server q → url (f q) = url q → key (f q) = key q →
  subscribed (rlisteners (f q)) →
  world_ok (setRequests (alter f rid) w).
Proof.
  intros [Hreq Hst Hds Hnames] Hq Hs Hu Hk Hsub.
  split; cbn; try done.
  intros rid' q' Hq'. destruct (decide (rid' = rid)) as [->|Hne].
  - rewrite list_lookup_alter_eq, Hq in Hq'. injection Hq' as <-.
    destruct (Hreq rid q Hq) as [Hsrv _].
    split; rewrite ?Hs, ?Hu, ?Hk; done.
  - rewrite list_lookup_alter_ne in Hq' by done.
    eapply request_ok_records; [| by eapply Hreq]. eauto.
Qed.

(** The load of a record changes. *)
Lemma world_ok_load w d r :
  world_ok w → world_ok (setRecords (alter (addLoad d) r) w).
Proof.
  intros [Hreq Hst Hds Hnames]. split; cbn; try done.
  intros rid q Hq. eapply request_ok_records; [| by eapply Hreq].
  cbn. intros r' x Hx. by apply records_addLoad.
Qed.

(** A request emits a terminal event and releases its server. *)
Lemma world_ok_terminate w rid q r f :
  world_ok w →
  requests w !! rid = Some q →
  server (f q) = server q → url (f q) = url q → key (f q) = key q →
  subscribed (rlisteners (f q)) →
  world_ok (setRecords (alter (addLoad (-1)) r) (setRequests (alter f rid) w)).
Proof.
  intros Hok Hq Hs Hu Hk Hsub.
  apply world_ok_load. by eapply world_ok_update.
Qed.

(** A request is created and dispatched to a server. *)
Lemma world_ok_dispatch w r x q0 :
  world_ok w →
  records w !! r = Some x →
  server q0 = Some r →
  url q0 = resourceUrl_of (serverUrl x) (key q0) →
  subscribed (rlisteners q0) →
  world_ok (setRecords (alter (addLoad 1) r) (setRequests (λ h, h ++ [q0]) w)).
Proof.
  intros [Hreq Hst Hds Hnames] Hx Hs Hu Hsub.
  apply world_ok_load. split; cbn; try done.
  intros rid' q' Hq'. apply lookup_app_Some in Hq' as [Hq'|[_ Hq']].
  - eapply request_ok_records; [| by eapply Hreq]. eauto.
  - apply list_lookup_singleton_Some in Hq' as [_ <-].
    split; [| done]. by exists r, x.
Qed.

(** A server is registered. *)
Lemma world_ok_register w url f :
  world_ok w →
  world_ok (setContentServers f (setRecords (λ h, h ++ [mkServerRecord url 0]) w)).
Proof.
  intros [Hreq Hst Hds Hnames].
  split; cbn; try done.
  intros rid q Hq. eapply request_ok_records; [| by eapply Hreq].
  cbn. intros r x Hx. exists x. split; [|done]. by apply lookup_app_l_Some.
Qed.

(** Only data stores, the map of data stores and the list of servers
    change. *)
Lemma world_ok_stores w w' :
  world_ok w →
  records w' = records w → requests w' = requests w →
  (∀ sid st, stores w' !! sid = Some st → ssubscribed (slisteners st)) →
  (∀ n sid, dataStores w' !! n = Some sid →
            ∃ st, stores w' !! sid = Some st ∧ name st = n) →
  (∀ sid st, stores w' !! sid = Some st → inherited (name st) = false) →
  world_ok w'.
Proof.
  intros [Hreq Hst Hds Hnames] Hrec Hrq Hst' Hds' Hnames'.
  split; try done.
  intros rid q Hq. rewrite Hrq in Hq.
  eapply request_ok_records; [| by eapply Hreq].
  intros r x Hx. exists x. by rewrite Hrec.
Qed.

(** ** What the operations of a request compute *)

Lemma setRequests_alter_twice f g rid w :
  setRequests (alter g rid) (setRequests (alter f rid) w)
  = setRequests (alter (g ∘ f) rid) w.
Proof. unfold setRequests. cbn. by rewrite alter_twice. Qed.

Lemma setStores_alter_twice f g sid w :
  setStores (alter g sid) (setStores (alter f sid) w)
  = setStores (alter (g ∘ f) sid) w.
Proof. unfold setStores. cbn. by rewrite alter_twice. Qed.

Lemma emitRequest_data w rid q r v :
  requests w !! rid = Some q →
  subscribed (rlisteners q) →
  server q = Some r →
  emitRequest rid "data" v w
  = (Normal tt,
     setRecords (alter (addLoad (-1)) r)
       (setRequests (alter (completed "data") rid) w),
     [EmitMessage (RESOURCE_DATA (clientId q) (url q) (key q) v (type q))]).
Proof.
  intros Hq (Hd & He & Hp) Hs.
  unfold emitRequest. js_unfold. cbn. rewrite Hq. cbn. rewrite Hd. cbn.
  unfold handleRequestData, releaseServer. js_unfold. cbn.
  rewrite !list_lookup_alter_eq, Hq. cbn. rewrite Hs. cbn.
  rewrite !list_lookup_alter_eq, Hq. cbn.
  unfold setRecords, setRequests. cbn. by rewrite alter_twice.
Qed.

Lemma emitRequest_error w rid q r v :
  requests w !! rid = Some q →
  subscribed (rlisteners q) →
  server q = Some r →
  emitRequest rid "error" v w
  = (Normal tt,
     setRecords (alter (addLoad (-1)) r)
       (setRequests (alter (completed "error") rid) w),
     [EmitError v (clientId q)]).
Proof.
  intros Hq (Hd & He & Hp) Hs.
  unfold emitRequest. js_unfold. cbn. rewrite Hq. cbn. rewrite He. cbn.
  unfold handleRequestError, releaseServer. js_unfold. cbn.
  rewrite !list_lookup_alter_eq, Hq. cbn. rewrite Hs. cbn.
  rewrite !list_lookup_alter_eq, Hq. cbn.
  unfold setRecords, setRequests. cbn. by rewrite alter_twice.
Qed.

(** The percentage handleRequestProgress reports. *)
Lemma emitRequest_progress w rid q info :
  requests w !! rid = Some q →
  subscribed (rlisteners q) →
  emitRequest rid "progress" info w
  = (Normal tt,
     setRequests (alter (logEmitted "progress") rid) w,
     [EmitMessage (PROGRESS (clientId q)
        match info with
        | VProgressEvent true loaded total => Computed loaded total
        | _ => Fixed 99
        end)]).
Proof.
  intros Hq (Hd & He & Hp).
  unfold emitRequest. js_unfold. cbn. rewrite Hq. cbn. rewrite Hp. cbn.
  unfold handleRequestProgress. js_unfold. cbn.
  rewrite !list_lookup_alter_eq, Hq. cbn. done.
Qed.

Lemma downloadData_run w rid q :
  requests w !! rid = Some q →
  downloadData rid w
  = (Normal tt, setRequests (alter (setPending XhrOp) rid) w,
     [XhrSend "GET" (url q) (type q)]).
Proof.
  intros Hq. unfold downloadData. js_unfold. cbn. by rewrite Hq.
Qed.

Lemma cacheData_run w rid q total data now :
  requests w !! rid = Some q →
  cacheData rid total data now w
  = match transactionOutcome w (store q), stores w !! store q with
    | None, Some st =>
        (Normal tt, setRequests (alter (setPending (TxnOp data)) rid) w,
         [IdbPutMeta (name st) METADATA (key q) (type q) total now;
          IdbPutData (name st) FILEDATA (key q) data])
    | Some e, _ => (Throw e, w, [])
    | None, None => (Throw TypeError, w, [])
    end.
Proof.
  intros Hq. unfold cacheData, transaction, transactionOutcome. js_unfold. cbn.
  rewrite Hq. cbn.
  destruct (stores w !! store q) as [st|] eqn:Hst; cbn; rewrite ?Hst; cbn; [|done].
  destruct (db st) as [[[]]|]; cbn; done.
Qed.

Lemma queryDataStore_run w rid q :
  requests w !! rid = Some q →
  queryDataStore rid w
  = match transactionOutcome w (store q), stores w !! store q with
    | None, Some st =>
        (Normal tt, setRequests (alter (setPending GetOp) rid) w,
         [IdbGet (name st) FILEDATA (key q)])
    | Some e, _ => (Throw e, w, [])
    | None, None => (Throw TypeError, w, [])
    end.
Proof.
  intros Hq. unfold queryDataStore, transaction, transactionOutcome. js_unfold. cbn.
  rewrite Hq. cbn.
  destruct (stores w !! store q) as [st|] eqn:Hst; cbn; rewrite ?Hst; cbn; [|done].
  destruct (db st) as [[[]]|]; cbn; done.
Qed.

(** ** What the callbacks of the platform compute *)

Ltac lookup_altered Hq :=
  cbn; rewrite ?list_lookup_alter_eq, Hq; reflexivity.

Ltac open_request_event Hq Hp :=
  unfold handle, requestCallback; js_unfold; cbn; rewrite Hq; cbn;
  rewrite Hp; cbn.

Section RequestEvents.
Context (w : World) (rid : nat) (q : ResourceRequest).
Hypothesis Hq : requests w !! rid = Some q.

Let w1 := setRequests (alter (setPending NoOp) rid) w.

Lemma finished_lookup : requests w1 !! rid = Some (setPending NoOp q).
Proof. unfold w1. lookup_altered Hq. Qed.

Lemma handle_getSuccess_hit r result :
  pending q = GetOp → subscribed (rlisteners q) → server q = Some r →
  result ≠ VUndefined →
  handle (OnGetSuccess rid result) w
  = (Normal tt,
     setRecords (alter (addLoad (-1)) r)
       (setRequests (alter (completed "data" ∘ setPending NoOp) rid) w),
     [EmitMessage (RESOURCE_DATA (clientId q) (url q) (key q) result (type q))]).
Proof.
  intros Hp Hsub Hs Hres. open_request_event Hq Hp.
  unfold getSuccess. rewrite decide_False by done.
  erewrite emitRequest_data; [| apply finished_lookup | done | done].
  cbn. by rewrite setRequests_alter_twice.
Qed.

Lemma handle_getSuccess_miss :
  pending q = GetOp →
  handle (OnGetSuccess rid VUndefined) w
  = (Normal tt,
     setRequests (alter (setPending XhrOp ∘ setPending NoOp) rid) w,
     [XhrSend "GET" (url q) (type q)]).
Proof.
  intros Hp. open_request_event Hq Hp.
  unfold getSuccess. rewrite decide_True by done.
  erewrite downloadData_run; [| apply finished_lookup].
  cbn. by rewrite setRequests_alter_twice.
Qed.

Lemma handle_getError :
  pending q = GetOp →
  handle (OnGetError rid) w
  = (Normal tt,
     setRequests (alter (setPending XhrOp ∘ setPending NoOp) rid) w,
     [XhrSend "GET" (url q) (type q)]).
Proof.
  intros Hp. open_request_event Hq Hp.
  unfold getError.
  erewrite downloadData_run; [| apply finished_lookup].
  cbn. by rewrite setRequests_alter_twice.
Qed.

Lemma handle_xhrProgress info :
  pending q = XhrOp → subscribed (rlisteners q) →
  handle (OnXhrProgress rid info) w
  = (Normal tt,
     setRequests (alter (logEmitted "progress") rid) w,
     [EmitMessage (PROGRESS (clientId q)
        match info with
        | VProgressEvent true loaded total => Computed loaded total
        | _ => Fixed 99
        end)]).
Proof.
  intros Hp Hsub. open_request_event Hq Hp.
  unfold xhrProgress. by erewrite emitRequest_progress.
Qed.

Lemma handle_xhrLoad_ok status statusText response total now :
  pending q = XhrOp → 200 ≤ status < 300 →
  handle (OnXhrLoad rid status statusText response total now) w
  = match transactionOutcome w (store q), stores w !! store q with
    | None, Some st =>
        (Normal tt,
         setRequests (alter (setPending (TxnOp response) ∘ setPending NoOp) rid) w,
         [IdbPutMeta (name st) METADATA (key q) (type q) total now;
          IdbPutData (name st) FILEDATA (key q) response])
    | Some e, _ => (Throw e, w1, [])
    | None, None => (Throw TypeError, w1, [])
    end.
Proof.
  intros Hp Hstat. open_request_event Hq Hp.
  unfold xhrLoad. rewrite decide_True by done.
  erewrite cacheData_run; [| apply finished_lookup].
  cbn. unfold transactionOutcome. cbn.
  destruct (stores w !! store q) as [st|]; [|done].
  destruct (db st) as [[[]]|]; cbn; try done.
  by rewrite setRequests_alter_twice.
Qed.

Lemma handle_xhrLoad_fail r status statusText response total now :
  pending q = XhrOp → subscribed (rlisteners q) → server q = Some r →
  ¬ (200 ≤ status < 300) →
  handle (OnXhrLoad rid status statusText response total now) w
  = (Normal tt,
     setRecords (alter (addLoad (-1)) r)
       (setRequests (alter (completed "error" ∘ setPending NoOp) rid) w),
     [EmitError (VString statusText) (clientId q)]).
Proof.
  intros Hp Hsub Hs Hstat. open_request_event Hq Hp.
  unfold xhrLoad. rewrite decide_False by done.
  erewrite emitRequest_error; [| apply finished_lookup | done | done].
  cbn. by rewrite setRequests_alter_twice.
Qed.

Lemma handle_xhrError r statusText :
  pending q = XhrOp → subscribed (rlisteners q) → server q = Some r →
  handle (OnXhrError rid statusText) w
  = (Normal tt,
     setRecords (alter (addLoad (-1)) r)
       (setRequests (alter (completed "error" ∘ setPending NoOp) rid) w),
     [EmitError (VString statusText) (clientId q)]).
Proof.
  intros Hp Hsub Hs. open_request_event Hq Hp.
  unfold xhrError.
  erewrite emitRequest_error; [| apply finished_lookup | done | done].
  cbn. by rewrite setRequests_alter_twice.
Qed.

Lemma handle_txnComplete r data :
  pending q = TxnOp data → subscribed (rlisteners q) → server q = Some r →
  handle (OnTxnComplete rid) w
  = (Normal tt,
     setRecords (alter (addLoad (-1)) r)
       (setRequests (alter (completed "data" ∘ setPending NoOp) rid) w),
     [EmitMessage (RESOURCE_DATA (clientId q) (url q) (key q) data (type q))]).
Proof.
  intros Hp Hsub Hs. open_request_event Hq Hp.
  unfold txnComplete.
  erewrite emitRequest_data; [| apply finished_lookup | done | done].
  cbn. by rewrite setRequests_alter_twice.
Qed.

Lemma handle_txnError r data :
  pending q = TxnOp data → subscribed (rlisteners q) → server q = Some r →
  handle (OnTxnError rid) w
  = (Normal tt,
     setRecords (alter (addLoad (-1)) r)
       (setRequests
          (alter (completed "data" ∘ setPending (TxnAborting data)) rid) w),
     [EmitMessage (RESOURCE_DATA (clientId q) (url q) (key q) data (type q))]).
Proof.
  intros Hp Hsub Hs. open_request_event Hq Hp.
  unfold txnError.
  erewrite emitRequest_data; [| lookup_altered Hq | done | done].
  cbn. by rewrite setRequests_alter_twice.
Qed.

Lemma handle_txnError_again r data :
  pending q = TxnAborting data → subscribed (rlisteners q) → server q = Some r →
  handle (OnTxnError rid) w
  = (Normal tt,
     setRecords (alter (addLoad (-1)) r)
       (setRequests (alter (completed "data" ∘ setPending NoOp) rid) w),
     [EmitMessage (RESOURCE_DATA (clientId q) (url q) (key q) data (type q))]).
Proof.
  intros Hp Hsub Hs. open_request_event Hq Hp.
  unfold txnError.
  erewrite emitRequest_data; [| apply finished_lookup | done | done].
  cbn. by rewrite setRequests_alter_twice.
Qed.

Lemma handle_txnAbort data :
  pending q = TxnOp data ∨ pending q = TxnAborting data →
  handle (OnTxnAbort rid) w
  = (Normal tt, setRequests (alter (setPending NoOp) rid) w, []).
Proof.
  intros [Hp|Hp]; open_request_event Hq Hp; done.
Qed.
End RequestEvents.

(** ** The invariant holds of every reachable world *)

Ltac idle_request_event Hq Hp :=
  unfold handle, requestCallback; js_unfold; cbn; rewrite Hq; cbn;
  rewrite ?Hp; cbn; assumption.

Ltac split_cases :=
  repeat match goal with
         | |- _ ∧ _ => split
         | |- ∀ _, _ => intro
         end.

Ltac terminate_with Hok Hq Hp :=
  let Hreq := fresh in
  pose proof (ok_requests _ Hok _ _ Hq) as Hreq;
  destruct Hreq as [(?r & ?x & ?Hs & ?Hx & ?Hu) ?Hsub].

Lemma world_ok_completed w rid q r event op :
  world_ok w → requests w !! rid = Some q →
  subscribed (rlisteners q) →
  world_ok (setRecords (alter (addLoad (-1)) r)
             (setRequests (alter (completed event ∘ setPending op) rid) w)).
Proof.
  intros Hok Hq Hsub.
  eapply world_ok_terminate; eauto.
  cbn. by apply subscribed_removeAllListeners.
Qed.

Lemma world_ok_pending w rid q op :
  world_ok w → requests w !! rid = Some q →
  world_ok (setRequests (alter (setPending op ∘ setPending NoOp) rid) w).
Proof.
  intros Hok Hq.
  destruct (ok_requests _ Hok _ _ Hq) as [_ Hsub].
  eapply world_ok_update; eauto.
Qed.

Lemma world_ok_finished w rid q :
  world_ok w → requests w !! rid = Some q →
  world_ok (setRequests (alter (setPending NoOp) rid) w).
Proof.
  intros Hok Hq.
  destruct (ok_requests _ Hok _ _ Hq) as [_ Hsub].
  eapply world_ok_update; eauto.
Qed.

Lemma request_event_ok w rid :
  world_ok w →
  (∀ result, world_ok (handle (OnGetSuccess rid result) w).1.2) ∧
  world_ok (handle (OnGetError rid) w).1.2 ∧
  (∀ info, world_ok (handle (OnXhrProgress rid info) w).1.2) ∧
  (∀ status statusText response total now,
     world_ok (handle (OnXhrLoad rid status statusText response total now) w).1.2) ∧
  (∀ statusText, world_ok (handle (OnXhrError rid statusText) w).1.2) ∧
  world_ok (handle (OnTxnComplete rid) w).1.2 ∧
  world_ok (handle (OnTxnError rid) w).1.2 ∧
  world_ok (handle (OnTxnAbort rid) w).1.2.
Proof.
  intros Hok.
  destruct (requests w !! rid) as [q|] eqn:Hq.
  2: { split_cases; idle_request_event Hq Hq. }
  destruct (pending q) as [| | |data|data] eqn:Hp.
  - split_cases; idle_request_event Hq Hp.
  - (* the cache lookup is outstanding *)
    terminate_with Hok Hq Hp.
    split_cases; try idle_request_event Hq Hp.
    + destruct (decide (result = VUndefined)) as [->|Hres].
      * rewrite (handle_getSuccess_miss w rid q Hq Hp). cbn.
        by eapply world_ok_pending.
      * rewrite (handle_getSuccess_hit w rid q Hq r result Hp Hsub Hs Hres). cbn.
        by eapply world_ok_completed.
    + rewrite (handle_getError w rid q Hq Hp). cbn.
      by eapply world_ok_pending.
  - (* the download is outstanding *)
    terminate_with Hok Hq Hp.
    split_cases; try idle_request_event Hq Hp.
    + rewrite (handle_xhrProgress w rid q Hq info Hp Hsub). cbn.
      eapply world_ok_update; eauto.
    + destruct (decide (200 ≤ status < 300)) as [Hstat|Hstat].
      * rewrite (handle_xhrLoad_ok w rid q Hq status statusText response
                   total now Hp Hstat).
        destruct (transactionOutcome w (store q)), (stores w !! store q); cbn;
          try by eapply world_ok_finished.
        by eapply world_ok_pending.
      * rewrite (handle_xhrLoad_fail w rid q Hq r status statusText response
                   total now Hp Hsub Hs Hstat). cbn.
        by eapply world_ok_completed.
    + rewrite (handle_xhrError w rid q Hq r statusText Hp Hsub Hs). cbn.
      by eapply world_ok_completed.
  - (* the cache write is outstanding *)
    terminate_with Hok Hq Hp.
    split_cases; try idle_request_event Hq Hp.
    + rewrite (handle_txnComplete w rid q Hq r data Hp Hsub Hs). cbn.
      by eapply world_ok_completed.
    + rewrite (handle_txnError w rid q Hq r data Hp Hsub Hs). cbn.
      by eapply world_ok_completed.
    + rewrite (handle_txnAbort w rid q Hq data (or_introl Hp)). cbn.
      by eapply world_ok_finished.
  - (* the cache write is being aborted *)
    terminate_with Hok Hq Hp.
    split_cases; try idle_request_event Hq Hp.
    + rewrite (handle_txnError_again w rid q Hq r data Hp Hsub Hs). cbn.
      by eapply world_ok_completed.
    + rewrite (handle_txnAbort w rid q Hq data (or_intror Hp)). cbn.
      by eapply world_ok_finished.
Qed.

(** ** What the operations of a data store compute *)

Section StoreRuns.
Context (w : World) (sid : nat) (st : DataStore).
Hypothesis Hst : stores w !! sid = Some st.
Hypothesis Hsub : ssubscribed (slisteners st).

Lemma emitStore_ready v :
  emitStore sid "ready" v w
  = (Normal tt,
     setDataStores <[name st := sid]>
       (setStores (alter (logSEmitted "ready") sid) w),
     [EmitMessage (CACHE_READY (name st))]).
Proof.
  destruct Hsub as (Hr & He & Hc).
  unfold emitStore. js_unfold. cbn. rewrite Hst. cbn. rewrite Hr. cbn.
  unfold handleDataStoreReady. js_unfold. cbn.
  rewrite !list_lookup_alter_eq, Hst. cbn. done.
Qed.

Lemma emitStore_error v :
  emitStore sid "error" v w
  = (Normal tt, setStores (alter (logSEmitted "error") sid) w,
     [EmitError v VUndefined]).
Proof.
  destruct Hsub as (Hr & He & Hc).
  unfold emitStore. js_unfold. cbn. rewrite Hst. cbn. rewrite He. cbn. done.
Qed.

Lemma emitStore_closing v :
  emitStore sid "closing" v w
  = (Normal tt,
     setDataStores (delete (name st))
       (setStores (alter (logSEmitted "closing") sid) w),
     []).
Proof.
  destruct Hsub as (Hr & He & Hc).
  unfold emitStore. js_unfold. cbn. rewrite Hst. cbn. rewrite Hc. cbn.
  unfold handleDataStoreClosing. js_unfold. cbn.
  rewrite !list_lookup_alter_eq, Hst. cbn. done.
Qed.
End StoreRuns.

Lemma close_run w sid st :
  stores w !! sid = Some st →
  ssubscribed (slisteners st) →
  close sid w
  = if ready st then
      (Normal tt,
       setDataStores (delete (name st)) (setStores (alter closed sid) w),
       match db st with Some _ => [IdbClose (name st)] | None => [] end)
    else (Normal tt, w, []).
Proof.
  intros Hst Hsub. unfold close. js_unfold. cbn. rewrite Hst. cbn.
  destruct (ready st) eqn:Hready; cbn; [|done].
  erewrite emitStore_closing;
    [| cbn; rewrite list_lookup_alter_eq, Hst; reflexivity | done].
  cbn. rewrite !list_lookup_alter_eq, Hst. cbn.
  unfold setDataStores, setStores. cbn.
  destruct (db st) as [d|] eqn:Hdb; cbn.
  - rewrite !alter_twice. do 3 f_equal.
    apply list_alter_ext; [|done]. intros x Hx.
    rewrite Hst in Hx. injection Hx as <-. unfold closed. by rewrite Hdb.
  - rewrite !alter_twice. do 3 f_equal.
    apply list_alter_ext; [|done]. intros x Hx.
    rewrite Hst in Hx. injection Hx as <-. unfold closed. by rewrite Hdb.
Qed.

Lemma createDataStore_run w n :
  createDataStore n w
  = match dataStores w !! n with
    | Some _ => (Normal tt, w, [])
    | None =>
        if inherited n then (Normal tt, w, [])
        else (Normal tt, setStores (λ h, h ++ [newStore n]) w,
              [IdbOpen n VERSION])
    end.
Proof.
  unfold createDataStore. js_unfold. cbn.
  destruct (dataStores w !! n); [done |]. cbn.
  destruct (inherited n); [done |]. cbn.
  unfold open. js_unfold. unfold setStores. cbn. rewrite !alter_snoc.
  rewrite list_lookup_middle by done. cbn.
  by rewrite alter_snoc.
Qed.

Lemma deleteDataStore_run w n :
  dataStores w !! n = None →
  deleteDataStore n w
  = if inherited n then (Throw TypeError, w, [])
    else (Normal tt, w, [IdbDeleteDatabase n]).
Proof.
  intros Hn. unfold deleteDataStore, deleteStore. js_unfold. cbn. rewrite Hn.
  by destruct (inherited n).
Qed.

Lemma deleteDataStore_close w n sid st :
  dataStores w !! n = Some sid →
  stores w !! sid = Some st →
  ssubscribed (slisteners st) →
  deleteDataStore n w
  = if ready st then
      (Normal tt,
       setDataStores (delete (name st)) (setStores (alter closed sid) w),
       match db st with Some _ => [IdbClose (name st)] | None => [] end
       ++ [IdbDeleteDatabase n])
    else (Normal tt, w, [IdbDeleteDatabase n]).
Proof.
  intros Hn Hst Hsub. unfold deleteDataStore, deleteStore.
  unfold mbind, Js_bind, bind at 1. unfold getWorld. cbn. rewrite Hn.
  unfold bind. rewrite (close_run w sid st Hst Hsub).
  destruct (ready st); cbn; done.
Qed.

(** ** What the callbacks of an opening data store compute *)

Ltac open_store_event Hst Hp :=
  unfold handle, storeCallback; js_unfold; cbn; rewrite Hst; cbn;
  rewrite Hp; cbn.

Section StoreEvents.
Context (w : World) (sid : nat) (st : DataStore).
Hypothesis Hst : stores w !! sid = Some st.
Hypothesis Hsub : ssubscribed (slisteners st).

Lemma handle_upgradeNeeded :
  spending st = OpenRequest →
  handle (OnUpgradeNeeded sid) w
  = (Normal tt, setStores (alter (setDb (Some (mkDb false))) sid) w,
     [IdbCreateObjectStore (name st) METADATA;
      IdbCreateObjectStore (name st) FILEDATA]).
Proof.
  intros Hp. open_store_event Hst Hp.
  unfold handleUpgrade, createStorageContainers. js_unfold. cbn.
  rewrite list_lookup_alter_eq, Hst. cbn. done.
Qed.

Lemma handle_openError err :
  spending st = OpenRequest →
  handle (OnOpenError sid err) w
  = (Normal tt,
     setStores (alter (logSEmitted "error" ∘ setSPending Idle) sid) w,
     [EmitError err VUndefined]).
Proof.
  intros Hp. open_store_event Hst Hp.
  unfold handleOpenError.
  erewrite emitStore_error;
    [| cbn; rewrite list_lookup_alter_eq, Hst; reflexivity | done].
  cbn. by rewrite setStores_alter_twice.
Qed.

Lemma handle_openSuccess_ready :
  spending st = OpenRequest →
  handle (OnOpenSuccess sid false) w
  = (Normal tt,
     setDataStores <[name st := sid]> (setStores (alter opened sid) w),
     [EmitMessage (CACHE_READY (name st))]).
Proof.
  intros Hp. open_store_event Hst Hp.
  unfold handleOpenSuccess. js_unfold. cbn.
  erewrite emitStore_ready;
    [| cbn; rewrite !list_lookup_alter_eq, Hst; reflexivity | done].
  cbn. unfold setDataStores, setStores. cbn. by rewrite !alter_twice.
Qed.

Lemma handle_openSuccess_legacy :
  spending st = OpenRequest →
  handle (OnOpenSuccess sid true) w
  = (Normal tt,
     setStores (alter (setSPending SetVersionRequest
                       ∘ setDb (Some (mkDb false)) ∘ setSPending Idle) sid) w,
     [IdbSetVersion (name st) VERSION]).
Proof.
  intros Hp. open_store_event Hst Hp.
  unfold handleOpenSuccess. js_unfold. cbn.
  rewrite !list_lookup_alter_eq, Hst. cbn.
  unfold setStores. cbn. by rewrite !alter_twice.
Qed.

Lemma handle_setVersionSuccess :
  spending st = SetVersionRequest →
  handle (OnSetVersionSuccess sid) w
  = (Normal tt,
     setStores (alter (setSPending VersionChangeTxn ∘ setSPending Idle) sid) w,
     [IdbCreateObjectStore (name st) METADATA;
      IdbCreateObjectStore (name st) FILEDATA]).
Proof.
  intros Hp. open_store_event Hst Hp.
  unfold setVersionSuccess, createStorageContainers. js_unfold. cbn.
  rewrite !list_lookup_alter_eq, Hst. cbn.
  unfold setStores. cbn. by rewrite !alter_twice.
Qed.

Lemma handle_setVersionError err :
  spending st = SetVersionRequest →
  handle (OnSetVersionError sid err) w
  = (Normal tt,
     setStores (alter (logSEmitted "error" ∘ setSPending Idle) sid) w,
     [EmitError err VUndefined]).
Proof.
  intros Hp. open_store_event Hst Hp.
  unfold setVersionError.
  erewrite emitStore_error;
    [| cbn; rewrite list_lookup_alter_eq, Hst; reflexivity | done].
  cbn. by rewrite setStores_alter_twice.
Qed.

Lemma handle_versionChangeComplete :
  spending st = VersionChangeTxn →
  handle (OnVersionChangeComplete sid) w
  = (Normal tt,
     setDataStores <[name st := sid]> (setStores (alter upgraded sid) w),
     [EmitMessage (CACHE_READY (name st))]).
Proof.
  intros Hp. open_store_event Hst Hp.
  unfold versionChangeComplete. js_unfold. cbn.
  erewrite emitStore_ready;
    [| cbn; rewrite !list_lookup_alter_eq, Hst; reflexivity | done].
  cbn. unfold setDataStores, setStores. cbn. by rewrite !alter_twice.
Qed.
End StoreEvents.

(** ** The invariant of the data stores *)

Lemma world_ok_stores_ok w : world_ok w → stores_ok w.
Proof.
  intros [_ Hst Hds Hnames].
  split; [exact Hst | split; [exact Hds | exact Hnames]].
Qed.

Lemma world_ok_from_stores w w' :
  world_ok w → records w' = records w → requests w' = requests w →
  stores_ok w' → world_ok w'.
Proof. intros Hok Hrec Hreq (Hst & Hds & Hnames). by eapply world_ok_stores. Qed.

Lemma stores_ok_alter w sid f :
  stores_ok w →
  (∀ st, name (f st) = name st ∧ slisteners (f st) = slisteners st) →
  stores_ok (setStores (alter f sid) w).
Proof.
  intros (Hst & Hds & Hnames) Hf. split; [| split]; cbn.
  - intros sid' st' Hst'. destruct (decide (sid' = sid)) as [->|Hne].
    + rewrite list_lookup_alter_eq in Hst'.
      destruct (stores w !! sid) as [st|] eqn:Hs; [|done]. injection Hst' as <-.
      destruct (Hf st) as [_ ->]. by eapply Hst.
    + rewrite list_lookup_alter_ne in Hst' by done. by eapply Hst.
  - intros n sid' Hn. destruct (Hds n sid' Hn) as (st & Hs & Hname).
    destruct (decide (sid' = sid)) as [->|Hne].
    + exists (f st). rewrite list_lookup_alter_eq, Hs. split; [done |].
      by destruct (Hf st) as [-> _].
    + exists st. by rewrite list_lookup_alter_ne.
  - intros sid' st' Hst'. destruct (decide (sid' = sid)) as [->|Hne].
    + rewrite list_lookup_alter_eq in Hst'.
      destruct (stores w !! sid) as [st|] eqn:Hs; [|done]. injection Hst' as <-.
      destruct (Hf st) as [-> _]. by eapply Hnames.
    + rewrite list_lookup_alter_ne in Hst' by done. by eapply Hnames.
Qed.

Lemma stores_ok_insert w sid st :
  stores_ok w → stores w !! sid = Some st →
  stores_ok (setDataStores <[name st := sid]> w).
Proof.
  intros (Hst & Hds & Hnames) Hs. split; [| split]; cbn; [done | | done].
  intros n sid' Hn. destruct (decide (name st = n)) as [<-|Hne].
  - rewrite lookup_insert_eq in Hn. injection Hn as <-. by exists st.
  - rewrite lookup_insert_ne in Hn by done. by apply Hds.
Qed.

Lemma stores_ok_delete w n :
  stores_ok w → stores_ok (setDataStores (delete n) w).
Proof.
  intros (Hst & Hds & Hnames). split; [| split]; cbn; [done | | done].
  intros n' sid Hn. apply lookup_delete_Some in Hn as [_ Hn]. by apply Hds.
Qed.

Lemma stores_ok_new w n :
  inherited n = false →
  stores_ok w → stores_ok (setStores (λ h, h ++ [newStore n]) w).
Proof.
  intros Hown (Hst & Hds & Hnames). split; [| split]; cbn.
  - intros sid st Hs. apply lookup_app_Some in Hs as [Hs|[_ Hs]].
    + by eapply Hst.
    + apply list_lookup_singleton_Some in Hs as [_ <-]. apply ssubscribed_on.
  - intros n' sid Hn. destruct (Hds n' sid Hn) as (st & Hs & Hname).
    exists st. split; [|done]. by apply lookup_app_l_Some.
  - intros sid st Hs. apply lookup_app_Some in Hs as [Hs|[_ Hs]].
    + by eapply Hnames.
    + by apply list_lookup_singleton_Some in Hs as [_ <-].
Qed.

Ltac idle_store_event Hst Hp :=
  unfold handle, storeCallback; js_unfold; cbn; rewrite Hst; cbn;
  rewrite ?Hp; cbn; assumption.

Ltac stores_ok_step :=
  first [ apply stores_ok_insert; [| cbn; rewrite list_lookup_alter_eq;
            match goal with H : stores _ !! _ = Some _ |- _ => rewrite H end;
            reflexivity ]
        | apply stores_ok_delete
        | apply stores_ok_alter; [| intros; split; reflexivity ]
        | by apply world_ok_stores_ok ].

Lemma store_event_ok w sid :
  world_ok w →
  world_ok (handle (OnUpgradeNeeded sid) w).1.2 ∧
  (∀ err, world_ok (handle (OnOpenError sid err) w).1.2) ∧
  (∀ legacy, world_ok (handle (OnOpenSuccess sid legacy) w).1.2) ∧
  world_ok (handle (OnSetVersionSuccess sid) w).1.2 ∧
  (∀ err, world_ok (handle (OnSetVersionError sid err) w).1.2) ∧
  world_ok (handle (OnVersionChangeComplete sid) w).1.2.
Proof.
  intros Hok.
  destruct (stores w !! sid) as [st|] eqn:Hst.
  2: { split_cases; idle_store_event Hst Hst. }
  pose proof (ok_stores _ Hok _ _ Hst) as Hsub.
  destruct (spending st) eqn:Hp.
  - split_cases; idle_store_event Hst Hp.
  - split_cases; try idle_store_event Hst Hp.
    + rewrite (handle_upgradeNeeded w sid st Hst Hp). cbn.
      eapply world_ok_from_stores; [done | done | done |]. repeat stores_ok_step.
    + rewrite (handle_openError w sid st Hst Hsub err Hp). cbn.
      eapply world_ok_from_stores; [done | done | done |]. repeat stores_ok_step.
    + destruct legacy.
      * rewrite (handle_openSuccess_legacy w sid st Hst Hp). cbn.
        eapply world_ok_from_stores; [done | done | done |]. repeat stores_ok_step.
      * rewrite (handle_openSuccess_ready w sid st Hst Hsub Hp). cbn.
        eapply world_ok_from_stores; [done | done | done |].
        change (name st) with (name (opened st)). repeat stores_ok_step.
  - split_cases; try idle_store_event Hst Hp.
    + rewrite (handle_setVersionSuccess w sid st Hst Hp). cbn.
      eapply world_ok_from_stores; [done | done | done |]. repeat stores_ok_step.
    + rewrite (handle_setVersionError w sid st Hst Hsub err Hp). cbn.
      eapply world_ok_from_stores; [done | done | done |]. repeat stores_ok_step.
  - split_cases; try idle_store_event Hst Hp.
    rewrite (handle_versionChangeComplete w sid st Hst Hsub Hp). cbn.
    eapply world_ok_from_stores; [done | done | done |].
    change (name st) with (name (upgraded st)). repeat stores_ok_step.
Qed.

(** ** What the registry computes *)

Lemma findLoop_pure url l w : ∃ c, findLoop url l w = (c, w, []).
Proof.
  induction l as [|r l IH]; cbn; [by eexists |].
  unfold getRecord. js_unfold. cbn.
  destruct (records w !! r) as [x|]; cbn; [|by eexists].
  destruct (decide (serverUrl x = url)); cbn; [by eexists |].
  destruct IH as [c ->]. by eexists.
Qed.

Lemma findContentServer_pure url w : ∃ c, findContentServer url w = (c, w, []).
Proof.
  unfold findContentServer. js_unfold. cbn.
  destruct (findLoop_pure url (contentServers w) w) as [c ->]. by eexists.
Qed.

Lemma chooseLoop_pure i minid l w : ∃ c, chooseLoop i minid l w = (c, w, []).
Proof.
  revert i minid. induction l as [|r l IH]; intros i minid; cbn; [by eexists |].
  unfold getRecord. js_unfold. cbn.
  destruct (records w !! r) as [x|]; cbn; [|by eexists].
  destruct (decide (loadValue x = 0)); cbn; [by eexists |].
  destruct (IH (S i) (if decide (loadValue x < Z.of_nat minid) then i else minid))
    as [c ->].
  by eexists.
Qed.

Lemma chooseContentServer_pure w : ∃ c, chooseContentServer w = (c, w, []).
Proof.
  unfold chooseContentServer. js_unfold. cbn.
  destruct (chooseLoop_pure 0 0 (contentServers w) w) as [c ->].
  destruct c as [[r|minid]|e]; cbn; try by eexists.
  destruct (decide (minid < length (contentServers w))%nat); by eexists.
Qed.

Lemma selectServer_pure p w : ∃ c, selectServer p w = (c, w, []).
Proof.
  unfold selectServer. js_unfold.
  destruct (truthy p) as [url|]; cbn.
  - destruct (findContentServer_pure url w) as [c ->].
    destruct c as [[r|]|e]; cbn; try by eexists.
    destruct (chooseContentServer_pure w) as [c ->]. by eexists.
  - destruct (chooseContentServer_pure w) as [c ->]. by eexists.
Qed.

Lemma addContentServer_run url w :
  (∃ c, addContentServer url w = (c, w, [])) ∨
  addContentServer url w
  = (Normal tt,
     setContentServers (λ l, l ++ [length (records w)])
       (setRecords (λ h, h ++ [mkServerRecord url 0]) w),
     []).
Proof.
  unfold addContentServer. js_unfold.
  destruct (findContentServer_pure url w) as [c ->].
  destruct c as [[r|]|e]; cbn; eauto.
Qed.

Lemma removeLoop_frame url i l w :
  ∃ c w', removeLoop url i l w = (c, w', []) ∧
    records w' = records w ∧ stores w' = stores w ∧
    requests w' = requests w ∧ dataStores w' = dataStores w.
Proof.
  revert i. induction l as [|r l IH]; intros i; cbn; [by eexists _, _ |].
  unfold getRecord. js_unfold. cbn.
  destruct (records w !! r) as [x|]; cbn; [|by eexists _, _].
  destruct (decide (serverUrl x = url)); cbn; [by eexists _, _ |].
  destruct (IH (S i)) as (c & w' & -> & H). by eexists _, _.
Qed.

Lemma removeContentServer_frame url w :
  ∃ c w', removeContentServer url w = (c, w', []) ∧
    records w' = records w ∧ stores w' = stores w ∧
    requests w' = requests w ∧ dataStores w' = dataStores w.
Proof.
  unfold removeContentServer. js_unfold. cbn.
  destruct (removeLoop_frame url 0 (contentServers w) w) as (c & w' & -> & H).
  by eexists _, _.
Qed.

(** ** What requestResource computes *)

Lemma readyStore_run w n sid st :
  dataStores w !! n = Some sid → stores w !! sid = Some st →
  readyStore (dataStores w !! n) w
  = (Normal (if ready st then Some sid else None), w, []).
Proof.
  intros Hn Hst. rewrite Hn. unfold readyStore. js_unfold. cbn. by rewrite Hst.
Qed.

Lemma requestResource_reject args w :
  readyStore (dataStores w !! cacheName args) w = (Normal None, w, []) →
  requestResource args w
  = (Normal None, w, [EmitError (notReady (cacheName args)) (requestId args)]).
Proof.
  intros Hr. unfold requestResource.
  unfold mbind, Js_bind, bind at 1. unfold getWorld.
  unfold bind at 1. rewrite Hr. done.
Qed.

(** The assignments requestResource and start make to the request they
    created, taken together. *)
Lemma dispatch_fused args w sid r url op :
  setRequests (alter (setPending op) (length (requests w)))
    (setRequests (alter (setStarted true) (length (requests w)))
      (setRecords (alter (addLoad 1) r)
        (setRequests
          (alter (setRListeners (Emitter.on "progress" HandleRequestProgress))
             (length (requests w)))
          (setRequests
            (alter (setRListeners (Emitter.on "error" HandleRequestError))
               (length (requests w)))
            (setRequests
              (alter (setRListeners (Emitter.on "data" HandleRequestData))
                 (length (requests w)))
              (setRequests
                (alter (setClientId (requestId args)) (length (requests w)))
                (setRequests
                  (alter (setServer (Some r)) (length (requests w)))
                  (setRequests
                    (λ h, h ++
                       [mkRequest (resourceName args)
                          (resourceUrl_of url (resourceName args))
                          (default "arraybuffer" (truthy (responseType args)))
                          sid false None VUndefined ∅ NoOp []])
                    w))))))))
  = dispatch r (newRequest args sid r url op) w.
Proof.
  unfold dispatch.
  change (setRequests ?g (setRequests ?f (setRecords ?a ?v)))
    with (setRecords a (setRequests g (setRequests f v))).
  f_equal. rewrite !setRequests_twice.
  unfold setRequests at 1 2. f_equal. cbn. by rewrite !alter_snoc.
Qed.

Lemma started_fused args w sid r url :
  setRequests (alter (setStarted true) (length (requests w)))
    (setRecords (alter (addLoad 1) r)
      (setRequests
        (alter (setRListeners (Emitter.on "progress" HandleRequestProgress))
           (length (requests w)))
        (setRequests
          (alter (setRListeners (Emitter.on "error" HandleRequestError))
             (length (requests w)))
          (setRequests
            (alter (setRListeners (Emitter.on "data" HandleRequestData))
               (length (requests w)))
            (setRequests
              (alter (setClientId (requestId args)) (length (requests w)))
              (setRequests
                (alter (setServer (Some r)) (length (requests w)))
                (setRequests
                  (λ h, h ++
                     [mkRequest (resourceName args)
                        (resourceUrl_of url (resourceName args))
                        (default "arraybuffer" (truthy (responseType args)))
                        sid false None VUndefined ∅ NoOp []])
                  w)))))))
  = dispatch r (newRequest args sid r url NoOp) w.
Proof.
  unfold dispatch.
  change (setRequests ?f (setRecords ?a ?v))
    with (setRecords a (setRequests f v)).
  f_equal. rewrite !setRequests_twice.
  unfold setRequests at 1 2. f_equal. cbn. by rewrite !alter_snoc.
Qed.

Lemma requestResource_run args w sid st r x :
  dataStores w !! cacheName args = Some sid →
  stores w !! sid = Some st →
  ready st = true →
  selectServer (preferredServer args) w = (Normal (Some r), w, []) →
  records w !! r = Some x →
  requestResource args w
  = if decide (returnCached args = Some false) then
      (Normal (Some (length (requests w))),
       dispatch r (newRequest args sid r (serverUrl x) XhrOp) w,
       [XhrSend "GET" (resourceUrl_of (serverUrl x) (resourceName args))
          (default "arraybuffer" (truthy (responseType args)))])
    else
      match transactionOutcome w sid with
      | None =>
          (Normal (Some (length (requests w))),
           dispatch r (newRequest args sid r (serverUrl x) GetOp) w,
           [IdbGet (name st) FILEDATA (resourceName args)])
      | Some e =>
          (Throw e, dispatch r (newRequest args sid r (serverUrl x) NoOp) w, [])
      end.
Proof.
  intros Hn Hst Hready Hsel Hx. unfold requestResource.
  unfold mbind, Js_bind, bind at 1. unfold getWorld.
  unfold bind at 1. rewrite (readyStore_run w _ sid st Hn Hst), Hready.
  unfold bind at 1. rewrite Hsel.
  unfold createRequest, start. js_unfold. cbn. rewrite Hx. cbn.
  rewrite !alter_snoc. cbn. rewrite list_lookup_middle by done. cbn.
  destruct (decide (returnCached args = Some false)) as [Hrc|Hrc]; cbn.
  - erewrite downloadData_run;
      [| cbn; rewrite !alter_snoc; apply list_lookup_middle; done ].
    cbn. by rewrite dispatch_fused.
  - erewrite queryDataStore_run;
      [| cbn; rewrite !alter_snoc; apply list_lookup_middle; done ].
    cbn. unfold transactionOutcome. cbn. rewrite Hst.
    destruct (db st) as [[[]]|]; cbn; by rewrite ?dispatch_fused, ?started_fused.
Qed.

Lemma requestResource_abort args w sid c :
  readyStore (dataStores w !! cacheName args) w = (Normal (Some sid), w, []) →
  selectServer (preferredServer args) w = (c, w, []) →
  (∀ r, c = Normal (Some r) → records w !! r = None) →
  requestResource args w
  = (Throw match c with Throw e => e | _ => TypeError end, w, []).
Proof.
  intros Hr Hsel Hc. unfold requestResource.
  unfold mbind, Js_bind, bind at 1. unfold getWorld.
  unfold bind at 1. rewrite Hr.
  unfold bind at 1. rewrite Hsel.
  destruct c as [[r|]|e]; cbn; try done.
  js_unfold. cbn. by rewrite (Hc r eq_refl).
Qed.

Lemma newRequest_dispatch_ok args w sid r x op :
  world_ok w → records w !! r = Some x →
  world_ok (dispatch r (newRequest args sid r (serverUrl x) op) w).
Proof.
  intros Hok Hx. eapply world_ok_dispatch; eauto. apply subscribed_on.
Qed.

Lemma requestResource_ok args w :
  world_ok w → world_ok (requestResource args w).1.2.
Proof.
  intros Hok.
  destruct (dataStores w !! cacheName args) as [sid|] eqn:Hn.
  - destruct (ok_dataStores _ Hok _ _ Hn) as (st & Hst & _).
    pose proof (readyStore_run w _ sid st Hn Hst) as Hr.
    destruct (ready st) eqn:Hready.
    + destruct (selectServer_pure (preferredServer args) w) as [c Hsel].
      assert ((∀ r, c = Normal (Some r) → records w !! r = None)
              ∨ ∃ r x, c = Normal (Some r) ∧ records w !! r = Some x) as [Hc|Hc].
      { destruct c as [[r|]|e]; [|by left..].
        destruct (records w !! r) as [x|] eqn:Hx; [right; eauto |].
        left. by intros r' [= <-]. }
      * by rewrite (requestResource_abort args w sid c Hr Hsel Hc).
      * destruct Hc as (r & x & -> & Hx).
        rewrite (requestResource_run args w sid st r x Hn Hst Hready Hsel Hx).
        destruct (decide (returnCached args = Some false));
          [| destruct (transactionOutcome w sid)]; cbn;
          by apply newRequest_dispatch_ok.
    + by rewrite (requestResource_reject args w Hr).
  - rewrite requestResource_reject; [done |]. by rewrite Hn.
Qed.

Lemma closed_name st : name (closed st) = name st.
Proof. unfold closed. by destruct (db st). Qed.

Lemma closed_slisteners st : slisteners (closed st) = slisteners st.
Proof. unfold closed. by destruct (db st). Qed.

Lemma deleteDataStore_ok n w :
  world_ok w → world_ok (deleteDataStore n w).1.2.
Proof.
  intros Hok.
  destruct (dataStores w !! n) as [sid|] eqn:Hn.
  - destruct (ok_dataStores _ Hok _ _ Hn) as (st & Hst & _).
    pose proof (ok_stores _ Hok _ _ Hst) as Hsub.
    rewrite (deleteDataStore_close w n sid st Hn Hst Hsub).
    destruct (ready st); cbn; [|done].
    eapply world_ok_from_stores; [done | done | done |].
    apply stores_ok_delete. apply stores_ok_alter.
    + by apply world_ok_stores_ok.
    + intros st'. by rewrite closed_name, closed_slisteners.
  - rewrite (deleteDataStore_run w n Hn). by destruct (inherited n).
Qed.

Lemma createDataStore_ok n w :
  world_ok w → world_ok (createDataStore n w).1.2.
Proof.
  intros Hok. rewrite createDataStore_run.
  destruct (dataStores w !! n); cbn; [done |].
  destruct (inherited n) eqn:Hown; cbn; [done |].
  eapply world_ok_from_stores; [done | done | done |].
  apply stores_ok_new; [done |]. by apply world_ok_stores_ok.
Qed.

Lemma addContentServer_ok url w :
  world_ok w → world_ok (addContentServer url w).1.2.
Proof.
  intros Hok. destruct (addContentServer_run url w) as [[c ->]| ->]; cbn; [done |].
  by apply world_ok_register.
Qed.

Lemma removeContentServer_ok url w :
  world_ok w → world_ok (removeContentServer url w).1.2.
Proof.
  intros Hok.
  destruct (removeContentServer_frame url w)
    as (c & w' & -> & Hrec & Hst & Hreq & Hds).
  cbn. eapply world_ok_from_stores; [done | done | done |].
  destruct (world_ok_stores_ok w Hok) as [H1 H2].
  split; rewrite ?Hst, ?Hds; done.
Qed.

Lemma step_world e w : (step e w).1 = (handle e w).1.2.
Proof. unfold step. by destruct (handle e w) as [[[]]]. Qed.

Lemma handle_ok e w : world_ok w → world_ok (handle e w).1.2.
Proof.
  intros Hok.
  destruct e as [u|u|n|n|args|sid|sid err|sid legacy|sid|sid err|sid|rid result|rid|rid info|rid status statusText response total now|rid statusText|rid|rid|rid].
  - by apply addContentServer_ok.
  - by apply removeContentServer_ok.
  - by apply createDataStore_ok.
  - by apply deleteDataStore_ok.
  - pose proof (requestResource_ok args w Hok) as H.
    cbn. js_unfold. destruct (requestResource args w) as [[[]]]; exact H.
  - by apply (store_event_ok w sid Hok).
  - by apply (store_event_ok w sid Hok).
  - by apply (store_event_ok w sid Hok).
  - by apply (store_event_ok w sid Hok).
  - by apply (store_event_ok w sid Hok).
  - by apply (store_event_ok w sid Hok).
  - by apply (request_event_ok w rid Hok).
  - by apply (request_event_ok w rid Hok).
  - by apply (request_event_ok w rid Hok).
  - by apply (request_event_ok w rid Hok).
  - by apply (request_event_ok w rid Hok).
  - by apply (request_event_ok w rid Hok).
  - by apply (request_event_ok w rid Hok).
  - by apply (request_event_ok w rid Hok).
Qed.

Lemma step_ok e w : world_ok w → world_ok (step e w).1.
Proof. rewrite step_world. apply handle_ok. Qed.

Lemma after_cons e events w :
  after (e :: events) w = after events (step e w).1.
Proof.
  unfold after. cbn. destruct (step e w) as [w1 o1]. cbn.
  by destruct (run events w1).
Qed.

Lemma after_app events1 events2 w :
  after (events1 ++ events2) w = after events2 (after events1 w).
Proof.
  revert w. induction events1 as [|e l IH]; intros w; [done |].
  cbn [app]. by rewrite !after_cons, IH.
Qed.

Lemma after_ok events w : world_ok w → world_ok (after events w).
Proof.
  revert w. induction events as [|e l IH]; intros w Hok; [done |].
  rewrite after_cons. apply IH. by apply step_ok.
Qed.

Lemma emptyWorld_ok : world_ok emptyWorld.
Proof. split; cbn; intros *; by rewrite ?lookup_nil, ?lookup_empty. Qed.

Lemma newContentServer_ok : world_ok newContentServer.
Proof.
  change newContentServer
    with (setContentServers (λ l, l ++ [0%nat])
            (setRecords (λ h, h ++ [mkServerRecord "" 0]) emptyWorld)).
  apply world_ok_register, emptyWorld_ok.
Qed.

Lemma reachable_ok w : reachable w → world_ok w.
Proof. intros [events <-]. apply after_ok, newContentServer_ok. Qed.

(** * The choice of a content server *)

(** When every registered server has a load above zero the loop leaves
    [minid] at 0: a load is never below index 0. *)
Lemma chooseLoop_busy l i w :
  (∀ r, r ∈ l → ∃ x, records w !! r = Some x ∧ 0 < loadValue x) →
  chooseLoop i 0 l w = (Normal (inr 0%nat), w, []).
Proof.
  revert i. induction l as [|r l IH]; intros i Hl; [done |].
  destruct (Hl r) as (x & Hx & Hpos); [by left |].
  cbn. unfold getRecord. js_unfold. cbn. rewrite Hx. cbn.
  rewrite decide_False by lia. rewrite decide_False by lia.
  rewrite IH; [done |]. intros r' Hr'. apply Hl. by right.
Qed.

(** The loop returns the first registered server whose load is zero. *)
Lemma chooseLoop_idle busy r rest i minid w x :
  (∀ r', r' ∈ busy → ∃ x', records w !! r' = Some x' ∧ 0 < loadValue x') →
  records w !! r = Some x → loadValue x = 0 →
  minid = 0%nat →
  chooseLoop i minid (busy ++ r :: rest) w = (Normal (inl r), w, []).
Proof.
  intros Hbusy Hx Hzero ->. revert i.
  induction busy as [|r' l IH]; intros i.
  - cbn. unfold getRecord. js_unfold. cbn. rewrite Hx. cbn.
    by rewrite decide_True.
  - destruct (Hbusy r') as (x' & Hx' & Hpos); [by left |].
    cbn. unfold getRecord. js_unfold. cbn. rewrite Hx'. cbn.
    rewrite decide_False by lia. rewrite decide_False by lia.
    rewrite IH; [done |]. intros r'' Hr''. apply Hbusy. by right.
Qed.

(** With no idle server the choice is the first registered server,
    whatever the loads are. *)
Lemma chooseContentServer_busy w r rest :
  contentServers w = r :: rest →
  (∀ r', r' ∈ r :: rest → ∃ x, records w !! r' = Some x ∧ 0 < loadValue x) →
  chooseContentServer w = (Normal (Some r), w, []).
Proof.
  intros Hcs Hl. unfold chooseContentServer. js_unfold. cbn. rewrite Hcs.
  rewrite chooseLoop_busy by done. cbn. done.
Qed.

(** With an idle server the choice is the first idle one. *)
Lemma chooseContentServer_idle w busy r rest x :
  contentServers w = busy ++ r :: rest →
  (∀ r', r' ∈ busy → ∃ x', records w !! r' = Some x' ∧ 0 < loadValue x') →
  records w !! r = Some x → loadValue x = 0 →
  chooseContentServer w = (Normal (Some r), w, []).
Proof.
  intros Hcs Hbusy Hx Hzero. unfold chooseContentServer. js_unfold. cbn.
  rewrite Hcs. by erewrite chooseLoop_idle.
Qed.

(** C1 (the code at an input where the claim fails): servers A and B are
    registered in this order, A carries two requests and B one. The
    claim has the request go to B, the server of minimal load; the choice
    of chooseContentServer is A, the first registered server. *)
Theorem C1_choice_is_not_least_loaded :
  let w := after Scenario.busy newContentServer in
  reachable w ∧
  contentServers w = [1; 2]%nat ∧
  records w !! 1%nat = Some (mkServerRecord "A" 2) ∧
  records w !! 2%nat = Some (mkServerRecord "B" 1) ∧
  chooseContentServer w = (Normal (Some 1%nat), w, []).
Proof.
  cbv zeta. split; [by exists Scenario.busy |].
  vm_compute. repeat split; reflexivity.
Qed.

(** * Requests the content server does not dispatch *)

(** C5: a request that names a cache the server does not know, or one
    whose data store is not ready, makes the server emit one error with
    the caller's request id and nothing else: the world is left as it
    was, so no server is chosen, no load changes and no request is made. *)
Theorem C5_unusable_cache_is_rejected (w : World) (args : Args)
  (Hcache : dataStores w !! cacheName args = None ∨
            ∃ sid st, dataStores w !! cacheName args = Some sid ∧
                      stores w !! sid = Some st ∧ ready st = false) :
  requestResource args w
  = (Normal None, w, [EmitError (notReady (cacheName args)) (requestId args)]) ∧
  step (RequestResource args) w
  = (w, [EmitError (notReady (cacheName args)) (requestId args)]).
Proof.
  assert (readyStore (dataStores w !! cacheName args) w = (Normal None, w, []))
    as Hr.
  { destruct Hcache as [Hn|(sid & st & Hn & Hst & Hready)].
    - by rewrite Hn.
    - by rewrite (readyStore_run w _ sid st Hn Hst), Hready. }
  pose proof (requestResource_reject args w Hr) as Hrun.
  split; [done |].
  unfold step. cbn. js_unfold. by rewrite Hrun.
Qed.

Lemma C5_witness :
  let w := after [OpenCache "assets"] newContentServer in
  dataStores w !! "assets" = None ∧
  step (RequestResource (Scenario.get "x.bin")) w
  = (w, [EmitError (VString "Cache assets is not ready.") (VNumber 1)]).
Proof.
  cbv zeta. split; [by vm_compute |].
  apply (C5_unusable_cache_is_rejected
           (after [OpenCache "assets"] newContentServer) (Scenario.get "x.bin")).
  left. by vm_compute.
Defined.

Lemma selectServer_none p w :
  contentServers w = [] → selectServer p w = (Normal None, w, []).
Proof.
  intros Hcs. unfold selectServer, findContentServer, chooseContentServer.
  js_unfold. destruct (truthy p); repeat (progress (cbn; rewrite ?Hcs)); done.
Qed.

(** C6 (the code at an input where the claim fails): with a ready cache
    and no registered server, chooseContentServer returns null and
    requestResource reads [serverUrl] of it. The call ends in a TypeError
    that nothing catches; no error event is emitted for the request. *)
Theorem C6_no_server_throws (w : World) (args : Args) (sid : nat) (st : DataStore)
  (Hcache : dataStores w !! cacheName args = Some sid)
  (Hstore : stores w !! sid = Some st)
  (Hready : ready st = true)
  (Hempty : contentServers w = []) :
  chooseContentServer w = (Normal None, w, []) ∧
  requestResource args w = (Throw TypeError, w, []) ∧
  step (RequestResource args) w = (w, [Uncaught TypeError]).
Proof.
  assert (requestResource args w = (Throw TypeError, w, [])) as Hrun.
  { apply (requestResource_abort args w sid (Normal None)).
    - by rewrite (readyStore_run w _ sid st Hcache Hstore), Hready.
    - by apply selectServer_none.
    - done. }
  repeat split; [| done |].
  - unfold chooseContentServer. js_unfold. cbn. by rewrite Hempty.
  - unfold step. cbn. js_unfold. by rewrite Hrun.
Qed.

Lemma C6_witness :
  let w := after Scenario.noServer newContentServer in
  contentServers w = [] ∧
  step (RequestResource (Scenario.get "x.bin")) w = (w, [Uncaught TypeError]).
Proof.
  cbv zeta. split; [by vm_compute |].
  eapply (C6_no_server_throws
            (after Scenario.noServer newContentServer) (Scenario.get "x.bin")
            0%nat); by vm_compute.
Defined.

(** * The URL of a download *)

(** C9 (as the claim states it, at an input where it fails): the request
    for "x.bin" from the server the constructor registers, whose URL is
    the empty string, is sent to "x.bin" and not to "/x.bin". *)
Lemma C9_counterexample :
  (step (RequestResource (Scenario.fetch "x.bin"))
        (after Scenario.cacheReady newContentServer)).2
  = [XhrSend "GET" "x.bin" "arraybuffer"] ∧
  "x.bin" ≠ ("" +:+ "/") +:+ "x.bin".
Proof. split; by vm_compute. Qed.


(** * The life of a request *)

Lemma reachable_after events w : reachable w → reachable (after events w).
Proof. intros [events0 <-]. exists (events0 ++ events). apply after_app. Qed.

Lemma reachable_step e w : reachable w → reachable (step e w).1.
Proof.
  intros H. apply (reachable_after [e]) in H.
  by rewrite after_cons in H.
Qed.

(** A download that ends with a status in the 200 range leaves its
    response with the cache write it starts. *)
Lemma caching_keeps_the_download w rid q status statusText response total now :
  requests w !! rid = Some q → pending q = XhrOp → 200 ≤ status < 300 →
  transactionOutcome w (store q) = None →
  ∃ q', requests (step (OnXhrLoad rid status statusText response total now) w).1
          !! rid = Some q' ∧
        pending q' = TxnOp response ∧ emitted q' = emitted q.
Proof.
  intros Hq Hp Hstat Hopen. rewrite step_world.
  rewrite (handle_xhrLoad_ok w rid q Hq status statusText response total now
             Hp Hstat), Hopen.
  unfold transactionOutcome in Hopen.
  destruct (stores w !! store q) as [st|]; [|done]. cbn.
  rewrite list_lookup_alter_eq, Hq. cbn. by eexists.
Qed.

(** What a terminal step leaves of the request. *)
Lemma completed_lookup w rid q r event :
  requests w !! rid = Some q →
  ∃ q', requests (setRecords (alter (addLoad (-1)) r)
                    (setRequests (alter (completed event ∘ setPending NoOp) rid) w))
          !! rid = Some q' ∧
        pending q' = NoOp ∧ emitted q' = emitted q ++ [event] ∧
        rlisteners q' = Emitter.removeAllListeners None (rlisteners q).
Proof.
  intros Hq. cbn. rewrite list_lookup_alter_eq, Hq. cbn. by eexists.
Qed.



(** * The load of a content server *)


(** * Subscriptions after the terminal event *)

(** C7 (the code at an input where the claim fails): a request that has
    emitted its terminal event still has the three subscriptions
    requestResource made. The handlers call removeAllListeners without an
    event name, which clears the slot named "undefined" and no other; an
    event the request emits afterwards still reaches the content server,
    as "progress" does here. *)
Theorem C7_listeners_stay_attached (w : World) (rid : nat) (q : ResourceRequest)
  (info : Value)
  (Hreach : reachable w)
  (Hrequest : requests w !! rid = Some q)
  (Hover : terminals (emitted q) = 1%nat) :
  Emitter.receivers (rlisteners q) "data" = [HandleRequestData] ∧
  Emitter.receivers (rlisteners q) "error" = [HandleRequestError] ∧
  Emitter.receivers (rlisteners q) "progress" = [HandleRequestProgress] ∧
  (emitRequest rid "progress" info w).2
  = [EmitMessage (PROGRESS (clientId q)
       match info with
       | VProgressEvent true loaded total => Computed loaded total
       | _ => Fixed 99
       end)].
Proof.
  pose proof (reachable_ok w Hreach) as Hok.
  destruct (ok_requests _ Hok _ _ Hrequest) as [_ Hsub].
  destruct Hsub as (Hd & He & Hp). repeat split; try done.
  by rewrite (emitRequest_progress w rid q info Hrequest).
Qed.

Lemma C7_witness :
  let w := after Scenario.cacheHit newContentServer in
  reachable w ∧
  (∃ q, requests w !! 0%nat = Some q ∧ emitted q = ["data"] ∧
        Emitter.receivers (rlisteners q) "progress" = [HandleRequestProgress]) ∧
  (emitRequest 0 "progress" VUndefined w).2
  = [EmitMessage (PROGRESS (VNumber 1) (Fixed 99))].
Proof.
  cbv zeta.
  assert (reachable (after Scenario.cacheHit newContentServer)) as Hreach
    by (by eexists).
  split; [exact Hreach |].
  edestruct C7_listeners_stay_attached
    with (w := after Scenario.cacheHit newContentServer) (rid := 0%nat)
         (info := VUndefined) as (_ & _ & Hp & Hout);
    [exact Hreach | vm_compute; reflexivity | vm_compute; reflexivity |].
  split.
  - eexists. split; [vm_compute; reflexivity |]. split; [reflexivity | exact Hp].
  - etrans; [exact Hout | by vm_compute].
Defined.

(** * A cache deleted under a download *)

(** C8 (the code at an input where the claim fails): deleteDataStore on a
    ready store removes the entry of the map at once and closes the
    connection. When the download of a request bound to that store then
    ends with a status in the 200 range, cacheData asks the closed
    connection for a transaction, which throws. Nothing catches the
    exception: the request emits no event and has no operation left, so it
    never completes, and the load of its server stays as it is. *)
Theorem C8_delete_while_downloading (w : World) (n : string) (sid : nat)
  (st : DataStore) (rid : nat) (q : ResourceRequest)
  (status : Z) (statusText : string) (response : Value) (total now : Z)
  (Hreach : reachable w)
  (Hcache : dataStores w !! n = Some sid)
  (Hstore : stores w !! sid = Some st)
  (Hready : ready st = true)
  (Hdb : is_Some (db st))
  (Hrequest : requests w !! rid = Some q)
  (Hbound : store q = sid)
  (Hdownloading : pending q = XhrOp)
  (Hstatus : 200 ≤ status < 300) :
  dataStores (step (DeleteCache n) w).1 !! n = None ∧
  (step (OnXhrLoad rid status statusText response total now)
        (step (DeleteCache n) w).1).2
  = [Uncaught InvalidStateError] ∧
  records (after [DeleteCache n;
                  OnXhrLoad rid status statusText response total now] w)
  = records w ∧
  ∃ q', requests (after [DeleteCache n;
                         OnXhrLoad rid status statusText response total now] w)
          !! rid = Some q' ∧
        pending q' = NoOp ∧ emitted q' = emitted q.
Proof.
  pose proof (reachable_ok w Hreach) as Hok.
  pose proof (ok_stores _ Hok _ _ Hstore) as Hsub.
  destruct (ok_dataStores _ Hok _ _ Hcache) as (st' & Hst' & Hname).
  rewrite Hstore in Hst'. injection Hst' as <-.
  rewrite !after_cons. change (after [] ?v) with v.
  rewrite (step_world (DeleteCache n)). cbn [handle].
  rewrite (deleteDataStore_close w n sid st Hcache Hstore Hsub), Hready.
  cbn [fst snd].
  set (w1 := setDataStores (delete (name st)) (setStores (alter closed sid) w)).
  assert (requests w1 !! rid = Some q) as Hq1 by done.
  assert (transactionOutcome w1 (store q) = Some InvalidStateError) as Hthrow.
  { unfold transactionOutcome, w1. cbn. rewrite Hbound.
    rewrite list_lookup_alter_eq, Hstore. cbn.
    unfold closed. destruct Hdb as [d ->]. done. }
  pose proof (handle_xhrLoad_ok w1 rid q Hq1 status statusText response total now
                Hdownloading Hstatus) as Hrun.
  rewrite Hthrow in Hrun.
  repeat split.
  - unfold w1. cbn. rewrite Hname. apply lookup_delete_eq.
  - unfold step. by rewrite Hrun.
  - rewrite step_world, Hrun. done.
  - rewrite step_world, Hrun. cbn. rewrite list_lookup_alter_eq, Hrequest.
    cbn. by eexists.
Qed.

Lemma C8_witness :
  let w := after Scenario.downloading newContentServer in
  reachable w ∧
  outputs [DeleteCache "assets"; OnXhrLoad 0 200 "OK" (VString "bytes") 5 1000] w
  = [IdbClose "assets"; IdbDeleteDatabase "assets"; Uncaught InvalidStateError] ∧
  (step (OnXhrLoad 0 200 "OK" (VString "bytes") 5 1000)
        (step (DeleteCache "assets") w).1).2
  = [Uncaught InvalidStateError].
Proof.
  cbv zeta.
  assert (reachable (after Scenario.downloading newContentServer)) as Hreach
    by (by eexists).
  split; [exact Hreach |]. split; [by vm_compute |].
  edestruct C8_delete_while_downloading
    with (w := after Scenario.downloading newContentServer) (n := "assets")
         (sid := 0%nat) (rid := 0%nat) (status := 200) (statusText := "OK")
         (response := VString "bytes") (total := 5) (now := 1000)
    as (_ & Hout & _);
    [exact Hreach | vm_compute; reflexivity | vm_compute; reflexivity
     | vm_compute; reflexivity | vm_compute; by eexists
     | vm_compute; reflexivity | vm_compute; reflexivity
     | vm_compute; reflexivity | lia |].
  exact Hout.
Defined.

(** * The map of data stores *)

Arguments tagged : simpl never.

Ltac solve_tagged :=
  let o := fresh "o" in
  let id := fresh "id" in
  let Ho := fresh "Ho" in
  let Hid := fresh "Hid" in
  intros o id Ho Hid;
  repeat (apply elem_of_cons in Ho as [->|Ho]; [cbn in Hid; congruence |]);
  by apply elem_of_nil in Ho.

Ltac solve_keeps :=
  intros ?; split; cbn; try reflexivity;
  first [ by (exists []; rewrite app_nil_r) | by eexists ].

Lemma keeps_pending op : keeps (setPending op ∘ setPending NoOp).
Proof. solve_keeps. Qed.

Lemma keeps_completed event op : keeps (completed event ∘ setPending op).
Proof. solve_keeps. Qed.

Lemma keeps_finished : keeps (setPending NoOp).
Proof. solve_keeps. Qed.

Lemma keeps_progress : keeps (logEmitted "progress").
Proof. solve_keeps. Qed.

(** What a callback of request [rid] does. It does nothing when the
    platform has no such event for the operation of the request. Else
    the operation is outstanding, and the callback changes the request,
    keeping what it is, and with a terminal event releases the server of
    the request; every notification it sends carries the id of the
    request. *)
Lemma request_event_runs (P : Completion unit * World * list Output → Prop)
  w rid :
  world_ok w →
  P (Normal tt, w, []) →
  (∀ q c f o, requests w !! rid = Some q → pending q ≠ NoOp → keeps f →
              tagged (clientId q) o →
              P (c, setRequests (alter f rid) w, o)) →
  (∀ q r f o, requests w !! rid = Some q → pending q ≠ NoOp →
              server q = Some r → keeps f → tagged (clientId q) o →
              P (Normal tt,
                 setRecords (alter (addLoad (-1)) r)
                   (setRequests (alter f rid) w), o)) →
  (∀ result, P (handle (OnGetSuccess rid result) w)) ∧
  P (handle (OnGetError rid) w) ∧
  (∀ info, P (handle (OnXhrProgress rid info) w)) ∧
  (∀ status statusText response total now,
     P (handle (OnXhrLoad rid status statusText response total now) w)) ∧
  (∀ statusText, P (handle (OnXhrError rid statusText) w)) ∧
  P (handle (OnTxnComplete rid) w) ∧
  P (handle (OnTxnError rid) w) ∧
  P (handle (OnTxnAbort rid) w).
Proof.
  intros Hok HP0 HP1 HP2.
  destruct (requests w !! rid) as [q|] eqn:Hq.
  2: { split_cases; idle_request_event Hq Hq. }
  destruct (pending q) as [| | |data|data] eqn:Hp.
  - split_cases; idle_request_event Hq Hp.
  - terminate_with Hok Hq Hp.
    assert (pending q ≠ NoOp) as Hbusy by (by rewrite Hp).
    split_cases; try idle_request_event Hq Hp.
    + destruct (decide (result = VUndefined)) as [->|Hres].
      * rewrite (handle_getSuccess_miss w rid q Hq Hp).
        apply (HP1 q); [done | done | apply keeps_pending | solve_tagged].
      * rewrite (handle_getSuccess_hit w rid q Hq r result Hp Hsub Hs Hres).
        apply (HP2 q);
          [done | done | done | apply keeps_completed | solve_tagged].
    + rewrite (handle_getError w rid q Hq Hp).
      apply (HP1 q); [done | done | apply keeps_pending | solve_tagged].
  - terminate_with Hok Hq Hp.
    assert (pending q ≠ NoOp) as Hbusy by (by rewrite Hp).
    split_cases; try idle_request_event Hq Hp.
    + rewrite (handle_xhrProgress w rid q Hq info Hp Hsub).
      apply (HP1 q); [done | done | apply keeps_progress | solve_tagged].
    + destruct (decide (200 ≤ status < 300)) as [Hstat|Hstat].
      * rewrite (handle_xhrLoad_ok w rid q Hq status statusText response
                   total now Hp Hstat).
        destruct (transactionOutcome w (store q)), (stores w !! store q);
          (apply (HP1 q);
           [done | done
            | first [apply keeps_finished | apply keeps_pending]
            | solve_tagged]).
      * rewrite (handle_xhrLoad_fail w rid q Hq r status statusText response
                   total now Hp Hsub Hs Hstat).
        apply (HP2 q);
          [done | done | done | apply keeps_completed | solve_tagged].
    + rewrite (handle_xhrError w rid q Hq r statusText Hp Hsub Hs).
      apply (HP2 q);
        [done | done | done | apply keeps_completed | solve_tagged].
  - terminate_with Hok Hq Hp.
    assert (pending q ≠ NoOp) as Hbusy by (by rewrite Hp).
    split_cases; try idle_request_event Hq Hp.
    + rewrite (handle_txnComplete w rid q Hq r data Hp Hsub Hs).
      apply (HP2 q);
        [done | done | done | apply keeps_completed | solve_tagged].
    + rewrite (handle_txnError w rid q Hq r data Hp Hsub Hs).
      apply (HP2 q);
        [done | done | done | apply keeps_completed | solve_tagged].
    + rewrite (handle_txnAbort w rid q Hq data (or_introl Hp)).
      apply (HP1 q); [done | done | apply keeps_finished | solve_tagged].
  - terminate_with Hok Hq Hp.
    assert (pending q ≠ NoOp) as Hbusy by (by rewrite Hp).
    split_cases; try idle_request_event Hq Hp.
    + rewrite (handle_txnError_again w rid q Hq r data Hp Hsub Hs).
      apply (HP2 q);
        [done | done | done | apply keeps_completed | solve_tagged].
    + rewrite (handle_txnAbort w rid q Hq data (or_intror Hp)).
      apply (HP1 q); [done | done | apply keeps_finished | solve_tagged].
Qed.

(** The same for every event of a request. *)
Lemma request_event_run (P : Completion unit * World * list Output → Prop)
  e w rid :
  world_ok w → eventRequest e = Some rid →
  P (Normal tt, w, []) →
  (∀ q c f o, requests w !! rid = Some q → pending q ≠ NoOp → keeps f →
              tagged (clientId q) o →
              P (c, setRequests (alter f rid) w, o)) →
  (∀ q r f o, requests w !! rid = Some q → pending q ≠ NoOp →
              server q = Some r → keeps f → tagged (clientId q) o →
              P (Normal tt,
                 setRecords (alter (addLoad (-1)) r)
                   (setRequests (alter f rid) w), o)) →
  P (handle e w).
Proof.
  intros Hok He HP0 HP1 HP2.
  destruct e; try discriminate; injection He as ->;
    by apply (request_event_runs P w rid Hok HP0 HP1 HP2).
Qed.

(** A callback of a request leaves the world as it is, changes the
    request, or changes the request and the record of its server. *)
Lemma request_event_cases (P : World → Prop) e w rid :
  world_ok w → eventRequest e = Some rid →
  P w →
  (∀ f, P (setRequests (alter f rid) w)) →
  (∀ f r, P (setRecords (alter (addLoad (-1)) r) (setRequests (alter f rid) w))) →
  P (handle e w).1.2.
Proof.
  intros Hok He HP0 HP1 HP2.
  apply (request_event_run (λ t, P t.1.2) e w rid Hok He); cbn; auto.
Qed.

Lemma requestResource_frame args w :
  world_ok w →
  stores (requestResource args w).1.2 = stores w ∧
  dataStores (requestResource args w).1.2 = dataStores w.
Proof.
  intros Hok.
  destruct (dataStores w !! cacheName args) as [sid|] eqn:Hn.
  - destruct (ok_dataStores _ Hok _ _ Hn) as (st & Hst & _).
    pose proof (readyStore_run w _ sid st Hn Hst) as Hr.
    destruct (ready st) eqn:Hready.
    + destruct (selectServer_pure (preferredServer args) w) as [c Hsel].
      assert ((∀ r, c = Normal (Some r) → records w !! r = None)
              ∨ ∃ r x, c = Normal (Some r) ∧ records w !! r = Some x) as [Hc|Hc].
      { destruct c as [[r|]|e]; [|by left..].
        destruct (records w !! r) as [x|] eqn:Hx; [right; eauto |].
        left. by intros r' [= <-]. }
      * by rewrite (requestResource_abort args w sid c Hr Hsel Hc).
      * destruct Hc as (r & x & -> & Hx).
        rewrite (requestResource_run args w sid st r x Hn Hst Hready Hsel Hx).
        destruct (decide (returnCached args = Some false));
          [| destruct (transactionOutcome w sid)]; done.
    + by rewrite (requestResource_reject args w Hr).
  - rewrite requestResource_reject; [done |]. by rewrite Hn.
Qed.



Lemma outputs_cons e events w :
  outputs (e :: events) w = (step e w).2 ++ outputs events (step e w).1.
Proof.
  unfold outputs. cbn. destruct (step e w) as [w1 o1]. cbn.
  by destruct (run events w1).
Qed.

Lemma step_openCache w n :
  dataStores w !! n = None → inherited n = false →
  step (OpenCache n) w
  = (setStores (λ h, h ++ [newStore n]) w, [IdbOpen n VERSION]).
Proof.
  intros Hn Hown. unfold step. cbn [handle].
  by rewrite createDataStore_run, Hn, Hown.
Qed.


(** * Listeners that are removed *)

Section ListenerFacts.
Import Listener.
Implicit Types (ls : Emitter.Listeners Fn) (f : Fn) (l : list Fn).

Lemma indexOfFrom_absent f l i : f ∉ l → indexOfFrom f l i = -1.
Proof.
  revert i. induction l as [|x l IH]; intros i Hf; [done |].
  cbn. rewrite decide_False by (intros ->; apply Hf; by left).
  apply IH. intros H. apply Hf. by right.
Qed.

Lemma indexOfFrom_first f pre post i :
  f ∉ pre → indexOfFrom f (pre ++ f :: post) i = i + Z.of_nat (length pre).
Proof.
  revert i. induction pre as [|x pre IH]; intros i Hf; cbn.
  - rewrite decide_True by done. lia.
  - rewrite decide_False by (intros ->; apply Hf; by left).
    rewrite IH by (intros H; apply Hf; by right). lia.
Qed.

Lemma splice1_found pre f post :
  splice1 (Z.of_nat (length pre)) (pre ++ f :: post) = pre ++ post.
Proof.
  unfold splice1. rewrite decide_False by lia.
  rewrite length_app. cbn [length].
  rewrite Z.min_l by lia. rewrite Nat2Z.id.
  apply delete_middle.
Qed.

Lemma delete_last {A} (l : list A) :
  delete (length l - 1)%nat l = take (length l - 1) l.
Proof.
  induction l as [|x l IH]; [done |].
  destruct l as [|y l]; [done |].
  cbn [length] in *. replace (S (S (length l)) - 1)%nat with (S (length l)) by lia.
  replace (S (length l) - 1)%nat with (length l) in IH by lia.
  cbn. f_equal. exact IH.
Qed.

Lemma splice1_absent l : splice1 (-1) l = take (length l - 1) l.
Proof.
  unfold splice1. rewrite decide_True by lia.
  rewrite <- delete_last. f_equal. lia.
Qed.

Lemma handlers_receivers ls event l :
  Emitter.handlers ls event = Some l → Emitter.receivers ls event = l.
Proof. unfold Emitter.receivers. by intros ->. Qed.

Lemma removeListener_receivers ls event f :
  Emitter.receivers (removeListener event f ls) event
  = splice1 (indexOf f (Emitter.receivers ls event)) (Emitter.receivers ls event).
Proof.
  unfold removeListener, Emitter.receivers at 1, Emitter.handlers at 1.
  by rewrite lookup_insert_eq.
Qed.

Lemma removeListener_handlers ls event f :
  Emitter.handlers (removeListener event f ls) event
  = Some (splice1 (indexOf f (Emitter.receivers ls event))
            (Emitter.receivers ls event)).
Proof.
  unfold removeListener, Emitter.handlers at 1. by rewrite lookup_insert_eq.
Qed.

Lemma App_not_OnceFn (ids : list nat) n event f : OnceFn n event f ∉ apps ids.
Proof.
  unfold apps. intros H. apply list_elem_of_fmap in H as (id & Heq & _). done.
Qed.

(** The loop over functions of the application: they are called in
    order, and the loop ends in a TypeError when it is to go on past the
    end of the array. *)
Lemma emitLoop_apps event ls front (rest : list nat) k calls :
  Emitter.handlers ls event = Some (front ++ apps rest) →
  emitLoop event (length front) k ls calls
  = if decide (k ≤ length rest)%nat
    then (Normal tt, ls, calls ++ take k rest)
    else (Throw TypeError, ls, calls ++ rest).
Proof.
  revert front rest calls. induction k as [|k IH]; intros front rest calls Hl.
  - cbn. rewrite decide_True by lia. by rewrite take_0, app_nil_r.
  - cbn [emitLoop]. rewrite Hl. cbn [mbind option_bind].
    destruct rest as [|id rest].
    + change (apps []) with (@nil Fn). rewrite app_nil_r.
      rewrite lookup_ge_None_2 by done.
      rewrite decide_False by (cbn; lia). by rewrite app_nil_r.
    + change (apps (id :: rest)) with (App id :: apps rest).
      rewrite list_lookup_middle by done. cbn [call].
      specialize (IH (front ++ [App id]) rest (calls ++ [id])).
      rewrite length_app in IH. cbn [length] in IH.
      replace (length front + 1)%nat with (S (length front)) in IH by lia.
      rewrite IH by (by rewrite <- app_assoc).
      cbn [length].
      destruct (decide (k ≤ length rest)%nat).
      * rewrite decide_True by lia. by rewrite <- app_assoc.
      * rewrite decide_False by lia. by rewrite <- app_assoc.
Qed.

(** The loop up to the function once made: the functions before it are
    called, then it takes itself out of the array and calls its
    callback, and the loop goes on one index further in the array that
    is now one shorter. *)
Lemma emitLoop_once event ls front (pre : list nat) n c (post : list nat) k calls :
  Emitter.handlers ls event
  = Some (front ++ apps pre ++ OnceFn n event (App c) :: apps post) →
  OnceFn n event (App c) ∉ front →
  emitLoop event (length front) (length pre + S k) ls calls
  = emitLoop event (S (length front + length pre)) k
      (<[event := Some (front ++ apps pre ++ apps post)]> ls)
      (calls ++ pre ++ [c]).
Proof.
  revert front calls. induction pre as [|id pre IH]; intros front calls Hl Hfront.
  - change (apps []) with (@nil Fn) in *. cbn [app] in *.
    cbn [length Nat.add emitLoop]. rewrite Hl. cbn [mbind option_bind].
    rewrite list_lookup_middle by done. cbn [call].
    rewrite Nat.add_0_r. f_equal.
    unfold removeListener. f_equal. f_equal.
    rewrite Hl. cbn [default from_option id].
    unfold indexOf.
    rewrite indexOfFrom_first by done. rewrite Z.add_0_l.
    by rewrite splice1_found.
  - change (apps (id :: pre)) with (App id :: apps pre) in *.
    cbn [length Nat.add emitLoop]. rewrite Hl. cbn [mbind option_bind].
    cbn [app].
    rewrite list_lookup_middle by done. cbn [call].
    specialize (IH (front ++ [App id]) (calls ++ [id])).
    rewrite length_app in IH. cbn [length] in IH.
    replace (length front + 1)%nat with (S (length front)) in IH by lia.
    rewrite IH.
    + replace (S (S (length front) + length pre))
        with (S (length front + S (length pre))) by lia.
      f_equal; [by rewrite <- !app_assoc | by rewrite <- !app_assoc].
    + by rewrite <- app_assoc.
    + intros H. apply elem_of_app in H as [H|H]; [done |].
      by apply list_elem_of_singleton in H.
Qed.
End ListenerFacts.

(** X1: removeListener takes the first registration of the callback out
    of the listeners of the event and keeps the others in their order;
    the listeners of every other event stay as they are. *)
Theorem X1_removeListener_removes_first (ls : Emitter.Listeners Listener.Fn)
  (event other : string) (f : Listener.Fn) (pre post : list Listener.Fn)
  (Hregistered : Emitter.receivers ls event = pre ++ f :: post)
  (Hfirst : f ∉ pre)
  (Hother : other ≠ event) :
  Emitter.receivers (Listener.removeListener event f ls) event = pre ++ post ∧
  Emitter.receivers (Listener.removeListener event f ls) other
  = Emitter.receivers ls other.
Proof.
  split.
  - rewrite removeListener_receivers, Hregistered. unfold Listener.indexOf.
    rewrite indexOfFrom_first by done. rewrite Z.add_0_l.
    apply splice1_found.
  - unfold Listener.removeListener, Emitter.receivers, Emitter.handlers.
    by rewrite lookup_insert_ne.
Qed.

Lemma X1_witness :
  let ls := Listener.listeners
              (Listener.on "x" (Listener.App 3)
                 (Listener.on "x" (Listener.App 5)
                    (Listener.on "x" (Listener.App 3)
                       (Listener.mkEmitter ∅ 0)))) in
  Emitter.receivers ls "x"
  = ([Listener.App 3] ++ Listener.App 5 :: [Listener.App 3]) ∧
  Emitter.receivers (Listener.removeListener "x" (Listener.App 5) ls) "x"
  = [Listener.App 3; Listener.App 3].
Proof.
  cbv zeta. split; [vm_compute; reflexivity |].
  refine (proj1 (X1_removeListener_removes_first _ "x" "y" (Listener.App 5)
                   [Listener.App 3] [Listener.App 3] _ _ _)).
  - vm_compute; reflexivity.
  - intros H. apply list_elem_of_singleton in H. discriminate.
  - discriminate.
Defined.

(** X2: for an event name that Object.prototype does not define,
    removeListener with a callback that is not registered for the event
    does not leave the listeners alone: indexOf gives -1 and
    splice(-1, 1) removes the last listener of the event. *)
Theorem X2_removeListener_of_stranger_removes_last
  (ls : Emitter.Listeners Listener.Fn) (event : string) (f : Listener.Fn)
  (Hevent : inherited event = false)
  (Habsent : f ∉ Emitter.receivers ls event) :
  Emitter.receivers (Listener.removeListener event f ls) event
  = take (length (Emitter.receivers ls event) - 1) (Emitter.receivers ls event).
Proof.
  rewrite removeListener_receivers. unfold Listener.indexOf.
  rewrite indexOfFrom_absent by done. apply splice1_absent.
Qed.

Lemma X2_witness :
  let ls := Listener.listeners
              (Listener.on "x" (Listener.App 5)
                 (Listener.on "x" (Listener.App 3) (Listener.mkEmitter ∅ 0))) in
  (Listener.App 9 ∉ Emitter.receivers ls "x") ∧
  Emitter.receivers (Listener.removeListener "x" (Listener.App 9) ls) "x"
  = [Listener.App 3].
Proof.
  cbv zeta.
  assert (Listener.App 9 ∉
            Emitter.receivers
              (Listener.listeners
                 (Listener.on "x" (Listener.App 5)
                    (Listener.on "x" (Listener.App 3) (Listener.mkEmitter ∅ 0))))
              "x") as Habsent.
  { vm_compute. intros H.
    apply elem_of_cons in H as [H|H]; [discriminate |].
    apply list_elem_of_singleton in H. discriminate. }
  split; [exact Habsent |].
  etrans;
    [apply X2_removeListener_of_stranger_removes_last;
       [vm_compute; reflexivity | exact Habsent] |].
  vm_compute; reflexivity.
Defined.

Lemma once_receivers e event f :
  Emitter.receivers (Listener.listeners (Listener.once event f e)) event
  = Emitter.receivers (Listener.listeners e) event
    ++ [Listener.OnceFn (Listener.made e) event f].
Proof. unfold Listener.once. cbn. apply receivers_on_eq. Qed.

Lemma receivers_handlers_on {C} (ls : Emitter.Listeners C) event cb :
  Emitter.handlers (Emitter.on event cb ls) event
  = Some (Emitter.receivers ls event ++ [cb]).
Proof. unfold Emitter.handlers, Emitter.on. by rewrite lookup_insert_eq. Qed.

(** X3: for an event name that Object.prototype does not define, a
    listener registered with once after the other listeners of the event
    is called by the next emit, after the others, and is then no longer
    registered: a second emit calls the others only. *)
Theorem X3_once_is_called_once (e : Listener.Emitter) (event : string)
  (pre : list nat) (c : nat)
  (Hevent : inherited event = false)
  (Hpre : Emitter.receivers (Listener.listeners e) event = Listener.apps pre) :
  ∃ ls', Listener.emit event (Listener.listeners (Listener.once event (Listener.App c) e))
         = (Normal tt, ls', pre ++ [c]) ∧
         Emitter.receivers ls' event = Listener.apps pre ∧
         Listener.emit event ls' = (Normal tt, ls', pre).
Proof.
  set (f := Listener.OnceFn (Listener.made e) event (Listener.App c)).
  set (ls := Listener.listeners (Listener.once event (Listener.App c) e)).
  assert (Emitter.handlers ls event
          = Some ([] ++ Listener.apps pre ++ f :: Listener.apps [])) as Hl.
  { unfold ls, Listener.once. cbn [Listener.listeners].
    by rewrite receivers_handlers_on, Hpre. }
  exists (<[event := Some ([] ++ Listener.apps pre ++ Listener.apps [])]> ls).
  assert (Emitter.handlers
            (<[event := Some ([] ++ Listener.apps pre ++ Listener.apps [])]> ls)
            event = Some ([] ++ Listener.apps pre)) as Hl'.
  { unfold Emitter.handlers. rewrite lookup_insert_eq. cbn.
    by rewrite app_nil_r. }
  repeat split.
  - unfold Listener.emit. rewrite Hl.
    pose proof (emitLoop_once event ls [] pre _ c [] 0 [] Hl
                  (not_elem_of_nil _)) as Hrun.
    cbn [length app Nat.add] in Hrun.
    match goal with
    | |- Listener.emitLoop _ _ ?k _ _ = _ =>
        replace k with (length pre + 1)%nat
          by (rewrite !length_app; unfold Listener.apps;
              rewrite length_fmap; cbn; lia)
    end.
    rewrite Hrun. done.
  - by rewrite (handlers_receivers _ _ _ Hl').
  - unfold Listener.emit. rewrite Hl'. cbn [app].
    replace (length (Listener.apps pre)) with (length pre)
      by (unfold Listener.apps; by rewrite length_fmap).
    pose proof (emitLoop_apps event _ [] pre (length pre) [] Hl') as Hrun.
    cbn [length app] in Hrun. rewrite Hrun.
    rewrite decide_True by lia. by rewrite take_ge.
Qed.

Lemma X3_witness :
  let e := Listener.on "x" (Listener.App 3) (Listener.mkEmitter ∅ 0) in
  Emitter.receivers (Listener.listeners e) "x" = Listener.apps [3%nat] ∧
  ∃ ls', Listener.emit "x" (Listener.listeners (Listener.once "x" (Listener.App 5) e))
         = (Normal tt, ls', [3; 5]%nat) ∧
         Listener.emit "x" ls' = (Normal tt, ls', [3%nat]).
Proof.
  cbv zeta. split; [vm_compute; reflexivity |].
  destruct (X3_once_is_called_once
              (Listener.on "x" (Listener.App 3) (Listener.mkEmitter ∅ 0))
              "x" [3%nat] 5%nat) as (ls' & H1 & _ & H2);
    [vm_compute; reflexivity | vm_compute; reflexivity |].
  exists ls'. split; [exact H1 | exact H2].
Defined.

(** X4: a listener registered with once before another listener breaks
    the emit that calls it. It takes itself out of the array the loop of
    emit runs over, so the listener after it is skipped, and the loop,
    which keeps the length it started with, ends in a TypeError at the
    index past the end. The skipped listener stays registered. *)
Theorem X4_once_before_on_breaks_emit (ls : Emitter.Listeners Listener.Fn)
  (event : string) (n : nat) (pre : list nat) (c g : nat) (post : list nat)
  (Hregistered :
     Emitter.handlers ls event
     = Some (Listener.apps pre
             ++ Listener.OnceFn n event (Listener.App c)
                :: Listener.apps (g :: post))) :
  ∃ ls', Listener.emit event ls = (Throw TypeError, ls', pre ++ [c] ++ post) ∧
         Emitter.receivers ls' event = Listener.apps (pre ++ g :: post).
Proof.
  exists (<[event := Some ([] ++ Listener.apps pre ++ Listener.apps (g :: post))]> ls).
  assert (Emitter.handlers
            (<[event := Some ([] ++ Listener.apps pre
                              ++ Listener.apps (g :: post))]> ls) event
          = Some ((Listener.apps pre ++ [Listener.App g]) ++ Listener.apps post))
    as Hl'.
  { unfold Emitter.handlers. rewrite lookup_insert_eq. cbn.
    by rewrite <- app_assoc. }
  split.
  - unfold Listener.emit. rewrite Hregistered.
    pose proof (emitLoop_once event ls [] pre _ c (g :: post) (S (length post))
                  [] Hregistered (not_elem_of_nil _)) as Hrun.
    cbn [length app Nat.add] in Hrun.
    match goal with
    | |- Listener.emitLoop _ _ ?k _ _ = _ =>
        replace k with (length pre + S (S (length post)))%nat
          by (rewrite !length_app; unfold Listener.apps; cbn [length];
              rewrite !length_fmap; cbn; lia)
    end.
    rewrite Hrun.
    pose proof (emitLoop_apps event _ _ post (S (length post)) (pre ++ [c]) Hl')
      as Hloop.
    replace (length (Listener.apps pre ++ [Listener.App g]))
      with (S (length pre)) in Hloop
      by (rewrite length_app; unfold Listener.apps; rewrite length_fmap;
          cbn; lia).
    cbn [app] in Hloop. rewrite Hloop.
    rewrite decide_False by lia. by rewrite <- app_assoc.
  - unfold Emitter.receivers. rewrite Hl'. cbn.
    unfold Listener.apps. rewrite fmap_app. cbn. by rewrite <- app_assoc.
Qed.

Lemma X4_witness :
  let e := Listener.on "x" (Listener.App 7)
             (Listener.once "x" (Listener.App 5)
                (Listener.on "x" (Listener.App 3) (Listener.mkEmitter ∅ 0))) in
  Emitter.handlers (Listener.listeners e) "x"
  = Some (Listener.apps [3%nat]
          ++ Listener.OnceFn 0 "x" (Listener.App 5) :: Listener.apps [7%nat]) ∧
  ∃ ls', Listener.emit "x" (Listener.listeners e)
         = (Throw TypeError, ls', [3; 5]%nat) ∧
         Emitter.receivers ls' "x" = [Listener.App 3; Listener.App 7].
Proof.
  cbv zeta. split; [vm_compute; reflexivity |].
  destruct (X4_once_before_on_breaks_emit
              (Listener.listeners
                 (Listener.on "x" (Listener.App 7)
                    (Listener.once "x" (Listener.App 5)
                       (Listener.on "x" (Listener.App 3)
                          (Listener.mkEmitter ∅ 0)))))
              "x" 0%nat [3%nat] 5%nat 7%nat [])
    as (ls' & H1 & H2); [vm_compute; reflexivity |].
  exists ls'. split; [exact H1 | exact H2].
Defined.

(** * What one turn of the event loop leaves alone *)

(** A callback of a request changes the request, keeping what it is,
    and at most the record of its server besides. *)
Lemma request_event_cases_keeps (P : World → Prop) e w rid :
  world_ok w → eventRequest e = Some rid →
  P w →
  (∀ f q, keeps f → requests w !! rid = Some q → pending q ≠ NoOp →
          P (setRequests (alter f rid) w)) →
  (∀ f r q, keeps f → requests w !! rid = Some q → pending q ≠ NoOp →
            server q = Some r →
            P (setRecords (alter (addLoad (-1)) r)
                 (setRequests (alter f rid) w))) →
  P (handle e w).1.2.
Proof.
  intros Hok He HP0 HP1 HP2.
  apply (request_event_run (λ t, P t.1.2) e w rid Hok He); cbn; eauto.
Qed.

(** requestResource leaves the world as it is or dispatches the request
    it made to a record. *)
Lemma requestResource_cases (P : World → Prop) args w :
  world_ok w →
  P w →
  (∀ sid r x op, records w !! r = Some x →
                 P (dispatch r (newRequest args sid r (serverUrl x) op) w)) →
  P (requestResource args w).1.2.
Proof.
  intros Hok HP0 HP1.
  destruct (dataStores w !! cacheName args) as [sid|] eqn:Hn.
  - destruct (ok_dataStores _ Hok _ _ Hn) as (st & Hst & _).
    pose proof (readyStore_run w _ sid st Hn Hst) as Hr.
    destruct (ready st) eqn:Hready.
    + destruct (selectServer_pure (preferredServer args) w) as [c Hsel].
      assert ((∀ r, c = Normal (Some r) → records w !! r = None)
              ∨ ∃ r x, c = Normal (Some r) ∧ records w !! r = Some x) as [Hc|Hc].
      { destruct c as [[r|]|e]; [|by left..].
        destruct (records w !! r) as [x|] eqn:Hx; [right; eauto |].
        left. by intros r' [= <-]. }
      * by rewrite (requestResource_abort args w sid c Hr Hsel Hc).
      * destruct Hc as (r & x & -> & Hx).
        rewrite (requestResource_run args w sid st r x Hn Hst Hready Hsel Hx).
        destruct (decide (returnCached args = Some false));
          [| destruct (transactionOutcome w sid)]; by apply HP1.
    + by rewrite (requestResource_reject args w Hr).
  - rewrite requestResource_reject; [done |]. by rewrite Hn.
Qed.

(** A callback of an opening data store changes data stores and the map
    of data stores only. *)
Lemma store_event_cases (P : World → Prop) w sid :
  world_ok w →
  P w →
  (∀ f, P (setStores f w)) →
  (∀ f g, P (setDataStores g (setStores f w))) →
  P (handle (OnUpgradeNeeded sid) w).1.2 ∧
  (∀ err, P (handle (OnOpenError sid err) w).1.2) ∧
  (∀ legacy, P (handle (OnOpenSuccess sid legacy) w).1.2) ∧
  P (handle (OnSetVersionSuccess sid) w).1.2 ∧
  (∀ err, P (handle (OnSetVersionError sid err) w).1.2) ∧
  P (handle (OnVersionChangeComplete sid) w).1.2.
Proof.
  intros Hok HP0 HP1 HP2.
  destruct (stores w !! sid) as [st|] eqn:Hst.
  2: { split_cases; idle_store_event Hst Hst. }
  pose proof (ok_stores _ Hok _ _ Hst) as Hsub.
  destruct (spending st) eqn:Hp.
  - split_cases; idle_store_event Hst Hp.
  - split_cases; try idle_store_event Hst Hp.
    + rewrite (handle_upgradeNeeded w sid st Hst Hp). apply HP1.
    + rewrite (handle_openError w sid st Hst Hsub err Hp). apply HP1.
    + destruct legacy.
      * rewrite (handle_openSuccess_legacy w sid st Hst Hp). apply HP1.
      * rewrite (handle_openSuccess_ready w sid st Hst Hsub Hp). apply HP2.
  - split_cases; try idle_store_event Hst Hp.
    + rewrite (handle_setVersionSuccess w sid st Hst Hp). apply HP1.
    + rewrite (handle_setVersionError w sid st Hst Hsub err Hp). apply HP1.
  - split_cases; try idle_store_event Hst Hp.
    rewrite (handle_versionChangeComplete w sid st Hst Hsub Hp). apply HP2.
Qed.

(** The ways every event other than a call of addServer or removeServer
    changes the world. *)
Lemma handle_cases (P : World → Prop) e w :
  world_ok w →
  (∀ url, e ≠ AddServer url) → (∀ url, e ≠ RemoveServer url) →
  P w →
  (∀ f rid q, keeps f → requests w !! rid = Some q → pending q ≠ NoOp →
               P (setRequests (alter f rid) w)) →
  (∀ f rid r q, keeps f → requests w !! rid = Some q → pending q ≠ NoOp →
                server q = Some r →
                P (setRecords (alter (addLoad (-1)) r)
                     (setRequests (alter f rid) w))) →
  (∀ args sid r x op, e = RequestResource args → records w !! r = Some x →
                      P (dispatch r (newRequest args sid r (serverUrl x) op) w)) →
  (∀ f, P (setStores f w)) →
  (∀ f g, P (setDataStores g (setStores f w))) →
  P (handle e w).1.2.
Proof.
  intros Hok Hadd Hremove HP0 HP1 HP2 HP3 HP4 HP5.
  destruct e as [u|u|n|n|args|sid|sid err|sid legacy|sid|sid err|sid|rid result|rid|rid info|rid status statusText response total now|rid statusText|rid|rid|rid].
  - by destruct (Hadd u).
  - by destruct (Hremove u).
  - cbn [handle]. rewrite createDataStore_run.
    destruct (dataStores w !! n); [done |].
    destruct (inherited n); [done | apply HP4].
  - cbn [handle]. destruct (dataStores w !! n) as [sid|] eqn:Hn.
    + destruct (ok_dataStores _ Hok _ _ Hn) as (st & Hst & Hname).
      pose proof (ok_stores _ Hok _ _ Hst) as Hsub.
      rewrite (deleteDataStore_close w n sid st Hn Hst Hsub).
      destruct (ready st); [apply HP5 | done].
    + rewrite (deleteDataStore_run w n Hn). by destruct (inherited n).
  - assert (P (requestResource args w).1.2) as H.
    { apply requestResource_cases; try done. intros. by eapply HP3. }
    cbn. js_unfold. destruct (requestResource args w) as [[[]]]; exact H.
  - by apply (store_event_cases P w sid Hok).
  - by apply (store_event_cases P w sid Hok).
  - by apply (store_event_cases P w sid Hok).
  - by apply (store_event_cases P w sid Hok).
  - by apply (store_event_cases P w sid Hok).
  - by apply (store_event_cases P w sid Hok).
  - apply (request_event_cases_keeps P) with (rid := rid); eauto.
  - apply (request_event_cases_keeps P) with (rid := rid); eauto.
  - apply (request_event_cases_keeps P) with (rid := rid); eauto.
  - apply (request_event_cases_keeps P) with (rid := rid); eauto.
  - apply (request_event_cases_keeps P) with (rid := rid); eauto.
  - apply (request_event_cases_keeps P) with (rid := rid); eauto.
  - apply (request_event_cases_keeps P) with (rid := rid); eauto.
  - apply (request_event_cases_keeps P) with (rid := rid); eauto.
Qed.

(** * The registry of content servers *)

Lemma registered_frame w w' :
  contentServers w' = contentServers w →
  (∀ r, serverUrl <$> records w' !! r = serverUrl <$> records w !! r) →
  registered w' = registered w.
Proof.
  intros Hcs Hrec. unfold registered. rewrite Hcs.
  apply list_fmap_ext. intros _ r _. apply Hrec.
Qed.

Lemma serverUrl_addLoad d r0 (h : list ServerRecord) r :
  serverUrl <$> alter (addLoad d) r0 h !! r = serverUrl <$> h !! r.
Proof.
  destruct (decide (r = r0)) as [->|Hne].
  - rewrite list_lookup_alter_eq. by destruct (h !! r0).
  - by rewrite list_lookup_alter_ne.
Qed.

(** Every event other than a call of addServer or removeServer leaves the
    registered URLs as they are. *)
Lemma handle_registered e w :
  world_ok w →
  (∀ url, e ≠ AddServer url) → (∀ url, e ≠ RemoveServer url) →
  registered (handle e w).1.2 = registered w.
Proof.
  intros Hok Hadd Hremove.
  apply (handle_cases (λ w', registered w' = registered w)); try done;
    intros; apply registered_frame; try done; intros; cbn;
    apply serverUrl_addLoad.
Qed.

Lemma registered_valid w r :
  None ∉ registered w → r ∈ contentServers w → is_Some (records w !! r).
Proof.
  intros Hnone Hr. destruct (records w !! r) as [x|] eqn:Hx; [by eexists |].
  exfalso. apply Hnone. unfold registered.
  apply list_elem_of_fmap. exists r. by rewrite Hx.
Qed.

Lemma findLoop_run url l w :
  (∀ r, r ∈ l → is_Some (records w !! r)) →
  findLoop url l w = (Normal (firstWithUrl (records w) url l), w, []).
Proof.
  induction l as [|r l IH]; intros Hl; [done |].
  destruct (Hl r) as [x Hx]; [by left |].
  cbn. unfold getRecord. js_unfold. cbn. rewrite Hx. cbn.
  destruct (decide (serverUrl x = url)) as [Heq|Hne].
  - rewrite decide_True; [done | by rewrite Heq].
  - rewrite decide_False by congruence.
    rewrite IH; [done |]. intros r' Hr'. apply Hl. by right.
Qed.

Lemma findContentServer_run url w :
  None ∉ registered w →
  findContentServer url w
  = (Normal (firstWithUrl (records w) url (contentServers w)), w, []).
Proof.
  intros Hnone. unfold findContentServer. js_unfold. cbn.
  rewrite findLoop_run; [done |]. intros r Hr. by apply registered_valid.
Qed.

Lemma firstWithUrl_None h url l :
  firstWithUrl h url l = None ↔ Some url ∉ (λ r, serverUrl <$> h !! r) <$> l.
Proof.
  induction l as [|r l IH]; cbn.
  - split; [intros _; apply not_elem_of_nil | done].
  - destruct (decide (serverUrl <$> h !! r = Some url)) as [Heq|Hne].
    + split; [done |]. intros H. exfalso. apply H. rewrite Heq. by left.
    + rewrite IH. rewrite not_elem_of_cons. split; [|by intros [_ ?]].
      intros H. split; [congruence | done].
Qed.

Lemma firstWithUrl_Some h url l r :
  firstWithUrl h url l = Some r →
  ∃ pre post, l = pre ++ r :: post ∧ firstWithUrl h url pre = None ∧
              serverUrl <$> h !! r = Some url.
Proof.
  induction l as [|r' l IH]; cbn; [done |].
  destruct (decide (serverUrl <$> h !! r' = Some url)) as [Heq|Hne].
  - intros [= <-]. by exists [], l.
  - intros H. destruct (IH H) as (pre & post & -> & Hpre & Hr).
    exists (r' :: pre), post. cbn. by rewrite decide_False.
Qed.

Lemma addContentServer_registered url w :
  None ∉ registered w →
  (Some url ∈ registered w ∧ addContentServer url w = (Normal tt, w, [])) ∨
  ((Some url ∉ registered w) ∧
   addContentServer url w
   = (Normal tt,
      setContentServers (λ l, l ++ [length (records w)])
        (setRecords (λ h, h ++ [mkServerRecord url 0]) w),
      []) ∧
   registered (addContentServer url w).1.2 = registered w ++ [Some url]).
Proof.
  intros Hnone. unfold addContentServer. js_unfold.
  rewrite (findContentServer_run url w Hnone).
  destruct (firstWithUrl (records w) url (contentServers w)) as [r|] eqn:Hf.
  - left. split; [|done].
    destruct (firstWithUrl_Some _ _ _ _ Hf) as (pre & post & Hl & _ & Hr).
    unfold registered. apply list_elem_of_fmap. exists r. split; [done |].
    rewrite Hl. apply elem_of_app. right. by left.
  - right. apply firstWithUrl_None in Hf. split; [done |]. split; [done |].
    cbn. unfold registered. cbn. rewrite fmap_app. cbn.
    rewrite list_lookup_middle by done. cbn. f_equal.
    apply list_fmap_ext. intros i r Hi.
    apply list_elem_of_lookup_2 in Hi.
    destruct (registered_valid w r Hnone Hi) as [x Hx].
    by rewrite (lookup_app_l_Some _ _ _ _ Hx), Hx.
Qed.

Lemma removeLoop_run url l i w :
  (∀ r, r ∈ l → is_Some (records w !! r)) →
  (firstWithUrl (records w) url l = None ∧
   removeLoop url i l w = (Normal tt, w, [])) ∨
  (∃ pre r post, l = pre ++ r :: post ∧
     firstWithUrl (records w) url pre = None ∧
     serverUrl <$> records w !! r = Some url ∧
     removeLoop url i l w
     = (Normal tt, setContentServers (delete (i + length pre)%nat) w, [])).
Proof.
  revert i. induction l as [|r l IH]; intros i Hl; [by left |].
  destruct (Hl r) as [x Hx]; [by left |].
  cbn. unfold getRecord. js_unfold. cbn. rewrite Hx. cbn.
  destruct (decide (serverUrl x = url)) as [Heq|Hne].
  - right. exists [], r, l. rewrite Hx. cbn. rewrite Nat.add_0_r.
    by rewrite Heq.
  - rewrite decide_False by congruence.
    destruct (IH (S i)) as [[Hf Hrun]|(pre & r' & post & -> & Hf & Hr & Hrun)].
    { intros r' Hr'. apply Hl. by right. }
    + left. by rewrite Hrun.
    + right. exists (r :: pre), r', post. cbn. rewrite Hx. cbn.
      rewrite decide_False by congruence. rewrite Hrun.
      replace (S i + length pre)%nat with (i + S (length pre))%nat by lia.
      done.
Qed.

Lemma removeContentServer_run url w :
  None ∉ registered w →
  ((Some url ∉ registered w) ∧ removeContentServer url w = (Normal tt, w, [])) ∨
  (∃ pre r post, contentServers w = pre ++ r :: post ∧
     firstWithUrl (records w) url pre = None ∧
     serverUrl <$> records w !! r = Some url ∧
     removeContentServer url w
     = (Normal tt, setContentServers (delete (length pre)) w, [])).
Proof.
  intros Hnone. unfold removeContentServer. js_unfold. cbn.
  destruct (removeLoop_run url (contentServers w) 0 w)
    as [[Hf Hrun]|(pre & r & post & Hl & Hf & Hr & Hrun)].
  { intros r Hr. by apply registered_valid. }
  - left. rewrite Hrun. split; [|done]. by apply firstWithUrl_None.
  - right. exists pre, r, post. by rewrite Hrun.
Qed.

Lemma step_registry_ok e w :
  world_ok w → registry_ok w → registry_ok (step e w).1.
Proof.
  intros Hok [Hdup Hnone]. rewrite step_world.
  assert ((∀ url, e ≠ AddServer url) → (∀ url, e ≠ RemoveServer url) →
          registry_ok (handle e w).1.2) as Hother.
  { intros Hadd Hremove. unfold registry_ok. by rewrite handle_registered. }
  destruct e as [url|url|n|n|args|sid|sid err|sid legacy|sid|sid err|sid|rid result|rid|rid info|rid status statusText response total now|rid statusText|rid|rid|rid];
    try (apply Hother; intros; discriminate).
  - cbn [handle].
    destruct (addContentServer_registered url w Hnone)
      as [[_ ->]|(Hnew & _ & Hreg)]; [done |].
    unfold registry_ok. rewrite Hreg. split.
    + apply NoDup_app. split; [done |]. split; [| apply NoDup_singleton].
      intros o Ho Ho'. apply list_elem_of_singleton in Ho'. by subst.
    + intros H. apply elem_of_app in H as [H|H]; [done |].
      by apply list_elem_of_singleton in H.
  - cbn [handle].
    destruct (removeContentServer_run url w Hnone)
      as [[_ ->]|(pre & r & post & Hl & _ & _ & ->)]; [done |].
    cbn. unfold registry_ok, registered. cbn.
    assert (((λ r0, serverUrl <$> records w !! r0)
               <$> delete (length pre) (contentServers w))
            `sublist_of` registered w) as Hsub.
    { unfold registered. apply fmap_sublist. apply sublist_delete. }
    split.
    + by eapply sublist_NoDup.
    + intros H. apply Hnone. by eapply elem_of_sublist.
Qed.

Lemma after_registry_ok events w :
  world_ok w → registry_ok w → registry_ok (after events w).
Proof.
  revert w. induction events as [|e l IH]; intros w Hok Hreg; [done |].
  rewrite after_cons. apply IH; [by apply step_ok | by apply step_registry_ok].
Qed.

Lemma newContentServer_registry_ok : registry_ok newContentServer.
Proof.
  unfold registry_ok.
  change (registered newContentServer) with [Some ""].
  split; [apply NoDup_singleton |].
  intros H. by apply list_elem_of_singleton in H.
Qed.

Lemma reachable_registry_ok w : reachable w → registry_ok w.
Proof.
  intros [events <-].
  apply after_registry_ok;
    [apply newContentServer_ok | apply newContentServer_registry_ok].
Qed.

Lemma NoDup_middle_absent {A} (pre post : list A) x :
  NoDup (pre ++ x :: post) → x ∉ pre ++ post.
Proof.
  intros H. apply NoDup_app in H as (_ & Hpre & Hpost).
  apply NoDup_cons in Hpost as [Hx _].
  intros Hin. apply elem_of_app in Hin as [Hin|Hin]; [|done].
  apply (Hpre x Hin). by left.
Qed.

Lemma firstWithUrl_app_None h url pre post :
  firstWithUrl h url pre = None →
  firstWithUrl h url (pre ++ post) = firstWithUrl h url post.
Proof.
  induction pre as [|r pre IH]; [done |]. cbn.
  destruct (decide (serverUrl <$> h !! r = Some url)); [done | exact IH].
Qed.

Lemma firstWithUrl_app_Some h url pre post r :
  firstWithUrl h url pre = Some r →
  firstWithUrl h url (pre ++ post) = Some r.
Proof.
  induction pre as [|r' pre IH]; [done |]. cbn.
  destruct (decide (serverUrl <$> h !! r' = Some url)); [done | exact IH].
Qed.

Lemma firstWithUrl_delete h url other pre r post :
  serverUrl <$> h !! r = Some url → other ≠ url →
  firstWithUrl h other (delete (length pre) (pre ++ r :: post))
  = firstWithUrl h other (pre ++ r :: post).
Proof.
  intros Hr Hne. rewrite delete_middle.
  destruct (firstWithUrl h other pre) as [r'|] eqn:Hpre.
  - by rewrite !(firstWithUrl_app_Some _ _ _ _ _ Hpre).
  - rewrite !(firstWithUrl_app_None _ _ _ _ Hpre). cbn.
    rewrite decide_False; [done |]. rewrite Hr. congruence.
Qed.

(** X5: in every world the content server can be in, each registered
    server has a record and no URL is registered twice. *)
Theorem X5_registered_urls_are_unique (w : World) (Hreach : reachable w) :
  NoDup (registered w) ∧
  (∀ r, r ∈ contentServers w → ∃ x, records w !! r = Some x) ∧
  (∀ i j r1 r2 x1 x2,
     contentServers w !! i = Some r1 → contentServers w !! j = Some r2 →
     records w !! r1 = Some x1 → records w !! r2 = Some x2 →
     serverUrl x1 = serverUrl x2 → i = j).
Proof.
  destruct (reachable_registry_ok w Hreach) as [Hdup Hnone].
  split; [done |]. split.
  - intros r Hr. by apply registered_valid.
  - intros i j r1 r2 x1 x2 Hi Hj Hx1 Hx2 Hurl.
    apply (NoDup_lookup (registered w) i j (Some (serverUrl x1))); [done | |].
    + unfold registered. by rewrite list_lookup_fmap, Hi; cbn; rewrite Hx1.
    + unfold registered. rewrite list_lookup_fmap, Hj. cbn. by rewrite Hx2, Hurl.
Qed.

Lemma X5_witness :
  let w := after [AddServer "A"; AddServer "B"; AddServer "A"; RemoveServer "";
                  AddServer "B"] newContentServer in
  reachable w ∧ registered w = [Some "A"; Some "B"] ∧ NoDup (registered w).
Proof.
  cbv zeta.
  assert (reachable (after [AddServer "A"; AddServer "B"; AddServer "A";
                            RemoveServer ""; AddServer "B"] newContentServer))
    as Hreach by (by eexists).
  split; [exact Hreach |]. split; [vm_compute; reflexivity |].
  exact (proj1 (X5_registered_urls_are_unique _ Hreach)).
Defined.

(** X6: after addContentServer(url) the URL is registered:
    findContentServer finds a record with that URL. The call appends the
    URL to the registered ones when it was not among them and changes
    nothing when it was, so a second call changes nothing. *)
Theorem X6_addServer_registers_once (w : World) (url : string)
  (Hreach : reachable w) :
  (∃ r x, findContentServer url (step (AddServer url) w).1
          = (Normal (Some r), (step (AddServer url) w).1, []) ∧
          records (step (AddServer url) w).1 !! r = Some x ∧ serverUrl x = url) ∧
  (Some url ∈ registered w → step (AddServer url) w = (w, [])) ∧
  ((Some url ∉ registered w) →
   registered (step (AddServer url) w).1 = registered w ++ [Some url]) ∧
  step (AddServer url) (step (AddServer url) w).1
  = ((step (AddServer url) w).1, []).
Proof.
  pose proof (reachable_ok w Hreach) as Hok.
  destruct (reachable_registry_ok w Hreach) as [Hdup Hnone].
  pose proof (reachable_registry_ok _ (reachable_step (AddServer url) w Hreach))
    as [Hdup' Hnone'].
  assert (Some url ∈ registered (step (AddServer url) w).1) as Hin.
  { rewrite step_world. cbn [handle].
    destruct (addContentServer_registered url w Hnone)
      as [[Hin ->]|(_ & _ & ->)]; [done |].
    apply elem_of_app. right. by left. }
  assert (∀ v, Some url ∈ registered v → None ∉ registered v →
               step (AddServer url) v = (v, [])) as Hagain.
  { intros v Hv Hvn. unfold step. cbn [handle].
    destruct (addContentServer_registered url v Hvn)
      as [[_ ->]|(Hnew & _)]; done. }
  split; [| split; [| split]].
  - rewrite (findContentServer_run url _ Hnone').
    destruct (firstWithUrl (records (step (AddServer url) w).1) url
                (contentServers (step (AddServer url) w).1)) as [r|] eqn:Hf.
    + destruct (firstWithUrl_Some _ _ _ _ Hf) as (_ & _ & _ & _ & Hr).
      destruct (records (step (AddServer url) w).1 !! r) as [x|] eqn:Hx;
        [| done].
      exists r, x. cbn in Hr. split; [done |]. split; [done | congruence].
    + apply firstWithUrl_None in Hf. done.
  - intros Hold. by apply Hagain.
  - intros Hnew. rewrite step_world. cbn [handle].
    destruct (addContentServer_registered url w Hnone)
      as [[Hold _]|(_ & _ & Hreg)]; done.
  - by apply Hagain.
Qed.

Lemma X6_witness :
  let w := after [AddServer "A"] newContentServer in
  reachable w ∧
  registered (step (AddServer "B") w).1 = [Some ""; Some "A"; Some "B"] ∧
  step (AddServer "B") (step (AddServer "B") w).1
  = ((step (AddServer "B") w).1, []).
Proof.
  cbv zeta.
  assert (reachable (after [AddServer "A"] newContentServer)) as Hreach
    by (by eexists).
  split; [exact Hreach |]. split; [vm_compute; reflexivity |].
  exact (proj2 (proj2 (proj2 (X6_addServer_registers_once _ "B" Hreach)))).
Defined.

(** X7: after removeContentServer(url) the URL is not registered and
    findContentServer gives null for it; every other URL is found as
    before. The call sends nothing and leaves the records and the
    requests as they are, so a request bound to the removed server keeps
    its record. *)
Theorem X7_removeServer_unregisters (w : World) (url other : string)
  (Hreach : reachable w)
  (Hother : other ≠ url) :
  (Some url ∉ registered (step (RemoveServer url) w).1) ∧
  findContentServer url (step (RemoveServer url) w).1
  = (Normal None, (step (RemoveServer url) w).1, []) ∧
  (findContentServer other (step (RemoveServer url) w).1).1.1
  = (findContentServer other w).1.1 ∧
  records (step (RemoveServer url) w).1 = records w ∧
  requests (step (RemoveServer url) w).1 = requests w ∧
  (step (RemoveServer url) w).2 = [].
Proof.
  destruct (reachable_registry_ok w Hreach) as [Hdup Hnone].
  pose proof (reachable_registry_ok _ (reachable_step (RemoveServer url) w Hreach))
    as [Hdup' Hnone'].
  rewrite !(findContentServer_run _ _ Hnone'), (findContentServer_run _ _ Hnone).
  unfold step. cbn [handle].
  destruct (removeContentServer_run url w Hnone)
    as [[Habsent ->]|(pre & r & post & Hl & Hpre & Hr & ->)]; cbn [fst snd].
  - assert (firstWithUrl (records w) url (contentServers w) = None) as Hf
      by (by apply firstWithUrl_None).
    rewrite Hf. repeat split; done.
  - assert (Some url ∉ registered (setContentServers (delete (length pre)) w))
      as Hgone.
    { unfold registered in *. cbn. rewrite Hl, delete_middle, fmap_app.
      rewrite Hl, fmap_app in Hdup. cbn in Hdup. rewrite Hr in Hdup.
      by apply NoDup_middle_absent in Hdup. }
    assert (firstWithUrl (records (setContentServers (delete (length pre)) w))
              url (contentServers (setContentServers (delete (length pre)) w))
            = None) as Hf by (by apply firstWithUrl_None).
    rewrite Hf. repeat split; try done.
    cbn. rewrite Hl. f_equal. by apply (firstWithUrl_delete _ url).
Qed.

Lemma X7_witness :
  let w := after Scenario.downloading newContentServer in
  reachable w ∧
  registered (step (RemoveServer "") w).1 = [] ∧
  records (step (RemoveServer "") w).1 = [mkServerRecord "" 1] ∧
  requests (step (RemoveServer "") w).1 = requests w.
Proof.
  cbv zeta.
  assert (reachable (after Scenario.downloading newContentServer)) as Hreach
    by (by eexists).
  split; [exact Hreach |]. split; [vm_compute; reflexivity |].
  split; [vm_compute; reflexivity |].
  assert ("A" ≠ "") as Hne by discriminate.
  exact (proj1 (proj2 (proj2 (proj2 (proj2
           (X7_removeServer_unregisters _ "" "A" Hreach Hne)))))).
Defined.

Lemma idle_split (h : list ServerRecord) (l : list nat) :
  (∀ r, r ∈ l → ∃ x, h !! r = Some x ∧ (0 ≤ loadValue x)%Z) →
  (∀ r, r ∈ l → ∃ x, h !! r = Some x ∧ 0 < loadValue x) ∨
  (∃ busy r rest x, l = busy ++ r :: rest ∧
     (∀ r', r' ∈ busy → ∃ x', h !! r' = Some x' ∧ 0 < loadValue x') ∧
     h !! r = Some x ∧ loadValue x = 0).
Proof.
  induction l as [|r l IH]; intros Hl.
  - left. intros r Hr. by apply elem_of_nil in Hr.
  - destruct (Hl r) as (x & Hx & Hpos); [by left |].
    destruct (decide (loadValue x = 0)) as [Hzero|Hnz].
    + right. exists [], r, l, x. repeat split; try done.
      intros r' Hr'. by apply elem_of_nil in Hr'.
    + destruct IH as [Hbusy|(busy & r' & rest & x' & -> & Hbusy & Hx' & Hz)].
      * intros r' Hr'. apply Hl. by right.
      * left. intros r' Hr'. apply elem_of_cons in Hr' as [->|Hr'].
        -- exists x. split; [done | lia].
        -- by apply Hbusy.
      * right. exists (r :: busy), r', rest, x'. repeat split; try done.
        intros r'' Hr''. apply elem_of_cons in Hr'' as [->|Hr''].
        -- exists x. split; [done | lia].
        -- by apply Hbusy.
Qed.

Lemma chooseLoop_some l i minid w :
  (∀ r, r ∈ l → is_Some (records w !! r)) →
  ∃ res, chooseLoop i minid l w = (Normal res, w, []) ∧
         match res with
         | inl r => r ∈ l
         | inr m => m = minid ∨ (i ≤ m < i + length l)%nat
         end.
Proof.
  revert i minid. induction l as [|r l IH]; intros i minid Hl.
  - exists (inr minid). split; [done | by left].
  - cbn [chooseLoop]. js_unfold. cbn.
    destruct (Hl r) as [x Hx]; [by left |]. rewrite Hx. cbn.
    destruct (decide (loadValue x = 0)).
    + exists (inl r). split; [done | by left].
    + destruct (IH (S i) (if decide (loadValue x < Z.of_nat minid)
                          then i else minid)) as (res & -> & Hres).
      { intros r' Hr'. apply Hl. by right. }
      exists res. split; [done |]. destruct res as [r'|m].
      * by right.
      * cbn [length]. destruct Hres as [->|Hm]; [| right; lia].
        destruct (decide (loadValue x < Z.of_nat minid)); [right; lia | by left].
Qed.

Lemma chooseContentServer_some w r0 rest :
  registry_ok w → contentServers w = r0 :: rest →
  ∃ r x, chooseContentServer w = (Normal (Some r), w, []) ∧
         r ∈ contentServers w ∧ records w !! r = Some x.
Proof.
  intros [_ Hnone] Hservers.
  destruct (chooseLoop_some (contentServers w) 0 0 w) as (res & Hloop & Hres).
  { intros r Hr. by apply registered_valid. }
  unfold chooseContentServer. js_unfold. cbn. rewrite Hloop. cbn.
  destruct res as [r|m].
  - destruct (registered_valid w r Hnone Hres) as [x Hx]. by exists r, x.
  - assert (m < length (contentServers w))%nat as Hm.
    { rewrite Hservers in *. cbn [length] in *. lia. }
    rewrite decide_True by done. cbn.
    destruct (lookup_lt_is_Some_2 _ _ Hm) as [r Hr]. rewrite Hr.
    assert (r ∈ contentServers w) as Hin by (by eapply list_elem_of_lookup_2).
    destruct (registered_valid w r Hnone Hin) as [x Hx]. by exists r, x.
Qed.

(** X8: while at least one server is registered, chooseContentServer
    never returns null: it returns a registered server. While no load is
    negative, that server is the first registered server whose load is
    0, and the first registered server of all when every server is
    loaded. *)
Theorem X8_chooseContentServer_first_idle_else_first (w : World) (r0 : nat)
  (rest : list nat)
  (Hreach : reachable w)
  (Hservers : contentServers w = r0 :: rest) :
  ∃ r x, chooseContentServer w = (Normal (Some r), w, []) ∧
         r ∈ contentServers w ∧
         records w !! r = Some x ∧
         ((∀ r' x', r' ∈ contentServers w → records w !! r' = Some x' →
                    (0 ≤ loadValue x')%Z) →
          (loadValue x = 0 ∧
           ∃ busy after, contentServers w = busy ++ r :: after ∧
             ∀ r' x', r' ∈ busy → records w !! r' = Some x' → 0 < loadValue x') ∨
          (0 < loadValue x ∧ r = r0 ∧
           ∀ r' x', r' ∈ contentServers w → records w !! r' = Some x' →
                    0 < loadValue x')).
Proof.
  pose proof (reachable_registry_ok w Hreach) as Hreg.
  destruct (chooseContentServer_some w r0 rest Hreg Hservers)
    as (r & x & Hchoose & Hr & Hx).
  exists r, x. split; [done |]. split; [done |]. split; [done |].
  intros Hloads. destruct Hreg as [_ Hnone].
  destruct (idle_split (records w) (contentServers w))
    as [Hbusy|(busy & r' & after & x' & Hl & Hbusy & Hx' & Hz)].
  { intros r' Hr'. destruct (registered_valid w r' Hnone Hr') as [x' Hx'].
    exists x'. split; [done |]. by eapply Hloads. }
  - pose proof (chooseContentServer_busy w r0 rest Hservers) as Hfirst.
    rewrite Hchoose in Hfirst.
    assert (r = r0) as ->.
    { assert ((Normal (Some r), w, @nil Output) = (Normal (Some r0), w, []))
        as Heq by (apply Hfirst; by rewrite <- Hservers).
      by injection Heq. }
    destruct (Hbusy r0 Hr) as (y & Hy & Hpos).
    rewrite Hx in Hy. injection Hy as <-.
    right. split; [done |]. split; [done |].
    intros r' x' Hr' Hx'. destruct (Hbusy r' Hr') as (y & Hy & Hpos').
    congruence.
  - pose proof (chooseContentServer_idle w busy r' after x' Hl Hbusy Hx' Hz)
      as Hidle.
    rewrite Hchoose in Hidle. injection Hidle as ->.
    rewrite Hx in Hx'. injection Hx' as <-.
    left. split; [done |]. exists busy, after. split; [done |].
    intros r'' x'' Hr'' Hx''. destruct (Hbusy r'' Hr'') as (y & Hy & Hpos').
    congruence.
Qed.

Lemma X8_witness :
  let w := after Scenario.busy newContentServer in
  reachable w ∧ contentServers w = [1%nat; 2%nat] ∧
  (∀ r' x', r' ∈ contentServers w → records w !! r' = Some x' →
            (0 ≤ loadValue x')%Z) ∧
  ∃ r x, chooseContentServer w = (Normal (Some r), w, []) ∧
         r ∈ contentServers w ∧
         records w !! r = Some x ∧
         ((loadValue x = 0 ∧
           ∃ busy after, contentServers w = busy ++ r :: after ∧
             ∀ r' x', r' ∈ busy → records w !! r' = Some x' → 0 < loadValue x') ∨
          (0 < loadValue x ∧ r = 1%nat ∧
           ∀ r' x', r' ∈ contentServers w → records w !! r' = Some x' →
                    0 < loadValue x')).
Proof.
  cbv zeta.
  assert (reachable (after Scenario.busy newContentServer)) as Hreach
    by (by eexists).
  assert (contentServers (after Scenario.busy newContentServer)
          = [1%nat; 2%nat]) as Hservers by (vm_compute; reflexivity).
  assert (∀ r' x', r' ∈ contentServers (after Scenario.busy newContentServer) →
                   records (after Scenario.busy newContentServer) !! r' = Some x' →
                   (0 ≤ loadValue x')%Z) as Hloads.
  { intros r' x' Hr' Hx'. rewrite Hservers in Hr'.
    apply elem_of_cons in Hr' as [->|Hr'];
      [| apply elem_of_cons in Hr' as [->|Hr'];
         [| by apply elem_of_nil in Hr']].
    all: vm_compute in Hx'; injection Hx' as <-; cbn [loadValue]; lia. }
  split; [exact Hreach |]. split; [exact Hservers |]. split; [exact Hloads |].
  destruct (X8_chooseContentServer_first_idle_else_first _ 1%nat [2%nat]
              Hreach Hservers) as (r & x & Hchoose & Hr & Hx & Hcases).
  exists r, x. split; [exact Hchoose |]. split; [exact Hr |].
  split; [exact Hx |]. exact (Hcases Hloads).
Defined.

(** X9: a preferred server that is registered is the one a request
    gets, whatever its load and the load of the others. *)
Theorem X9_registered_preferred_server_wins (w : World) (url : string)
  (Hreach : reachable w)
  (Hurl : url ≠ "")
  (Hregistered : Some url ∈ registered w) :
  ∃ r x, selectServer (Some url) w = (Normal (Some r), w, []) ∧
         r ∈ contentServers w ∧
         records w !! r = Some x ∧ serverUrl x = url.
Proof.
  destruct (reachable_registry_ok w Hreach) as [_ Hnone].
  unfold selectServer.
  assert (truthy (Some url) = Some url) as -> by (by destruct url).
  js_unfold. rewrite (findContentServer_run url w Hnone).
  destruct (firstWithUrl (records w) url (contentServers w)) as [r|] eqn:Hf.
  - destruct (firstWithUrl_Some _ _ _ _ Hf) as (pre & post & Hl & _ & Hr).
    destruct (records w !! r) as [x|] eqn:Hx; [| done].
    exists r, x. cbn in Hr. split; [done |]. split.
    + rewrite Hl. apply elem_of_app. right. by left.
    + split; [done | congruence].
  - apply firstWithUrl_None in Hf. done.
Qed.

Lemma X9_witness :
  let w := after Scenario.busy newContentServer in
  reachable w ∧
  registered w = [Some "A"; Some "B"] ∧
  (loadValue <$> records w) = [0; 2; 1] ∧
  selectServer (Some "A") w = (Normal (Some 1%nat), w, []).
Proof.
  cbv zeta.
  assert (reachable (after Scenario.busy newContentServer)) as Hreach
    by (by eexists).
  split; [exact Hreach |]. split; [vm_compute; reflexivity |].
  split; [vm_compute; reflexivity |].
  edestruct X9_registered_preferred_server_wins
    with (w := after Scenario.busy newContentServer) (url := "A")
    as (r & x & Hsel & _); [exact Hreach | discriminate | | ].
  - vm_compute. apply elem_of_cons. by left.
  - vm_compute. reflexivity.
Defined.

(** X10: a preferred server that is the empty string or is not
    registered is ignored: the request gets the server that
    chooseContentServer picks. The implicit server, whose URL is the
    empty string, can therefore not be asked for by name. *)
Theorem X10_unusable_preference_is_ignored (w : World)
  (preferredServer : option string)
  (Hreach : reachable w)
  (Hunusable : preferredServer = None ∨ preferredServer = Some "" ∨
               ∃ url, preferredServer = Some url ∧ Some url ∉ registered w) :
  selectServer preferredServer w = chooseContentServer w.
Proof.
  destruct (reachable_registry_ok w Hreach) as [_ Hnone].
  destruct (chooseContentServer_pure w) as [c Hc].
  unfold selectServer.
  destruct Hunusable as [->|[->|(url & -> & Habsent)]].
  - cbn [truthy]. js_unfold. cbn. by rewrite Hc.
  - cbn [truthy]. js_unfold. cbn. by rewrite Hc.
  - destruct (truthy (Some url)) as [u|] eqn:Ht.
    + assert (u = url) as ->.
      { destruct url as [|a s]; cbn in Ht; congruence. }
      js_unfold. rewrite (findContentServer_run url w Hnone).
      apply firstWithUrl_None in Habsent. rewrite Habsent. cbn. by rewrite Hc.
    + js_unfold. cbn. by rewrite Hc.
Qed.

Lemma X10_witness :
  let w := after Scenario.busy newContentServer in
  reachable w ∧
  selectServer (Some "C") w = (Normal (Some 1%nat), w, []).
Proof.
  cbv zeta.
  assert (reachable (after Scenario.busy newContentServer)) as Hreach
    by (by eexists).
  split; [exact Hreach |].
  rewrite (X10_unusable_preference_is_ignored _ (Some "C") Hreach).
  - vm_compute. reflexivity.
  - right. right. exists "C". split; [reflexivity |].
    vm_compute. intros H. repeat (apply elem_of_cons in H as [H|H]; [discriminate |]).
    by apply elem_of_nil in H.
Defined.

(** * The life of a request *)

Lemma same_request_refl q : same_request q q.
Proof. split; try done. exists []. by rewrite app_nil_r. Qed.

Lemma same_request_trans q1 q2 q3 :
  same_request q1 q2 → same_request q2 q3 → same_request q1 q3.
Proof.
  intros [] []. split; try congruence.
  destruct same_emitted0 as [m1 H1], same_emitted1 as [m2 H2].
  exists (m1 ++ m2). by rewrite H2, H1, app_assoc.
Qed.

Lemma same_request_alter (h : list ResourceRequest) f rid rid' q :
  keeps f → h !! rid = Some q →
  ∃ q', alter f rid' h !! rid = Some q' ∧ same_request q q'.
Proof.
  intros Hf Hq. destruct (decide (rid = rid')) as [->|Hne].
  - exists (f q). rewrite list_lookup_alter_eq, Hq. split; [done | apply Hf].
  - exists q. rewrite list_lookup_alter_ne by done.
    split; [done | apply same_request_refl].
Qed.

Lemma step_same_request e w rid q :
  world_ok w → requests w !! rid = Some q →
  ∃ q', requests (step e w).1 !! rid = Some q' ∧ same_request q q'.
Proof.
  intros Hok Hq. rewrite step_world.
  assert (∃ q', requests w !! rid = Some q' ∧ same_request q q') as Hsame
    by (exists q; split; [done | apply same_request_refl]).
  destruct e as [u|u|n|n|args|sid|sid err|sid legacy|sid|sid err|sid|rid0 result|rid0|rid0 info|rid0 status statusText response total now|rid0 statusText|rid0|rid0|rid0].
  1: { cbn [handle]. by destruct (addContentServer_run u w) as [[c ->]| ->]. }
  1: { cbn [handle]. destruct (removeContentServer_frame u w)
         as (c & w' & -> & _ & _ & Hreq & _). cbn. by rewrite Hreq. }
  all: apply (handle_cases
                (λ w', ∃ q', requests w' !! rid = Some q' ∧ same_request q q'));
    try done; cbn.
  all: try (intros; by apply same_request_alter).
  all: intros; exists q; split;
    [by apply lookup_app_l_Some | apply same_request_refl].
Qed.

Lemma after_same_request events w rid q :
  world_ok w → requests w !! rid = Some q →
  ∃ q', requests (after events w) !! rid = Some q' ∧ same_request q q'.
Proof.
  revert w q. induction events as [|e events IH]; intros w q Hok Hq.
  - exists q. split; [done | apply same_request_refl].
  - rewrite after_cons.
    destruct (step_same_request e w rid q Hok Hq) as (q1 & Hq1 & Hsame1).
    destruct (IH _ q1 (step_ok e w Hok) Hq1) as (q2 & Hq2 & Hsame2).
    exists q2. split; [done | by eapply same_request_trans].
Qed.

(** X11: a request object is never dropped, replaced or rebound.
    Whatever happens after it was made, the request is still there
    under the same identity with the same resource name, URL, response
    type, data store, server record and client request id; it stays
    started, and the events it has emitted are only added to. *)
Theorem X11_request_keeps_its_identity (w : World) (events : list Event)
  (rid : nat) (q : ResourceRequest)
  (Hreach : reachable w)
  (Hq : requests w !! rid = Some q) :
  ∃ q', requests (after events w) !! rid = Some q' ∧ same_request q q'.
Proof. apply after_same_request; [by apply reachable_ok | done]. Qed.

Lemma X11_witness :
  let w := after Scenario.downloading newContentServer in
  let events := [RemoveServer ""; DeleteCache "assets";
                 OnXhrError 0 "timeout"; AddServer ""] in
  reachable w ∧
  ∃ q q', requests w !! 0%nat = Some q ∧
          requests (after events w) !! 0%nat = Some q' ∧
          same_request q q' ∧ emitted q = [] ∧ emitted q' = ["error"].
Proof.
  cbv zeta.
  assert (reachable (after Scenario.downloading newContentServer)) as Hreach
    by (by eexists).
  split; [exact Hreach |].
  edestruct X11_request_keeps_its_identity
    with (w := after Scenario.downloading newContentServer)
         (events := [RemoveServer ""; DeleteCache "assets";
                     OnXhrError 0 "timeout"; AddServer ""])
         (rid := 0%nat)
    as (q' & Hq' & Hsame); [exact Hreach | vm_compute; reflexivity |].
  eexists _, q'. split; [vm_compute; reflexivity |].
  split; [exact Hq' |]. split; [exact Hsame |]. split; [reflexivity |].
  vm_compute in Hq'. injection Hq' as <-. reflexivity.
Defined.

Lemma step_tagged e w rid q :
  world_ok w → requests w !! rid = Some q → eventRequest e = Some rid →
  tagged (clientId q) (step e w).2.
Proof.
  intros Hok Hq He.
  assert (tagged (clientId q) (handle e w).2) as Hh.
  { apply (request_event_run (λ t, tagged (clientId q) t.2) e w rid Hok He);
      cbn.
    - solve_tagged.
    - intros q0 c f o Hq0 _ _ Ho. rewrite Hq in Hq0. by injection Hq0 as <-.
    - intros q0 r f o Hq0 _ _ _ Ho. rewrite Hq in Hq0. by injection Hq0 as <-. }
  unfold step. destruct (handle e w) as [[[u|x] w'] o]; [exact Hh |].
  intros o' id Ho Hid. apply elem_of_app in Ho as [Ho|Ho].
  - by apply (Hh o').
  - apply elem_of_cons in Ho as [->|Ho]; [discriminate |].
    by apply elem_of_nil in Ho.
Qed.

Lemma created_request args w q :
  world_ok w →
  requests (step (RequestResource args) w).1 !! length (requests w) = Some q →
  key q = resourceName args ∧ clientId q = requestId args ∧
  type q = default "arraybuffer" (truthy (responseType args)) ∧
  started q = true ∧ emitted q = [].
Proof.
  intros Hok. rewrite step_world.
  assert ((handle (RequestResource args) w).1.2 = (requestResource args w).1.2)
    as ->.
  { cbn. js_unfold. by destruct (requestResource args w) as [[[]]]. }
  apply (requestResource_cases
           (λ w', requests w' !! length (requests w) = Some q → _)); [done | |].
  - intros Hq. apply lookup_lt_Some in Hq. lia.
  - intros sid r x op Hx. cbn. rewrite list_lookup_middle by done.
    intros [= <-]. done.
Qed.

(** X12: the request id of a call of requestResource comes back with
    every notification about the request the call made: whatever
    happens in between, the PROGRESS, RESOURCE_DATA and error messages
    that a callback of that request sends all carry that id. *)
Theorem X12_notifications_carry_the_request_id (w : World) (args : Args)
  (events : list Event) (e : Event) (q : ResourceRequest)
  (Hreach : reachable w)
  (Hcreated : requests (step (RequestResource args) w).1 !! length (requests w)
              = Some q)
  (Hevent : eventRequest e = Some (length (requests w))) :
  tagged (requestId args)
    (step e (after events (step (RequestResource args) w).1)).2.
Proof.
  pose proof (reachable_ok w Hreach) as Hok.
  pose proof (step_ok (RequestResource args) w Hok) as Hok1.
  destruct (created_request args w q Hok Hcreated) as (_ & Hid & _).
  destruct (after_same_request events _ _ q Hok1 Hcreated) as (q' & Hq' & Hsame).
  rewrite <- Hid, <- (same_clientId q q' Hsame).
  eapply step_tagged; [by apply after_ok | exact Hq' | exact Hevent].
Qed.

Lemma X12_witness :
  let w := after Scenario.cacheReady newContentServer in
  let args := mkArgs (VString "r7") "assets" None "x.bin" None None in
  reachable w ∧
  (step (OnXhrError 0 "timeout")
     (after [OnGetSuccess 0 VUndefined; OnXhrProgress 0 VUndefined]
        (step (RequestResource args) w).1)).2
  = [EmitError (VString "timeout") (VString "r7")] ∧
  tagged (VString "r7")
    (step (OnXhrError 0 "timeout")
       (after [OnGetSuccess 0 VUndefined; OnXhrProgress 0 VUndefined]
          (step (RequestResource args) w).1)).2.
Proof.
  cbv zeta.
  assert (reachable (after Scenario.cacheReady newContentServer)) as Hreach
    by (by eexists).
  split; [exact Hreach |]. split; [vm_compute; reflexivity |].
  eapply (X12_notifications_carry_the_request_id _
            (mkArgs (VString "r7") "assets" None "x.bin" None None)
            [OnGetSuccess 0 VUndefined; OnXhrProgress 0 VUndefined]
            (OnXhrError 0 "timeout") _ Hreach).
  - vm_compute. reflexivity.
  - vm_compute. reflexivity.
Defined.

Lemma alter_started (h : list ResourceRequest) f rid' :
  keeps f → (∀ rid q, h !! rid = Some q → started q = true) →
  ∀ rid q, alter f rid' h !! rid = Some q → started q = true.
Proof.
  intros Hf Hall rid q Hq. destruct (decide (rid = rid')) as [->|Hne].
  - rewrite list_lookup_alter_eq in Hq.
    destruct (h !! rid') as [q0|] eqn:Hq0; [| done]. injection Hq as <-.
    rewrite (same_started _ _ (Hf q0)). by eapply Hall.
  - rewrite list_lookup_alter_ne in Hq by done. by eapply Hall.
Qed.

Lemma step_all_started e w :
  world_ok w → all_started w → all_started (step e w).1.
Proof.
  intros Hok Hall. rewrite step_world.
  destruct e as [u|u|n|n|args|sid|sid err|sid legacy|sid|sid err|sid|rid0 result|rid0|rid0 info|rid0 status statusText response total now|rid0 statusText|rid0|rid0|rid0].
  1: { cbn [handle]. by destruct (addContentServer_run u w) as [[c ->]| ->]. }
  1: { cbn [handle]. destruct (removeContentServer_frame u w)
         as (c & w' & -> & _ & _ & Hreq & _).
       unfold all_started. cbn. by rewrite Hreq. }
  all: apply (handle_cases all_started); try done; unfold all_started; cbn.
  all: try (intros; eapply alter_started; eauto; fail).
  all: intros args' sid' r x op _ _ rid q Hq;
    apply lookup_app_Some in Hq as [Hq|[_ Hq]]; [by eapply Hall |];
    apply list_lookup_singleton_Some in Hq as [_ <-]; done.
Qed.

Lemma reachable_all_started w : reachable w → all_started w.
Proof.
  intros [events <-].
  assert (∀ w, world_ok w → all_started w → all_started (after events w)) as H.
  { induction events as [|e events IH]; intros w Hok Hall; [done |].
    rewrite after_cons. apply IH; [by apply step_ok | by apply step_all_started]. }
  apply H; [apply newContentServer_ok |]. intros rid q Hq. done.
Qed.

(** X13: every request of the content server has been started, and
    start() on a started request does nothing: it sends nothing, queries
    no cache and begins no download, whatever its argument. *)
Theorem X13_start_runs_once (w : World) (rid : nat) (q : ResourceRequest)
  (checkCache : option bool)
  (Hreach : reachable w)
  (Hq : requests w !! rid = Some q) :
  started q = true ∧ start rid checkCache w = (Normal tt, w, []).
Proof.
  pose proof (reachable_all_started w Hreach rid q Hq) as Hstarted.
  split; [done |]. unfold start. js_unfold. cbn. rewrite Hq. cbn.
  by rewrite Hstarted.
Qed.

Lemma X13_witness :
  let w := after Scenario.downloading newContentServer in
  reachable w ∧ start 0 (Some false) w = (Normal tt, w, []).
Proof.
  cbv zeta.
  assert (reachable (after Scenario.downloading newContentServer)) as Hreach
    by (by eexists).
  split; [exact Hreach |].
  edestruct X13_start_runs_once
    with (w := after Scenario.downloading newContentServer) (rid := 0%nat)
         (checkCache := Some false)
    as [_ Hstart]; [exact Hreach | vm_compute; reflexivity | exact Hstart].
Defined.

(** * The invariant of the caches *)

Lemma caches_ok_frame w w' :
  stores w' = stores w → dataStores w' = dataStores w →
  caches_ok w → caches_ok w'.
Proof. intros Hst Hds [H1 H2]. split; rewrite ?Hst, ?Hds; done. Qed.

Lemma caches_ok_alter w sid st f :
  caches_ok w → stores w !! sid = Some st →
  store_ok (f st) → (ready st = true → ready (f st) = true) →
  caches_ok (setStores (alter f sid) w).
Proof.
  intros [H1 H2] Hst Hf Hready. split; cbn.
  - intros sid' st' Hst'. destruct (decide (sid' = sid)) as [->|Hne].
    + rewrite list_lookup_alter_eq, Hst in Hst'. by injection Hst' as <-.
    + rewrite list_lookup_alter_ne in Hst' by done. by eapply H1.
  - intros n sid' st' Hn Hst'. destruct (decide (sid' = sid)) as [->|Hne].
    + rewrite list_lookup_alter_eq, Hst in Hst'. injection Hst' as <-.
      apply Hready. by eapply H2.
    + rewrite list_lookup_alter_ne in Hst' by done. by eapply H2.
Qed.

Lemma caches_ok_ready w sid st f n :
  caches_ok w → stores w !! sid = Some st →
  store_ok (f st) → ready (f st) = true →
  caches_ok (setDataStores <[n := sid]> (setStores (alter f sid) w)).
Proof.
  intros [H1 H2] Hst Hf Hready. split; cbn.
  - intros sid' st' Hst'. destruct (decide (sid' = sid)) as [->|Hne].
    + rewrite list_lookup_alter_eq, Hst in Hst'. by injection Hst' as <-.
    + rewrite list_lookup_alter_ne in Hst' by done. by eapply H1.
  - intros n' sid' st' Hn Hst'. destruct (decide (sid' = sid)) as [->|Hne].
    + rewrite list_lookup_alter_eq, Hst in Hst'. by injection Hst' as <-.
    + rewrite list_lookup_alter_ne in Hst' by done.
      apply lookup_insert_Some in Hn as [[_ ?]|[_ Hn]]; [congruence |].
      by eapply H2.
Qed.

Lemma caches_ok_closing w sid st :
  world_ok w → caches_ok w → stores w !! sid = Some st → ready st = true →
  caches_ok (setDataStores (delete (name st)) (setStores (alter closed sid) w)).
Proof.
  intros Hok [H1 H2] Hst Hready.
  destruct (H1 sid st Hst) as [Hro _]. destruct (Hro Hready) as [Hdb Hidle].
  split; cbn.
  - intros sid' st' Hst'. destruct (decide (sid' = sid)) as [->|Hne].
    + rewrite list_lookup_alter_eq, Hst in Hst'. injection Hst' as <-.
      unfold closed. rewrite Hdb. split; cbn; [done |].
      rewrite Hidle. by intros [|].
    + rewrite list_lookup_alter_ne in Hst' by done. by eapply H1.
  - intros n sid' st' Hn Hst'. apply lookup_delete_Some in Hn as [Hne Hn].
    destruct (decide (sid' = sid)) as [->|Hsid].
    + destruct (ok_dataStores _ Hok _ _ Hn) as (st0 & Hst0 & Hname).
      congruence.
    + rewrite list_lookup_alter_ne in Hst' by done. by eapply H2.
Qed.

Lemma caches_ok_new w n :
  world_ok w → caches_ok w →
  caches_ok (setStores (λ h, h ++ [newStore n]) w).
Proof.
  intros Hok [H1 H2]. split; cbn.
  - intros sid st Hst. apply lookup_app_Some in Hst as [Hst|[_ Hst]].
    + by eapply H1.
    + apply list_lookup_singleton_Some in Hst as [_ <-].
      split; cbn; [done |]. by intros [|].
  - intros n' sid st Hn Hst.
    destruct (ok_dataStores _ Hok _ _ Hn) as (st0 & Hst0 & _).
    rewrite (lookup_app_l_Some _ _ _ _ Hst0) in Hst. injection Hst as <-.
    by eapply H2.
Qed.

Lemma store_event_caches_ok w sid :
  world_ok w → caches_ok w →
  caches_ok (handle (OnUpgradeNeeded sid) w).1.2 ∧
  (∀ err, caches_ok (handle (OnOpenError sid err) w).1.2) ∧
  (∀ legacy, caches_ok (handle (OnOpenSuccess sid legacy) w).1.2) ∧
  caches_ok (handle (OnSetVersionSuccess sid) w).1.2 ∧
  (∀ err, caches_ok (handle (OnSetVersionError sid err) w).1.2) ∧
  caches_ok (handle (OnVersionChangeComplete sid) w).1.2.
Proof.
  intros Hok Hc.
  destruct (stores w !! sid) as [st|] eqn:Hst.
  2: { split_cases; idle_store_event Hst Hst. }
  pose proof (ok_stores _ Hok _ _ Hst) as Hsub.
  destruct (caches_stores _ Hc _ _ Hst) as [Hro Huo].
  assert (spending st ≠ Idle → ready st = false) as Hbusy.
  { intros Hne. destruct (ready st); [| done]. by destruct Hro. }
  destruct (spending st) eqn:Hp.
  - split_cases; idle_store_event Hst Hp.
  - specialize (Hbusy ltac:(discriminate)).
    split_cases; try idle_store_event Hst Hp.
    + rewrite (handle_upgradeNeeded w sid st Hst Hp). cbn.
      apply (caches_ok_alter w sid st); try done.
      all: try (split; cbn; rewrite ?Hbusy, ?Hp; try done; by intros [|]).
    + rewrite (handle_openError w sid st Hst Hsub err Hp). cbn.
      apply (caches_ok_alter w sid st); try done.
      all: try (split; cbn; rewrite ?Hbusy; try done; by intros [|]).
    + destruct legacy.
      * rewrite (handle_openSuccess_legacy w sid st Hst Hp). cbn.
        apply (caches_ok_alter w sid st); try done.
        all: try (split; cbn; rewrite ?Hbusy; done).
      * rewrite (handle_openSuccess_ready w sid st Hst Hsub Hp). cbn.
        apply (caches_ok_ready w sid st); try done.
        all: try (split; cbn; try done; by intros [|]).
  - specialize (Hbusy ltac:(discriminate)).
    split_cases; try idle_store_event Hst Hp.
    + rewrite (handle_setVersionSuccess w sid st Hst Hp). cbn.
      apply (caches_ok_alter w sid st); try done.
      split; cbn; rewrite ?Hbusy; try done. intros _. apply Huo. by left.
    + rewrite (handle_setVersionError w sid st Hst Hsub err Hp). cbn.
      apply (caches_ok_alter w sid st); try done.
      all: try (split; cbn; rewrite ?Hbusy; try done; by intros [|]).
  - specialize (Hbusy ltac:(discriminate)).
    split_cases; try idle_store_event Hst Hp.
    rewrite (handle_versionChangeComplete w sid st Hst Hsub Hp). cbn.
    apply (caches_ok_ready w sid st); try done.
    split; cbn.
    + intros _. split; [| done]. apply Huo. by right.
    + by intros [|].
Qed.

Lemma handle_caches_ok e w :
  world_ok w → caches_ok w → caches_ok (handle e w).1.2.
Proof.
  intros Hok Hc.
  destruct e as [u|u|n|n|args|sid|sid err|sid legacy|sid|sid err|sid|rid result|rid|rid info|rid status statusText response total now|rid statusText|rid|rid|rid].
  - cbn [handle].
    destruct (addContentServer_run u w) as [[c ->]| ->];
      [done | by apply (caches_ok_frame w)].
  - cbn [handle]. destruct (removeContentServer_frame u w)
      as (c & w' & -> & Hrec & Hst & Hreq & Hds).
    by apply (caches_ok_frame w).
  - cbn [handle]. rewrite createDataStore_run.
    destruct (dataStores w !! n); [done |].
    destruct (inherited n) eqn:Hown; [done |]. by apply caches_ok_new.
  - cbn [handle]. destruct (dataStores w !! n) as [sid|] eqn:Hn.
    + destruct (ok_dataStores _ Hok _ _ Hn) as (st & Hst & Hname).
      pose proof (ok_stores _ Hok _ _ Hst) as Hsub.
      rewrite (deleteDataStore_close w n sid st Hn Hst Hsub).
      destruct (ready st) eqn:Hready; [| done].
      by apply caches_ok_closing.
    + rewrite (deleteDataStore_run w n Hn). by destruct (inherited n).
  - destruct (requestResource_frame args w Hok) as [Hst Hds].
    cbn. js_unfold. destruct (requestResource args w) as [[[]]];
      by apply (caches_ok_frame w).
  - by apply (store_event_caches_ok w sid Hok).
  - by apply (store_event_caches_ok w sid Hok).
  - by apply (store_event_caches_ok w sid Hok).
  - by apply (store_event_caches_ok w sid Hok).
  - by apply (store_event_caches_ok w sid Hok).
  - by apply (store_event_caches_ok w sid Hok).
  - apply (request_event_cases caches_ok) with (rid := rid);
      [done | done | ..];
      intros; by apply (caches_ok_frame w).
  - apply (request_event_cases caches_ok) with (rid := rid);
      [done | done | ..];
      intros; by apply (caches_ok_frame w).
  - apply (request_event_cases caches_ok) with (rid := rid);
      [done | done | ..];
      intros; by apply (caches_ok_frame w).
  - apply (request_event_cases caches_ok) with (rid := rid);
      [done | done | ..];
      intros; by apply (caches_ok_frame w).
  - apply (request_event_cases caches_ok) with (rid := rid);
      [done | done | ..];
      intros; by apply (caches_ok_frame w).
  - apply (request_event_cases caches_ok) with (rid := rid);
      [done | done | ..];
      intros; by apply (caches_ok_frame w).
  - apply (request_event_cases caches_ok) with (rid := rid);
      [done | done | ..];
      intros; by apply (caches_ok_frame w).
  - apply (request_event_cases caches_ok) with (rid := rid);
      [done | done | ..];
      intros; by apply (caches_ok_frame w).
Qed.

Lemma reachable_caches_ok w : reachable w → caches_ok w.
Proof.
  intros [events <-].
  assert (∀ w, world_ok w → caches_ok w → caches_ok (after events w)) as H.
  { induction events as [|e events IH]; intros w Hok Hc; [done |].
    rewrite after_cons. apply IH; [by apply step_ok |].
    rewrite step_world. by apply handle_caches_ok. }
  apply H; [apply newContentServer_ok |]. split.
  - intros sid st Hst. done.
  - intros n sid st Hn. done.
Qed.

Lemma mapped_store w n sid :
  world_ok w → caches_ok w → dataStores w !! n = Some sid →
  ∃ st, stores w !! sid = Some st ∧ name st = n ∧ ready st = true ∧
        db st = Some (mkDb false) ∧ spending st = Idle ∧
        transactionOutcome w sid = None.
Proof.
  intros Hok Hc Hn.
  destruct (ok_dataStores _ Hok _ _ Hn) as (st & Hst & Hname).
  pose proof (caches_ready _ Hc _ _ _ Hn Hst) as Hready.
  destruct (ready_open _ (caches_stores _ Hc _ _ Hst) Hready) as [Hdb Hidle].
  exists st. repeat split; try done.
  unfold transactionOutcome. by rewrite Hst, Hdb.
Qed.

(** X14: every cache in the map of data stores is usable. The entry for
    a name is a data store of that name that is ready, has an open
    connection to its database and no request of its opening
    outstanding: requestResource accepts it, and a transaction on it can
    be made. *)
Theorem X14_mapped_caches_are_usable (w : World) (n : string) (sid : nat)
  (Hreach : reachable w)
  (Hn : dataStores w !! n = Some sid) :
  ∃ st, stores w !! sid = Some st ∧ name st = n ∧ ready st = true ∧
        db st = Some (mkDb false) ∧ spending st = Idle ∧
        transaction sid w = (Normal tt, w, []) ∧
        readyStore (dataStores w !! n) w = (Normal (Some sid), w, []).
Proof.
  destruct (mapped_store w n sid (reachable_ok w Hreach)
              (reachable_caches_ok w Hreach) Hn)
    as (st & Hst & Hname & Hready & Hdb & Hidle & _).
  exists st. repeat split; try done.
  - unfold transaction. js_unfold. cbn. by rewrite Hst; cbn; rewrite Hdb.
  - by rewrite (readyStore_run w n sid st Hn Hst), Hready.
Qed.

Lemma X14_witness :
  let w := after (Scenario.cacheReady ++
                  [OpenCache "textures"; DeleteCache "assets";
                   OpenCache "assets"; OnOpenSuccess 1 true;
                   OnOpenSuccess 2 false; OnSetVersionSuccess 1;
                   OnVersionChangeComplete 1]) newContentServer in
  reachable w ∧
  dataStores w !! "textures" = Some 1%nat ∧
  dataStores w !! "assets" = Some 2%nat ∧
  ∃ st, stores w !! 1%nat = Some st ∧ name st = "textures" ∧ ready st = true.
Proof.
  cbv zeta.
  assert (reachable (after (Scenario.cacheReady ++
                  [OpenCache "textures"; DeleteCache "assets";
                   OpenCache "assets"; OnOpenSuccess 1 true;
                   OnOpenSuccess 2 false; OnSetVersionSuccess 1;
                   OnVersionChangeComplete 1]) newContentServer)) as Hreach
    by (by eexists).
  split; [exact Hreach |]. split; [vm_compute; reflexivity |].
  split; [vm_compute; reflexivity |].
  edestruct X14_mapped_caches_are_usable
    with (w := after (Scenario.cacheReady ++
                  [OpenCache "textures"; DeleteCache "assets";
                   OpenCache "assets"; OnOpenSuccess 1 true;
                   OnOpenSuccess 2 false; OnSetVersionSuccess 1;
                   OnVersionChangeComplete 1]) newContentServer)
         (n := "textures") (sid := 1%nat)
    as (st & Hst & Hname & Hready & _); [exact Hreach | vm_compute; reflexivity |].
  exists st. split; [exact Hst |]. split; [exact Hname | exact Hready].
Defined.

Lemma selectServer_some w p r0 rest :
  world_ok w → registry_ok w → contentServers w = r0 :: rest →
  ∃ r x, selectServer p w = (Normal (Some r), w, []) ∧
         r ∈ contentServers w ∧ records w !! r = Some x.
Proof.
  intros Hok Hreg Hservers.
  destruct (chooseContentServer_some w r0 rest Hreg Hservers)
    as (r & x & Hchoose & Hr & Hx).
  destruct Hreg as [_ Hnone].
  unfold selectServer. destruct (truthy p) as [url|].
  - js_unfold. rewrite (findContentServer_run url w Hnone).
    destruct (firstWithUrl (records w) url (contentServers w)) as [r'|] eqn:Hf.
    + destruct (firstWithUrl_Some _ _ _ _ Hf) as (pre & post & Hl & _ & Hr').
      destruct (records w !! r') as [x'|] eqn:Hx'; [| done].
      exists r', x'. split; [done |]. split; [| done].
      rewrite Hl. apply elem_of_app. right. by left.
    + cbn. rewrite Hchoose. by exists r, x.
  - js_unfold. cbn. rewrite Hchoose. by exists r, x.
Qed.

Lemma requestResource_dispatches w args sid r0 rest :
  world_ok w → registry_ok w → caches_ok w →
  dataStores w !! cacheName args = Some sid →
  contentServers w = r0 :: rest →
  ∃ r x st,
    r ∈ contentServers w ∧ records w !! r = Some x ∧
    stores w !! sid = Some st ∧ name st = cacheName args ∧
    selectServer (preferredServer args) w = (Normal (Some r), w, []) ∧
    requestResource args w
    = if decide (returnCached args = Some false) then
        (Normal (Some (length (requests w))),
         dispatch r (newRequest args sid r (serverUrl x) XhrOp) w,
         [XhrSend "GET" (resourceUrl_of (serverUrl x) (resourceName args))
            (default "arraybuffer" (truthy (responseType args)))])
      else
        (Normal (Some (length (requests w))),
         dispatch r (newRequest args sid r (serverUrl x) GetOp) w,
         [IdbGet (name st) FILEDATA (resourceName args)]).
Proof.
  intros Hok Hreg Hc Hn Hservers.
  destruct (mapped_store w _ sid Hok Hc Hn)
    as (st & Hst & Hname & Hready & _ & _ & Htxn).
  destruct (selectServer_some w (preferredServer args) r0 rest Hok Hreg Hservers)
    as (r & x & Hsel & Hr & Hx).
  exists r, x, st. repeat split; try done.
  rewrite (requestResource_run args w sid st r x Hn Hst Hready Hsel Hx).
  by rewrite Htxn.
Qed.

(** X15: while the cache asked for is in the map of data stores and at
    least one server is registered, requestResource always dispatches:
    it returns a new request bound to a registered server, adds one to
    the load of that server and of no other, and begins exactly one
    operation: the download when returnCached is false, else the
    lookup in the cache. It sends no error and throws nothing. *)
Theorem X15_requestResource_dispatches (w : World) (args : Args) (sid r0 : nat)
  (rest : list nat)
  (Hreach : reachable w)
  (Hcache : dataStores w !! cacheName args = Some sid)
  (Hservers : contentServers w = r0 :: rest) :
  ∃ r x st op o,
    requestResource args w
    = (Normal (Some (length (requests w))),
       dispatch r (newRequest args sid r (serverUrl x) op) w, [o]) ∧
    r ∈ contentServers w ∧ records w !! r = Some x ∧
    stores w !! sid = Some st ∧
    ((returnCached args = Some false ∧ op = XhrOp ∧
      o = XhrSend "GET" (resourceUrl_of (serverUrl x) (resourceName args))
            (default "arraybuffer" (truthy (responseType args)))) ∨
     (returnCached args ≠ Some false ∧ op = GetOp ∧
      o = IdbGet (cacheName args) FILEDATA (resourceName args))).
Proof.
  destruct (requestResource_dispatches w args sid r0 rest
              (reachable_ok w Hreach) (reachable_registry_ok w Hreach)
              (reachable_caches_ok w Hreach) Hcache Hservers)
    as (r & x & st & Hr & Hx & Hst & Hname & _ & Hrun).
  destruct (decide (returnCached args = Some false)) as [Hrc|Hrc].
  - exists r, x, st, XhrOp. eexists. split; [exact Hrun |].
    repeat split; try done. by left.
  - exists r, x, st, GetOp. eexists. split; [exact Hrun |].
    repeat split; try done. right. by rewrite Hname.
Qed.

Lemma X15_witness :
  let w := after Scenario.busy newContentServer in
  reachable w ∧
  ∃ r x st op o,
    requestResource (Scenario.fetch "d") w
    = (Normal (Some 3%nat),
       dispatch r (newRequest (Scenario.fetch "d") 0 r (serverUrl x) op) w, [o]) ∧
    r ∈ contentServers w ∧ records w !! r = Some x ∧
    stores w !! 0%nat = Some st ∧
    ((returnCached (Scenario.fetch "d") = Some false ∧ op = XhrOp ∧
      o = XhrSend "GET" (resourceUrl_of (serverUrl x) "d") "arraybuffer") ∨
     (returnCached (Scenario.fetch "d") ≠ Some false ∧ op = GetOp ∧
      o = IdbGet "assets" FILEDATA "d")).
Proof.
  cbv zeta.
  assert (reachable (after Scenario.busy newContentServer)) as Hreach
    by (by eexists).
  split; [exact Hreach |].
  apply (X15_requestResource_dispatches _ (Scenario.fetch "d") 0%nat 1%nat
           [2%nat] Hreach); vm_compute; reflexivity.
Defined.

(** * A request from the call to the answer *)

Lemma step_handle e w u w' o :
  handle e w = (Normal u, w', o) → step e w = (w', o).
Proof. intros H. unfold step. by rewrite H. Qed.

Lemma step_requestResource args w v w' o :
  requestResource args w = (Normal v, w', o) →
  step (RequestResource args) w = (w', o).
Proof.
  intros H. unfold step. cbn [handle]. js_unfold. rewrite H. cbn.
  by rewrite app_nil_r.
Qed.

Lemma addLoad_back r (h : list ServerRecord) :
  alter (addLoad (-1)) r (alter (addLoad 1) r h) = h.
Proof.
  rewrite alter_twice. apply list_eq. intros i.
  destruct (decide (i = r)) as [->|Hne].
  - rewrite list_lookup_alter_eq. destruct (h !! r) as [[u l]|]; [| done].
    cbn. unfold addLoad. cbn. do 2 f_equal. lia.
  - by rewrite list_lookup_alter_ne.
Qed.

Lemma transactionOutcome_frame w w' sid :
  stores w' = stores w → transactionOutcome w' sid = transactionOutcome w sid.
Proof. intros H. unfold transactionOutcome. by rewrite H. Qed.



(** X17: a request that is answered from the cache, from the call to
    the answer. With the cache in the map and a server registered, a
    call of requestResource that may use the cache, followed by the
    cache returning a value for the key, makes the content server read
    the key and send one RESOURCE_DATA message with the id of the call
    and the cached value. Nothing is downloaded and nothing is written,
    although the message names the URL of the server the request was
    bound to, and the loads of all servers are then what they were
    before the call. *)
Theorem X17_cache_hit_round_trip (w : World) (args : Args) (sid r0 : nat)
  (rest : list nat) (cached : Value)
  (Hreach : reachable w)
  (Hcache : dataStores w !! cacheName args = Some sid)
  (Hservers : contentServers w = r0 :: rest)
  (Hcached : returnCached args ≠ Some false)
  (Hhit : cached ≠ VUndefined) :
  ∃ r x,
    selectServer (preferredServer args) w = (Normal (Some r), w, []) ∧
    records w !! r = Some x ∧
    outputs [RequestResource args; OnGetSuccess (length (requests w)) cached] w
    = [IdbGet (cacheName args) FILEDATA (resourceName args);
       EmitMessage
         (RESOURCE_DATA (requestId args)
            (resourceUrl_of (serverUrl x) (resourceName args))
            (resourceName args) cached
            (default "arraybuffer" (truthy (responseType args))))] ∧
    records (after [RequestResource args;
                    OnGetSuccess (length (requests w)) cached] w)
    = records w.
Proof.
  pose proof (reachable_ok w Hreach) as Hok.
  destruct (requestResource_dispatches w args sid r0 rest Hok
              (reachable_registry_ok w Hreach)
              (reachable_caches_ok w Hreach) Hcache Hservers)
    as (r & x & st & Hr & Hx & Hst & Hname & Hsel & Hrun).
  rewrite decide_False in Hrun by done.
  exists r, x. split; [done |]. split; [done |].
  set (rid := length (requests w)) in *.
  set (q0 := newRequest args sid r (serverUrl x) GetOp) in *.
  set (w1 := dispatch r q0 w) in *.
  apply step_requestResource in Hrun.
  assert (requests w1 !! rid = Some q0) as Hq0
    by (cbn; by rewrite list_lookup_middle).
  pose proof (handle_getSuccess_hit w1 rid q0 Hq0 r cached eq_refl
                subscribed_on eq_refl Hhit) as Hget.
  apply step_handle in Hget.
  split.
  - rewrite !outputs_cons, Hrun. cbn [fst snd].
    rewrite Hget. cbn [fst snd]. unfold outputs. cbn [run fst snd].
    cbn [app]. by rewrite Hname.
  - rewrite !after_cons, Hrun. cbn [fst snd].
    rewrite Hget. cbn [fst snd]. unfold after. cbn [run fst snd].
    cbn. apply addLoad_back.
Qed.

Lemma X17_witness :
  let w := after Scenario.busy newContentServer in
  let args := mkArgs (VNumber 9) "assets" (Some "B") "d" (Some "text") None in
  reachable w ∧
  outputs [RequestResource args; OnGetSuccess 3 (VString "cached")] w
  = [IdbGet "assets" FILEDATA "d";
     EmitMessage (RESOURCE_DATA (VNumber 9) "B/d" "d" (VString "cached") "text")].
Proof.
  cbv zeta.
  assert (reachable (after Scenario.busy newContentServer)) as Hreach
    by (by eexists).
  split; [exact Hreach |].
  edestruct X17_cache_hit_round_trip
    with (w := after Scenario.busy newContentServer)
         (args := mkArgs (VNumber 9) "assets" (Some "B") "d" (Some "text") None)
         (sid := 0%nat) (r0 := 1%nat) (rest := [2%nat])
         (cached := VString "cached")
    as (r & x & Hsel & Hx & Hout & _).
  - exact Hreach.
  - vm_compute. reflexivity.
  - vm_compute. reflexivity.
  - discriminate.
  - discriminate.
  - vm_compute in Hsel. injection Hsel as <-.
    vm_compute in Hx. injection Hx as <-.
    vm_compute. reflexivity.
Defined.

(** X18: a download that fails is reported once and not retried. For a
    request that is downloading, a transport error and a response with a
    status outside 200..299 both make the content server send exactly
    one error with the status text and the request id of the request:
    no other server is tried and nothing is written to the cache. The
    load of the request's server goes down by one, the request has
    emitted "error" and waits for nothing more. *)
Theorem X18_failed_download_is_reported_once (w : World) (rid : nat)
  (q : ResourceRequest) (e : Event)
  (status : Z) (statusText : string) (response : Value) (total now : Z)
  (Hreach : reachable w)
  (Hq : requests w !! rid = Some q)
  (Hdownloading : pending q = XhrOp)
  (Hfailure : e = OnXhrError rid statusText ∨
              (e = OnXhrLoad rid status statusText response total now ∧
               ¬ (200 ≤ status < 300))) :
  ∃ r x q',
    server q = Some r ∧ records w !! r = Some x ∧
    (step e w).2 = [EmitError (VString statusText) (clientId q)] ∧
    records (step e w).1 = alter (addLoad (-1)) r (records w) ∧
    records (step e w).1 !! r = Some (mkServerRecord (serverUrl x) (loadValue x - 1)) ∧
    stores (step e w).1 = stores w ∧
    dataStores (step e w).1 = dataStores w ∧
    requests (step e w).1 !! rid = Some q' ∧
    pending q' = NoOp ∧ emitted q' = emitted q ++ ["error"].
Proof.
  pose proof (reachable_ok w Hreach) as Hok.
  destruct (ok_requests _ Hok _ _ Hq) as [(r & x & Hs & Hx & _) Hsub].
  assert (step e w
          = (setRecords (alter (addLoad (-1)) r)
               (setRequests (alter (completed "error" ∘ setPending NoOp) rid) w),
             [EmitError (VString statusText) (clientId q)])) as Hstep.
  { destruct Hfailure as [-> | [-> Hstatus]]; apply (step_handle _ _ tt).
    - by apply (handle_xhrError w rid q Hq r statusText).
    - by apply (handle_xhrLoad_fail w rid q Hq r). }
  rewrite Hstep. cbn [fst snd].
  exists r, x, ((completed "error" ∘ setPending NoOp) q).
  repeat split; try done.
  - cbn. by rewrite list_lookup_alter_eq, Hx.
  - cbn. by rewrite list_lookup_alter_eq, Hq.
Qed.

Lemma X18_witness :
  let w := after Scenario.downloading newContentServer in
  reachable w ∧
  step (OnXhrLoad 0 404 "Not Found" (VString "page") 4 1000) w
  = (after (Scenario.downloading
            ++ [OnXhrLoad 0 404 "Not Found" (VString "page") 4 1000])
       newContentServer,
     [EmitError (VString "Not Found") (VNumber 1)]) ∧
  ∃ r x q', records w !! r = Some x ∧ loadValue x = 1 ∧
    records (step (OnXhrLoad 0 404 "Not Found" (VString "page") 4 1000) w).1 !! r
    = Some (mkServerRecord (serverUrl x) (loadValue x - 1)) ∧
    requests (step (OnXhrLoad 0 404 "Not Found" (VString "page") 4 1000) w).1
      !! 0%nat = Some q' ∧
    pending q' = NoOp.
Proof.
  cbv zeta.
  assert (reachable (after Scenario.downloading newContentServer)) as Hreach
    by (by eexists).
  split; [exact Hreach |]. split; [vm_compute; reflexivity |].
  edestruct X18_failed_download_is_reported_once
    with (w := after Scenario.downloading newContentServer) (rid := 0%nat)
         (e := OnXhrLoad 0 404 "Not Found" (VString "page") 4 1000)
         (status := 404) (statusText := "Not Found")
         (response := VString "page") (total := 4) (now := 1000)
    as (r & x & q' & Hs & Hx & _ & _ & Hload & _ & _ & Hq' & Hp & _).
  - exact Hreach.
  - vm_compute. reflexivity.
  - vm_compute. reflexivity.
  - right. split; [reflexivity | lia].
  - exists r, x, q'. split; [exact Hx |]. split.
    + vm_compute in Hs. injection Hs as <-.
      vm_compute in Hx. injection Hx as <-. reflexivity.
    + split; [exact Hload |]. split; [exact Hq' | exact Hp].
Defined.

(** X19: progress of a download is passed on and ends nothing. For a
    request that is downloading, a progress event makes the content
    server send exactly one PROGRESS message with the request id of the
    request: with the quotient of loaded and total when the event has a
    computable length, and with 99 for every other event, a missing one
    included. The loads, the data stores and the request's outstanding
    download stay as they are. *)
Theorem X19_progress_is_passed_on (w : World) (rid : nat) (q : ResourceRequest)
  (info : Value)
  (Hreach : reachable w)
  (Hq : requests w !! rid = Some q)
  (Hdownloading : pending q = XhrOp) :
  ∃ q' percent,
    (step (OnXhrProgress rid info) w).2
    = [EmitMessage (PROGRESS (clientId q) percent)] ∧
    (∀ loaded total, info = VProgressEvent true loaded total →
                     percent = Computed loaded total) ∧
    ((∀ loaded total, info ≠ VProgressEvent true loaded total) →
     percent = Fixed 99) ∧
    records (step (OnXhrProgress rid info) w).1 = records w ∧
    stores (step (OnXhrProgress rid info) w).1 = stores w ∧
    dataStores (step (OnXhrProgress rid info) w).1 = dataStores w ∧
    requests (step (OnXhrProgress rid info) w).1 !! rid = Some q' ∧
    pending q' = XhrOp ∧ emitted q' = emitted q ++ ["progress"].
Proof.
  pose proof (reachable_ok w Hreach) as Hok.
  destruct (ok_requests _ Hok _ _ Hq) as [_ Hsub].
  pose proof (handle_xhrProgress w rid q Hq info Hdownloading Hsub) as Hstep.
  apply step_handle in Hstep. rewrite Hstep. cbn [fst snd].
  exists (logEmitted "progress" q). eexists. split; [reflexivity |].
  repeat split; try done.
  - by intros loaded total ->.
  - intros Hnot. destruct info as [| | |[] loaded total]; try done.
    by destruct (Hnot loaded total).
  - cbn. by rewrite list_lookup_alter_eq, Hq.
Qed.

Lemma X19_witness :
  let w := after Scenario.downloading newContentServer in
  reachable w ∧
  (step (OnXhrProgress 0 VUndefined) w).2
  = [EmitMessage (PROGRESS (VNumber 1) (Fixed 99))] ∧
  records (step (OnXhrProgress 0 VUndefined) w).1 = records w.
Proof.
  cbv zeta.
  assert (reachable (after Scenario.downloading newContentServer)) as Hreach
    by (by eexists).
  split; [exact Hreach |]. split; [vm_compute; reflexivity |].
  edestruct X19_progress_is_passed_on
    with (w := after Scenario.downloading newContentServer) (rid := 0%nat)
         (info := VUndefined)
    as (q' & percent & _ & _ & _ & Hrec & _);
    [exact Hreach | vm_compute; reflexivity | vm_compute; reflexivity |].
  exact Hrec.
Defined.

(** * A cache from the call to the answer *)

Lemma outputs_nil w : outputs [] w = [].
Proof. reflexivity. Qed.

Lemma after_nil w : after [] w = w.
Proof. reflexivity. Qed.

Lemma opening_store w n :
  stores (setStores (λ h, h ++ [newStore n]) w) !! length (stores w)
  = Some (newStore n).
Proof. cbn. by rewrite list_lookup_middle. Qed.

Lemma alter_opening {A} (f : A → A) (l : list A) x :
  alter f (length l) (l ++ [x]) = l ++ [f x].
Proof. apply alter_snoc. Qed.

(** X20: a cache from createDataStore to CACHE_READY. For a name that
    Object.prototype does not define and that is not in the map of data
    stores, createDataStore opens the database
    with version 1; if the platform asks for an upgrade, the two object
    stores "metadata" and "filedata" are created; and when the open
    succeeds with the right version, the content server sends one
    CACHE_READY message with the name and the map holds the new data
    store under the name, ready and with an open connection. *)
Theorem X20_cache_opens (w : World) (n : string) (upgradeNeeded : bool)
  (Hown : inherited n = false)
  (Hnew : dataStores w !! n = None) :
  outputs (OpenCache n
           :: (if upgradeNeeded then [OnUpgradeNeeded (length (stores w))] else [])
           ++ [OnOpenSuccess (length (stores w)) false]) w
  = IdbOpen n 1
    :: (if upgradeNeeded
        then [IdbCreateObjectStore n "metadata"; IdbCreateObjectStore n "filedata"]
        else [])
    ++ [EmitMessage (CACHE_READY n)] ∧
  dataStores (after (OpenCache n
           :: (if upgradeNeeded then [OnUpgradeNeeded (length (stores w))] else [])
           ++ [OnOpenSuccess (length (stores w)) false]) w)
  = <[n := length (stores w)]> (dataStores w) ∧
  stores (after (OpenCache n
           :: (if upgradeNeeded then [OnUpgradeNeeded (length (stores w))] else [])
           ++ [OnOpenSuccess (length (stores w)) false]) w)
  = stores w ++ [opened (newStore n)].
Proof.
  set (sid := length (stores w)).
  pose proof (step_openCache w n Hnew Hown) as Hopen.
  set (w1 := setStores (λ h, h ++ [newStore n]) w) in *.
  pose proof (opening_store w n) as Hst. fold sid w1 in Hst.
  destruct upgradeNeeded; cbn [app].
  - pose proof (handle_upgradeNeeded w1 sid (newStore n) Hst eq_refl) as Hup.
    apply step_handle in Hup.
    set (w2 := setStores (alter (setDb (Some (mkDb false))) sid) w1) in *.
    assert (stores w2 !! sid = Some (setDb (Some (mkDb false)) (newStore n)))
      as Hst2 by (cbn; by rewrite list_lookup_alter_eq, list_lookup_middle).
    pose proof (handle_openSuccess_ready w2 sid _ Hst2 ssubscribed_on eq_refl)
      as Hready.
    apply step_handle in Hready.
    rewrite !outputs_cons, !after_cons, Hopen. cbn [fst snd].
    rewrite Hup. cbn [fst snd]. rewrite Hready. cbn [fst snd].
    rewrite outputs_nil, after_nil. repeat split; try done.
    cbn. unfold sid. by rewrite !alter_snoc.
  - pose proof (handle_openSuccess_ready w1 sid _ Hst ssubscribed_on eq_refl)
      as Hready.
    apply step_handle in Hready.
    rewrite !outputs_cons, !after_cons, Hopen. cbn [fst snd].
    rewrite Hready. cbn [fst snd].
    rewrite outputs_nil, after_nil. repeat split; try done.
    cbn. unfold sid. by rewrite !alter_snoc.
Qed.

Lemma X20_witness :
  let w := after Scenario.downloading newContentServer in
  reachable w ∧
  outputs [OpenCache "textures"; OnUpgradeNeeded 1; OnOpenSuccess 1 false] w
  = [IdbOpen "textures" 1; IdbCreateObjectStore "textures" "metadata";
     IdbCreateObjectStore "textures" "filedata";
     EmitMessage (CACHE_READY "textures")].
Proof.
  cbv zeta.
  assert (reachable (after Scenario.downloading newContentServer)) as Hreach
    by (by eexists).
  split; [exact Hreach |].
  edestruct X20_cache_opens
    with (w := after Scenario.downloading newContentServer) (n := "textures")
         (upgradeNeeded := true)
    as (Hout & _); [vm_compute; reflexivity | vm_compute; reflexivity |].
  exact Hout.
Defined.

(** X21: the same through setVersion, for a name that Object.prototype
    does not define and that is not in the map. When the open succeeds
    on a platform that has setVersion and reports another version, the
    content server asks for version 1, creates the two object stores
    when that request succeeds, and sends CACHE_READY and enters the
    data store in the map only when the version change transaction
    completes: until then the cache is not in the map. *)
Theorem X21_cache_opens_through_setVersion (w : World) (n : string)
  (Hown : inherited n = false)
  (Hnew : dataStores w !! n = None) :
  outputs [OpenCache n; OnOpenSuccess (length (stores w)) true;
           OnSetVersionSuccess (length (stores w));
           OnVersionChangeComplete (length (stores w))] w
  = [IdbOpen n 1; IdbSetVersion n 1;
     IdbCreateObjectStore n "metadata"; IdbCreateObjectStore n "filedata";
     EmitMessage (CACHE_READY n)] ∧
  dataStores (after [OpenCache n; OnOpenSuccess (length (stores w)) true;
                     OnSetVersionSuccess (length (stores w))] w)
  = dataStores w ∧
  dataStores (after [OpenCache n; OnOpenSuccess (length (stores w)) true;
                     OnSetVersionSuccess (length (stores w));
                     OnVersionChangeComplete (length (stores w))] w)
  = <[n := length (stores w)]> (dataStores w) ∧
  ∃ st, stores (after [OpenCache n; OnOpenSuccess (length (stores w)) true;
                       OnSetVersionSuccess (length (stores w));
                       OnVersionChangeComplete (length (stores w))] w)
        !! length (stores w) = Some st ∧
        name st = n ∧ ready st = true ∧ db st = Some (mkDb false) ∧
        spending st = Idle.
Proof.
  set (sid := length (stores w)).
  pose proof (step_openCache w n Hnew Hown) as Hopen.
  set (w1 := setStores (λ h, h ++ [newStore n]) w) in *.
  pose proof (opening_store w n) as Hst. fold sid w1 in Hst.
  pose proof (handle_openSuccess_legacy w1 sid _ Hst eq_refl) as Hlegacy.
  apply step_handle in Hlegacy.
  set (f2 := setSPending SetVersionRequest ∘ setDb (Some (mkDb false))
             ∘ setSPending Idle) in *.
  set (w2 := setStores (alter f2 sid) w1) in *.
  assert (stores w2 !! sid = Some (f2 (newStore n))) as Hst2
    by (cbn; by rewrite list_lookup_alter_eq, list_lookup_middle).
  pose proof (handle_setVersionSuccess w2 sid _ Hst2 eq_refl) as Hset.
  apply step_handle in Hset.
  set (f3 := setSPending VersionChangeTxn ∘ setSPending Idle) in *.
  set (w3 := setStores (alter f3 sid) w2) in *.
  assert (stores w3 !! sid = Some (f3 (f2 (newStore n)))) as Hst3
    by (cbn; by rewrite !list_lookup_alter_eq, list_lookup_middle).
  pose proof (handle_versionChangeComplete w3 sid _ Hst3 ssubscribed_on eq_refl)
    as Hdone.
  apply step_handle in Hdone.
  rewrite !outputs_cons, !after_cons, Hopen. cbn [fst snd].
  rewrite Hlegacy. cbn [fst snd]. rewrite Hset. cbn [fst snd].
  rewrite Hdone. cbn [fst snd]. rewrite outputs_nil, !after_nil.
  split; [done |]. split; [done |]. split; [done |].
  exists (upgraded (f3 (f2 (newStore n)))). split; [| done].
  cbn. by rewrite !list_lookup_alter_eq, list_lookup_middle.
Qed.

Lemma X21_witness :
  let w := after Scenario.downloading newContentServer in
  reachable w ∧
  outputs [OpenCache "textures"; OnOpenSuccess 1 true;
           OnSetVersionSuccess 1; OnVersionChangeComplete 1] w
  = [IdbOpen "textures" 1; IdbSetVersion "textures" 1;
     IdbCreateObjectStore "textures" "metadata";
     IdbCreateObjectStore "textures" "filedata";
     EmitMessage (CACHE_READY "textures")].
Proof.
  cbv zeta.
  assert (reachable (after Scenario.downloading newContentServer)) as Hreach
    by (by eexists).
  split; [exact Hreach |].
  edestruct X21_cache_opens_through_setVersion
    with (w := after Scenario.downloading newContentServer) (n := "textures")
    as (Hout & _); [vm_compute; reflexivity | vm_compute; reflexivity |].
  exact Hout.
Defined.

(** X22: a cache that cannot be opened, for a name that Object.prototype
    does not define and that is not in the map. When the open request
    fails, or the setVersion request after it, the content server sends one error
    with the platform's error and without a request id or the name of
    the cache. The map of data stores stays as it is, so requests for
    the cache keep being rejected, and the data store is left not ready
    with nothing outstanding; createDataStore for the same name then
    opens the database again with a new data store. *)
Theorem X22_cache_fails_to_open (w : World) (n : string) (err : Value)
  (failure : list Event)
  (Hown : inherited n = false)
  (Hnew : dataStores w !! n = None)
  (Hfailure : failure = [OnOpenError (length (stores w)) err] ∨
              failure = [OnOpenSuccess (length (stores w)) true;
                         OnSetVersionError (length (stores w)) err]) :
  (∃ asked, outputs (OpenCache n :: failure) w
            = IdbOpen n 1 :: asked ++ [EmitError err VUndefined] ∧
            (asked = [] ∨ asked = [IdbSetVersion n 1])) ∧
  dataStores (after (OpenCache n :: failure) w) = dataStores w ∧
  (∃ st, stores (after (OpenCache n :: failure) w) !! length (stores w) = Some st ∧
         ready st = false ∧ spending st = Idle ∧ semitted st = ["error"]) ∧
  step (OpenCache n) (after (OpenCache n :: failure) w)
  = (setStores (λ h, h ++ [newStore n]) (after (OpenCache n :: failure) w),
     [IdbOpen n 1]).
Proof.
  set (sid := length (stores w)).
  pose proof (step_openCache w n Hnew Hown) as Hopen.
  set (w1 := setStores (λ h, h ++ [newStore n]) w) in *.
  pose proof (opening_store w n) as Hst. fold sid w1 in Hst.
  assert (dataStores (after (OpenCache n :: failure) w) = dataStores w ∧
          (∃ asked, outputs (OpenCache n :: failure) w
                    = IdbOpen n 1 :: asked ++ [EmitError err VUndefined] ∧
                    (asked = [] ∨ asked = [IdbSetVersion n 1])) ∧
          (∃ st, stores (after (OpenCache n :: failure) w) !! sid = Some st ∧
                 ready st = false ∧ spending st = Idle ∧
                 semitted st = ["error"])) as (Hds & Hout & Hstore).
  { destruct Hfailure as [-> | ->]; fold sid.
    - pose proof (handle_openError w1 sid _ Hst ssubscribed_on err eq_refl)
        as Herr.
      apply step_handle in Herr.
      rewrite !outputs_cons, !after_cons, Hopen. cbn [fst snd].
      rewrite Herr. cbn [fst snd]. rewrite outputs_nil, after_nil.
      split; [done |]. split; [exists []; split; [done | by left] |].
      eexists. split; [cbn; by rewrite list_lookup_alter_eq, list_lookup_middle |].
      done.
    - pose proof (handle_openSuccess_legacy w1 sid _ Hst eq_refl) as Hlegacy.
      apply step_handle in Hlegacy.
      set (f2 := setSPending SetVersionRequest ∘ setDb (Some (mkDb false))
                 ∘ setSPending Idle) in *.
      set (w2 := setStores (alter f2 sid) w1) in *.
      assert (stores w2 !! sid = Some (f2 (newStore n))) as Hst2
        by (cbn; by rewrite list_lookup_alter_eq, list_lookup_middle).
      pose proof (handle_setVersionError w2 sid _ Hst2 ssubscribed_on err
                    eq_refl) as Herr.
      apply step_handle in Herr.
      rewrite !outputs_cons, !after_cons, Hopen. cbn [fst snd].
      rewrite Hlegacy. cbn [fst snd].
      rewrite Herr. cbn [fst snd]. rewrite outputs_nil, after_nil.
      split; [done |].
      split; [exists [IdbSetVersion n 1]; split; [done | by right] |].
      eexists.
      split; [cbn; by rewrite !list_lookup_alter_eq, list_lookup_middle |].
      done. }
  split; [done |]. split; [done |]. split; [done |].
  apply step_openCache; [by rewrite Hds | done].
Qed.

Lemma X22_witness :
  let w := newContentServer in
  reachable w ∧
  outputs [OpenCache "assets"; OnOpenError 0 (VString "QuotaExceededError")] w
  = [IdbOpen "assets" 1; EmitError (VString "QuotaExceededError") VUndefined] ∧
  dataStores (after [OpenCache "assets";
                     OnOpenError 0 (VString "QuotaExceededError")] w)
  = dataStores w.
Proof.
  cbv zeta.
  assert (reachable newContentServer) as Hreach by (by exists []).
  split; [exact Hreach |]. split; [vm_compute; reflexivity |].
  edestruct X22_cache_fails_to_open
    with (w := newContentServer) (n := "assets")
         (err := VString "QuotaExceededError")
         (failure := [OnOpenError 0 (VString "QuotaExceededError")])
    as (_ & Hds & _);
    [vm_compute; reflexivity | vm_compute; reflexivity | left; reflexivity |].
  exact Hds.
Defined.

(** X23: deleteDataStore on a cache that is in the map. The connection
    is closed before the database is deleted, the entry leaves the map
    at once, and the data store is left not ready with a closing
    connection, on which no transaction can be made. The requests and
    the loads of the servers are not touched. Later requests for the
    cache are rejected, and a second deleteDataStore only asks the
    platform to delete the database again. *)
Theorem X23_deleteDataStore_closes_first (w : World) (n : string) (sid : nat)
  (Hreach : reachable w)
  (Hn : dataStores w !! n = Some sid) :
  (step (DeleteCache n) w).2 = [IdbClose n; IdbDeleteDatabase n] ∧
  dataStores (step (DeleteCache n) w).1 = delete n (dataStores w) ∧
  (∃ st, stores (step (DeleteCache n) w).1 !! sid = Some st ∧
         ready st = false ∧ db st = Some (mkDb true) ∧
         semitted st = semitted (default st (stores w !! sid)) ++ ["closing"]) ∧
  transaction sid (step (DeleteCache n) w).1
  = (Throw InvalidStateError, (step (DeleteCache n) w).1, []) ∧
  requests (step (DeleteCache n) w).1 = requests w ∧
  records (step (DeleteCache n) w).1 = records w ∧
  (∀ args, cacheName args = n →
     requestResource args (step (DeleteCache n) w).1
     = (Normal None, (step (DeleteCache n) w).1,
        [EmitError (notReady n) (requestId args)])) ∧
  step (DeleteCache n) (step (DeleteCache n) w).1
  = ((step (DeleteCache n) w).1, [IdbDeleteDatabase n]).
Proof.
  pose proof (reachable_ok w Hreach) as Hok.
  destruct (mapped_store w n sid Hok (reachable_caches_ok w Hreach) Hn)
    as (st & Hst & Hname & Hready & Hdb & _ & _).
  pose proof (deleteDataStore_close w n sid st Hn Hst (ok_stores _ Hok _ _ Hst))
    as Hrun.
  rewrite Hready, Hdb, Hname in Hrun. cbn [app] in Hrun.
  apply (step_handle (DeleteCache n) w tt) in Hrun.
  rewrite Hrun. cbn [fst snd].
  set (w' := setDataStores (delete n) (setStores (alter closed sid) w)).
  assert (stores w' !! sid = Some (closed st)) as Hst'
    by (cbn; by rewrite list_lookup_alter_eq, Hst).
  assert (dataStores w' !! n = None) as Hn' by (cbn; apply lookup_delete_eq).
  assert (closed st
          = setDb (Some (mkDb true)) (logSEmitted "closing" (setReady false st)))
    as Hclosed by (unfold closed; by rewrite Hdb).
  repeat split; try done.
  - exists (closed st). split; [done |]. rewrite Hclosed, Hst. done.
  - unfold transaction. js_unfold. cbn -[w']. rewrite Hst'. cbn -[w'].
    by rewrite Hclosed.
  - intros args <-. apply requestResource_reject. by rewrite Hn'.
  - apply (step_handle _ _ tt). cbn [handle].
    rewrite deleteDataStore_run by done.
    by rewrite <- Hname, (ok_names _ Hok _ _ Hst).
Qed.

Lemma X23_witness :
  let w := after Scenario.downloading newContentServer in
  reachable w ∧
  (step (DeleteCache "assets") w).2
  = [IdbClose "assets"; IdbDeleteDatabase "assets"] ∧
  dataStores (step (DeleteCache "assets") w).1 = ∅.
Proof.
  cbv zeta.
  assert (reachable (after Scenario.downloading newContentServer)) as Hreach
    by (by eexists).
  split; [exact Hreach |].
  edestruct X23_deleteDataStore_closes_first
    with (w := after Scenario.downloading newContentServer) (n := "assets")
         (sid := 0%nat)
    as (Hout & Hds & _); [exact Hreach | vm_compute; reflexivity |].
  split; [exact Hout |]. rewrite Hds. vm_compute. reflexivity.
Defined.

(** X24: deleteDataStore does not stop a cache that is still opening.
    For a name that Object.prototype does not define (for one that it
    defines, deleteDataStore throws a TypeError instead), while the name
    is not in the map, deleteDataStore only asks the
    platform to delete the database and changes nothing: the data store
    that createDataStore is opening stays subscribed, and when its open
    succeeds it enters the map and CACHE_READY is sent, after the
    deletion was asked for. *)
Theorem X24_delete_while_opening (w : World) (n : string)
  (Hown : inherited n = false)
  (Hnew : dataStores w !! n = None) :
  step (DeleteCache n) w = (w, [IdbDeleteDatabase n]) ∧
  outputs [OpenCache n; DeleteCache n; OnOpenSuccess (length (stores w)) false] w
  = [IdbOpen n 1; IdbDeleteDatabase n; EmitMessage (CACHE_READY n)] ∧
  dataStores (after [OpenCache n; DeleteCache n;
                     OnOpenSuccess (length (stores w)) false] w)
  = <[n := length (stores w)]> (dataStores w).
Proof.
  split.
  { apply (step_handle _ _ tt). cbn [handle].
    rewrite deleteDataStore_run by done. by rewrite Hown. }
  set (sid := length (stores w)).
  pose proof (step_openCache w n Hnew Hown) as Hopen.
  set (w1 := setStores (λ h, h ++ [newStore n]) w) in *.
  pose proof (opening_store w n) as Hst. fold sid w1 in Hst.
  assert (step (DeleteCache n) w1 = (w1, [IdbDeleteDatabase n])) as Hdelete.
  { apply (step_handle _ _ tt). cbn [handle].
    rewrite deleteDataStore_run by done. by rewrite Hown. }
  pose proof (handle_openSuccess_ready w1 sid _ Hst ssubscribed_on eq_refl)
    as Hready.
  apply step_handle in Hready.
  rewrite !outputs_cons, !after_cons, Hopen. cbn [fst snd].
  rewrite Hdelete. cbn [fst snd]. rewrite Hready. cbn [fst snd].
  by rewrite outputs_nil, after_nil.
Qed.

Lemma X24_witness :
  inherited "assets" = false ∧
  dataStores newContentServer !! "assets" = None ∧
  outputs [OpenCache "assets"; DeleteCache "assets"; OnOpenSuccess 0 false]
    newContentServer
  = [IdbOpen "assets" 1; IdbDeleteDatabase "assets";
     EmitMessage (CACHE_READY "assets")].
Proof.
  split; [vm_compute; reflexivity |]. split; [vm_compute; reflexivity |].
  edestruct X24_delete_while_opening
    with (w := newContentServer) (n := "assets")
    as (_ & Hout & _); [vm_compute; reflexivity | vm_compute; reflexivity |].
  exact Hout.
Defined.

(** X25: for an event name that Object.prototype does not define, emit
    calls the listeners of the event in the order of their registration,
    each as often as it was registered, and leaves the listeners as they
    are; a listener added with on is called last. *)
Theorem X25_emit_calls_in_registration_order (ls : Emitter.Listeners Listener.Fn)
  (event : string) (ids : list nat) (c : nat)
  (Hevent : inherited event = false)
  (Hregistered : Emitter.receivers ls event = Listener.apps ids) :
  Listener.emit event ls = (Normal tt, ls, ids) ∧
  Listener.emit event (Emitter.on event (Listener.App c) ls)
  = (Normal tt, Emitter.on event (Listener.App c) ls, ids ++ [c]).
Proof.
  assert (∀ ls' l, Emitter.receivers ls' event = Listener.apps l →
                   Listener.emit event ls' = (Normal tt, ls', l)) as Hemit.
  { intros ls' l Hl. unfold Listener.emit.
    destruct (Emitter.handlers ls' event) as [listener|] eqn:Hh.
    - rewrite (handlers_receivers _ _ _ Hh) in Hl. subst listener.
      pose proof (emitLoop_apps event ls' [] l (length (Listener.apps l)) [] Hh)
        as Hloop.
      cbn [length app] in Hloop. rewrite Hloop.
      unfold Listener.apps. rewrite length_fmap.
      rewrite decide_True by lia. by rewrite firstn_all.
    - unfold Emitter.receivers in Hl. rewrite Hh in Hl. cbn in Hl.
      destruct l; [done | discriminate]. }
  split; [by apply Hemit |].
  apply Hemit. rewrite receivers_on_eq, Hregistered.
  unfold Listener.apps. by rewrite fmap_app.
Qed.

Lemma X25_witness :
  let ls := Emitter.on "load" (Listener.App 1)
              (Emitter.on "done" (Listener.App 3)
                 (Emitter.on "load" (Listener.App 2)
                    (Emitter.on "load" (Listener.App 1) ∅))) in
  Emitter.receivers ls "load" = Listener.apps [1; 2; 1]%nat ∧
  Listener.emit "load" ls = (Normal tt, ls, [1; 2; 1]%nat).
Proof.
  cbv zeta. split; [vm_compute; reflexivity |].
  edestruct X25_emit_calls_in_registration_order
    with (ls := Emitter.on "load" (Listener.App 1)
              (Emitter.on "done" (Listener.App 3)
                 (Emitter.on "load" (Listener.App 2)
                    (Emitter.on "load" (Listener.App 1) ∅))))
         (event := "load") (ids := [1; 2; 1]%nat) (c := 0%nat)
    as [Hemit _]; [vm_compute; reflexivity | vm_compute; reflexivity |].
  exact Hemit.
Defined.



(** * Cache writes that fail *)

(** A request without an outstanding operation stays as it is. *)
Lemma idle_step e w rid q :
  world_ok w → requests w !! rid = Some q → pending q = NoOp →
  requests (step e w).1 !! rid = Some q.
Proof.
  intros Hok Hq Hp. rewrite step_world.
  assert (∀ f rid0 q0, requests w !! rid0 = Some q0 → pending q0 ≠ NoOp →
                       alter f rid0 (requests w) !! rid = Some q) as Hother.
  { intros f rid0 q0 Hq0 Hbusy. rewrite list_lookup_alter_ne; [done |].
    intros ->. rewrite Hq in Hq0. injection Hq0 as <-. done. }
  destruct e as [u|u|n|n|args|sid|sid err|sid legacy|sid|sid err|sid|rid0 result|rid0|rid0 info|rid0 status statusText response total now|rid0 statusText|rid0|rid0|rid0].
  1: { cbn [handle]. by destruct (addContentServer_run u w) as [[c ->]| ->]. }
  1: { cbn [handle]. destruct (removeContentServer_frame u w)
         as (c & w' & -> & _ & _ & Hreq & _). cbn. by rewrite Hreq. }
  all: apply (handle_cases (λ w', requests w' !! rid = Some q));
    try done; cbn.
  all: try (intros; by eapply Hother).
  all: intros; by apply lookup_app_l_Some.
Qed.

Lemma idle_after events w rid q :
  world_ok w → requests w !! rid = Some q → pending q = NoOp →
  requests (after events w) !! rid = Some q.
Proof.
  revert w. induction events as [|e events IH]; intros w Hok Hq Hp; [done |].
  rewrite after_cons. apply IH; [by apply step_ok | by apply idle_step | done].
Qed.

(** C2 (the code at inputs where the claim fails): a request whose
    download ended with a status in the 200 range, and which so reaches
    the caching step, is not always completed. When the connection of
    its data store is closing, db.transaction throws in cacheData. When
    the transaction is made and is then aborted while it commits, the
    platform fires the abort event of the transaction and no error
    event, and cacheData has set oncomplete and onerror but no onabort.
    In both cases the request emits no event, nothing is sent for it,
    and it is left without an operation: whatever happens afterwards, it
    stays as it is and never completes. *)
Theorem C2_cache_write_may_never_complete (w : World) (rid : nat)
  (q : ResourceRequest) (status : Z) (statusText : string) (response : Value)
  (total now : Z) (events : list Event)
  (Hreach : reachable w)
  (Hrequest : requests w !! rid = Some q)
  (Hdownloading : pending q = XhrOp)
  (Hstatus : 200 ≤ status < 300) :
  (∀ e, transactionOutcome w (store q) = Some e →
     outputs [OnXhrLoad rid status statusText response total now] w
     = [Uncaught e] ∧
     requests (after (OnXhrLoad rid status statusText response total now
                      :: events) w) !! rid
     = Some (setPending NoOp q)) ∧
  (transactionOutcome w (store q) = None →
     (∃ st, stores w !! store q = Some st ∧
        outputs [OnXhrLoad rid status statusText response total now;
                 OnTxnAbort rid] w
        = [IdbPutMeta (name st) METADATA (key q) (type q) total now;
           IdbPutData (name st) FILEDATA (key q) response]) ∧
     requests (after (OnXhrLoad rid status statusText response total now
                      :: OnTxnAbort rid :: events) w) !! rid
     = Some (setPending NoOp q)).
Proof.
  pose proof (reachable_ok w Hreach) as Hok.
  pose proof (handle_xhrLoad_ok w rid q Hrequest status statusText response
                total now Hdownloading Hstatus) as Hload.
  split.
  - intros e He. rewrite He in Hload.
    assert (step (OnXhrLoad rid status statusText response total now) w
            = (setRequests (alter (setPending NoOp) rid) w, [Uncaught e]))
      as Hstep by (unfold step; by rewrite Hload).
    split.
    + by rewrite outputs_cons, Hstep.
    + rewrite after_cons, Hstep. cbn [fst].
      apply idle_after; [by eapply world_ok_finished | | done].
      cbn. by rewrite list_lookup_alter_eq, Hrequest.
  - intros Hopen. rewrite Hopen in Hload.
    assert (∃ st, stores w !! store q = Some st) as [st Hst].
    { unfold transactionOutcome in Hopen.
      destruct (stores w !! store q) as [st|]; [by exists st | done]. }
    rewrite Hst in Hload. apply step_handle in Hload.
    set (w1 := setRequests
                 (alter (setPending (TxnOp response) ∘ setPending NoOp) rid) w)
      in *.
    assert (requests w1 !! rid
            = Some ((setPending (TxnOp response) ∘ setPending NoOp) q)) as Hq1
      by (cbn; by rewrite list_lookup_alter_eq, Hrequest).
    pose proof (handle_txnAbort w1 rid _ Hq1 response (or_introl eq_refl))
      as Habort.
    apply step_handle in Habort.
    split.
    + exists st. split; [done |].
      rewrite !outputs_cons, Hload. cbn [fst snd]. by rewrite Habort.
    + rewrite !after_cons, Hload. cbn [fst]. rewrite Habort. cbn [fst].
      apply idle_after; [| | done].
      * eapply world_ok_finished; [| exact Hq1].
        by eapply world_ok_pending.
      * cbn. by rewrite !list_lookup_alter_eq, Hrequest.
Qed.

Lemma C2_witness :
  let w := after Scenario.downloading newContentServer in
  let closing := after (Scenario.downloading ++ [DeleteCache "assets"])
                   newContentServer in
  reachable w ∧ reachable closing ∧
  outputs [OnXhrLoad 0 200 "OK" (VString "bytes") 5 1000] closing
  = [Uncaught InvalidStateError] ∧
  outputs [OnXhrLoad 0 200 "OK" (VString "bytes") 5 1000; OnTxnAbort 0] w
  = [IdbPutMeta "assets" METADATA "x.bin" "arraybuffer" 5 1000;
     IdbPutData "assets" FILEDATA "x.bin" (VString "bytes")] ∧
  ∃ q, requests w !! 0%nat = Some q ∧ emitted q = [] ∧
       requests (after [OnXhrLoad 0 200 "OK" (VString "bytes") 5 1000;
                        OnTxnAbort 0; OnTxnComplete 0; OnTxnError 0;
                        OnXhrLoad 0 200 "OK" (VString "bytes") 5 1000] w)
         !! 0%nat
       = Some (setPending NoOp q).
Proof.
  cbv zeta.
  assert (reachable (after Scenario.downloading newContentServer)) as Hreach
    by (by eexists).
  assert (reachable (after (Scenario.downloading ++ [DeleteCache "assets"])
                       newContentServer)) as Hclosing by (by eexists).
  split; [exact Hreach |]. split; [exact Hclosing |].
  split.
  { edestruct C2_cache_write_may_never_complete
      with (w := after (Scenario.downloading ++ [DeleteCache "assets"])
                   newContentServer)
           (rid := 0%nat) (status := 200) (statusText := "OK")
           (response := VString "bytes") (total := 5) (now := 1000)
           (events := @nil Event)
      as [Hthrow _];
      [exact Hclosing | vm_compute; reflexivity | vm_compute; reflexivity
       | lia |].
    destruct (Hthrow InvalidStateError) as [Hout _];
      [vm_compute; reflexivity | exact Hout]. }
  edestruct C2_cache_write_may_never_complete
    with (w := after Scenario.downloading newContentServer)
         (rid := 0%nat) (status := 200) (statusText := "OK")
         (response := VString "bytes") (total := 5) (now := 1000)
         (events := [OnTxnComplete 0; OnTxnError 0;
                     OnXhrLoad 0 200 "OK" (VString "bytes") 5 1000])
    as [_ Habort];
    [exact Hreach | vm_compute; reflexivity | vm_compute; reflexivity
     | lia |].
  destruct Habort as [(st & Hst & Hout) Hnever]; [vm_compute; reflexivity |].
  split.
  - vm_compute in Hst. injection Hst as <-. exact Hout.
  - eexists. split; [vm_compute; reflexivity |].
    split; [reflexivity | exact Hnever].
Defined.

(** A download that ends with a status in the 200 range, followed by the
    error events of the two puts of the cache write. *)
Lemma download_then_two_errors w rid q r st status statusText response total now :
  requests w !! rid = Some q → pending q = XhrOp →
  subscribed (rlisteners q) → server q = Some r →
  200 ≤ status < 300 →
  transactionOutcome w (store q) = None → stores w !! store q = Some st →
  run [OnXhrLoad rid status statusText response total now;
       OnTxnError rid; OnTxnError rid] w
  = (setRecords (alter (addLoad (-1)) r)
       (setRequests (alter (completed "data" ∘ setPending NoOp) rid)
          (setRecords (alter (addLoad (-1)) r)
             (setRequests
                (alter (completed "data" ∘ setPending (TxnAborting response))
                   rid)
                (setRequests
                   (alter (setPending (TxnOp response) ∘ setPending NoOp) rid)
                   w)))),
     [IdbPutMeta (name st) METADATA (key q) (type q) total now;
      IdbPutData (name st) FILEDATA (key q) response;
      EmitMessage (RESOURCE_DATA (clientId q) (url q) (key q) response (type q));
      EmitMessage (RESOURCE_DATA (clientId q) (url q) (key q) response (type q))]).
Proof.
  intros Hq Hp Hsub Hs Hstatus Hopen Hst.
  pose proof (handle_xhrLoad_ok w rid q Hq status statusText response
                total now Hp Hstatus) as Hload.
  rewrite Hopen, Hst in Hload. apply step_handle in Hload.
  set (f1 := setPending (TxnOp response) ∘ setPending NoOp) in *.
  set (w1 := setRequests (alter f1 rid) w) in *.
  assert (requests w1 !! rid = Some (f1 q)) as Hq1
    by (cbn; by rewrite list_lookup_alter_eq, Hq).
  pose proof (handle_txnError w1 rid (f1 q) Hq1 r response eq_refl Hsub Hs)
    as Hfirst.
  apply step_handle in Hfirst.
  set (f2 := completed "data" ∘ setPending (TxnAborting response)) in *.
  set (w2 := setRecords (alter (addLoad (-1)) r) (setRequests (alter f2 rid) w1))
    in *.
  assert (requests w2 !! rid = Some (f2 (f1 q))) as Hq2
    by (cbn; by rewrite !list_lookup_alter_eq, Hq).
  pose proof (handle_txnError_again w2 rid (f2 (f1 q)) Hq2 r response eq_refl)
    as Hsecond.
  apply step_handle in Hsecond;
    [| cbn; by apply subscribed_removeAllListeners | done].
  cbn [run]. rewrite Hload, Hfirst, Hsecond. done.
Qed.

(** C4 (the code at an input where the claim fails): a download followed
    by a cache write that fails emits two terminal events. When a put of
    the cache write fails, its error event reaches txn.onerror, the
    transaction is aborted, and the error event of the put that is still
    pending reaches txn.onerror as well. The handler emits "data" each
    time, and the listeners of the request are still attached, so the
    content server sends RESOURCE_DATA twice. *)
Theorem C4_two_terminal_events (w : World) (rid : nat) (q : ResourceRequest)
  (status : Z) (statusText : string) (response : Value) (total now : Z)
  (Hreach : reachable w)
  (Hrequest : requests w !! rid = Some q)
  (Hdownloading : pending q = XhrOp)
  (Hstatus : 200 ≤ status < 300)
  (Hopen : transactionOutcome w (store q) = None) :
  ∃ st q',
    stores w !! store q = Some st ∧
    outputs [OnXhrLoad rid status statusText response total now;
             OnTxnError rid; OnTxnError rid] w
    = [IdbPutMeta (name st) METADATA (key q) (type q) total now;
       IdbPutData (name st) FILEDATA (key q) response;
       EmitMessage (RESOURCE_DATA (clientId q) (url q) (key q) response (type q));
       EmitMessage (RESOURCE_DATA (clientId q) (url q) (key q) response (type q))] ∧
    requests (after [OnXhrLoad rid status statusText response total now;
                     OnTxnError rid; OnTxnError rid] w) !! rid = Some q' ∧
    emitted q' = emitted q ++ ["data"; "data"] ∧
    terminals (emitted q') = (terminals (emitted q) + 2)%nat.
Proof.
  pose proof (reachable_ok w Hreach) as Hok.
  destruct (ok_requests _ Hok _ _ Hrequest) as [(r & x & Hs & _ & _) Hsub].
  assert (∃ st, stores w !! store q = Some st) as [st Hst].
  { unfold transactionOutcome in Hopen.
    destruct (stores w !! store q) as [st|]; [by exists st | done]. }
  pose proof (download_then_two_errors w rid q r st status statusText response
                total now Hrequest Hdownloading Hsub Hs Hstatus Hopen Hst)
    as Hrun.
  eexists st, _. split; [done |].
  unfold outputs, after. rewrite Hrun. cbn [fst snd].
  split; [done |]. split.
  - cbn. by rewrite !list_lookup_alter_eq, Hrequest.
  - cbn. split; [by rewrite <- app_assoc |].
    rewrite !terminals_snoc.
    assert (terminal "data" = true) as -> by (vm_compute; reflexivity). lia.
Qed.

Lemma C4_witness :
  let w := after Scenario.downloading newContentServer in
  reachable w ∧
  outputs [OnXhrLoad 0 200 "OK" (VString "bytes") 5 1000;
           OnTxnError 0; OnTxnError 0] w
  = [IdbPutMeta "assets" METADATA "x.bin" "arraybuffer" 5 1000;
     IdbPutData "assets" FILEDATA "x.bin" (VString "bytes");
     EmitMessage (RESOURCE_DATA (VNumber 1) "x.bin" "x.bin" (VString "bytes")
                    "arraybuffer");
     EmitMessage (RESOURCE_DATA (VNumber 1) "x.bin" "x.bin" (VString "bytes")
                    "arraybuffer")] ∧
  ∃ q', requests (after [OnXhrLoad 0 200 "OK" (VString "bytes") 5 1000;
                         OnTxnError 0; OnTxnError 0] w) !! 0%nat = Some q' ∧
        emitted q' = ["data"; "data"] ∧ terminals (emitted q') = 2%nat.
Proof.
  cbv zeta.
  assert (reachable (after Scenario.downloading newContentServer)) as Hreach
    by (by eexists).
  split; [exact Hreach |].
  edestruct C4_two_terminal_events
    with (w := after Scenario.downloading newContentServer)
         (rid := 0%nat) (status := 200) (statusText := "OK")
         (response := VString "bytes") (total := 5) (now := 1000)
    as (st & q' & Hst & Hout & Hq' & Hem & Hterm);
    [exact Hreach | vm_compute; reflexivity | vm_compute; reflexivity
     | lia | vm_compute; reflexivity |].
  split.
  - vm_compute in Hst. injection Hst as <-. exact Hout.
  - exists q'. split; [exact Hq' |]. split; [exact Hem | exact Hterm].
Defined.

(** C3 (the code at an input where the claim fails): one request is
    dispatched to a server and terminates, and the load of the server
    ends one below its value before the request. requestResource adds
    one; the cache write of the request fails at a put, txn.onerror runs
    for that put and for the put the abort fails, and
    handleRequestData, which is still subscribed, takes one off each
    time. A load of 0 becomes -1. *)
Theorem C3_load_is_released_twice (w : World) (args : Args) (sid r0 : nat)
  (rest : list nat)
  (status : Z) (statusText : string) (response : Value) (total now : Z)
  (Hreach : reachable w)
  (Hcache : dataStores w !! cacheName args = Some sid)
  (Hservers : contentServers w = r0 :: rest)
  (Hcached : returnCached args ≠ Some false)
  (Hstatus : 200 ≤ status < 300) :
  ∃ r x,
    selectServer (preferredServer args) w = (Normal (Some r), w, []) ∧
    records w !! r = Some x ∧
    requests (after [RequestResource args;
                     OnGetSuccess (length (requests w)) VUndefined;
                     OnXhrLoad (length (requests w)) status statusText response
                       total now;
                     OnTxnError (length (requests w));
                     OnTxnError (length (requests w))] w)
    = requests w
      ++ [(completed "data" ∘ completed "data")
            (newRequest args sid r (serverUrl x) NoOp)] ∧
    records (after [RequestResource args;
                    OnGetSuccess (length (requests w)) VUndefined;
                    OnXhrLoad (length (requests w)) status statusText response
                      total now;
                    OnTxnError (length (requests w));
                    OnTxnError (length (requests w))] w)
    = alter (addLoad (-1)) r (records w) ∧
    records (after [RequestResource args;
                    OnGetSuccess (length (requests w)) VUndefined;
                    OnXhrLoad (length (requests w)) status statusText response
                      total now;
                    OnTxnError (length (requests w));
                    OnTxnError (length (requests w))] w) !! r
    = Some (mkServerRecord (serverUrl x) (loadValue x - 1)).
Proof.
  pose proof (reachable_ok w Hreach) as Hok.
  destruct (requestResource_dispatches w args sid r0 rest Hok
              (reachable_registry_ok w Hreach)
              (reachable_caches_ok w Hreach) Hcache Hservers)
    as (r & x & st & Hr & Hx & Hst & Hname & Hsel & Hrun).
  destruct (mapped_store w _ sid Hok (reachable_caches_ok w Hreach) Hcache)
    as (st' & Hst' & _ & _ & _ & _ & Htxn).
  rewrite decide_False in Hrun by done.
  exists r, x. split; [done |]. split; [done |].
  set (rid := length (requests w)) in *.
  set (q0 := newRequest args sid r (serverUrl x) GetOp) in *.
  set (w1 := dispatch r q0 w) in *.
  apply step_requestResource in Hrun.
  assert (requests w1 !! rid = Some q0) as Hq0
    by (cbn; by rewrite list_lookup_middle).
  pose proof (handle_getSuccess_miss w1 rid q0 Hq0 eq_refl) as Hmiss.
  apply step_handle in Hmiss.
  set (f1 := setPending XhrOp ∘ setPending NoOp) in *.
  set (w2 := setRequests (alter f1 rid) w1) in *.
  assert (requests w2 !! rid = Some (f1 q0)) as Hq1
    by (cbn; by rewrite list_lookup_alter_eq, list_lookup_middle).
  pose proof (download_then_two_errors w2 rid (f1 q0) r st status statusText
                response total now Hq1 eq_refl subscribed_on eq_refl Hstatus)
    as Hrest.
  change (store (f1 q0)) with sid in Hrest.
  rewrite (transactionOutcome_frame w w2 sid eq_refl) in Hrest.
  specialize (Hrest Htxn Hst).
  assert (after [RequestResource args; OnGetSuccess rid VUndefined;
                 OnXhrLoad rid status statusText response total now;
                 OnTxnError rid; OnTxnError rid] w
          = (run [OnXhrLoad rid status statusText response total now;
                  OnTxnError rid; OnTxnError rid] w2).1) as ->.
  { rewrite (after_cons (RequestResource args)), Hrun. cbn [fst].
    by rewrite (after_cons (OnGetSuccess rid VUndefined)), Hmiss. }
  rewrite Hrest. cbn [fst].
  split; [| split].
  - cbn. unfold rid. rewrite !alter_twice, alter_snoc. done.
  - cbn. apply list_eq. intros i. destruct (decide (i = r)) as [->|Hne].
    + rewrite !list_lookup_alter_eq. rewrite Hx. cbn. unfold addLoad. cbn.
      do 2 f_equal. lia.
    + by rewrite !list_lookup_alter_ne.
  - cbn. rewrite !list_lookup_alter_eq, Hx. cbn. unfold addLoad. cbn.
    do 2 f_equal. lia.
Qed.

Lemma C3_witness :
  let w := after Scenario.cacheReady newContentServer in
  reachable w ∧
  records w = [mkServerRecord "" 0] ∧
  length (requests w) = 0%nat ∧
  records (after [RequestResource (Scenario.get "x.bin");
                  OnGetSuccess 0 VUndefined;
                  OnXhrLoad 0 200 "OK" (VString "bytes") 5 1000;
                  OnTxnError 0; OnTxnError 0] w)
  = [mkServerRecord "" (-1)] ∧
  length (requests (after [RequestResource (Scenario.get "x.bin");
                           OnGetSuccess 0 VUndefined;
                           OnXhrLoad 0 200 "OK" (VString "bytes") 5 1000;
                           OnTxnError 0; OnTxnError 0] w)) = 1%nat.
Proof.
  cbv zeta.
  assert (reachable (after Scenario.cacheReady newContentServer)) as Hreach
    by (by eexists).
  split; [exact Hreach |]. split; [vm_compute; reflexivity |].
  split; [vm_compute; reflexivity |].
  edestruct C3_load_is_released_twice
    with (w := after Scenario.cacheReady newContentServer)
         (args := Scenario.get "x.bin") (sid := 0%nat) (r0 := 0%nat)
         (rest := @nil nat) (status := 200) (statusText := "OK")
         (response := VString "bytes") (total := 5) (now := 1000)
    as (r & x & Hsel & Hx & Hreq & Hrec & _);
    [exact Hreach | vm_compute; reflexivity | vm_compute; reflexivity
     | discriminate | lia |].
  vm_compute in Hsel. injection Hsel as <-.
  split.
  - etrans; [exact Hrec | vm_compute; reflexivity].
  - change (length (requests (after Scenario.cacheReady newContentServer)))
      with 0%nat in Hreq.
    rewrite Hreq. vm_compute. reflexivity.
Defined.

(** * The URL of every download *)

(** C9 (amended): the URL that createRequest forms is the URL of the
    server followed by the resource name, with a "/" put between the two
    exactly when the server URL is not empty and does not already end in
    "/". Every download is a GET of that URL with the response type of
    the request. A request enters its download in two ways, and this
    holds of both: requestResource starts the download itself when the
    cache is to be skipped, whenever it dispatches, that is, when the
    cache is in the map and a server is registered; and a request whose
    lookup in the cache is outstanding starts it when the lookup misses
    or fails. *)
Theorem C9_download_url (w : World)
  (Hreach : reachable w) :
  (∀ server name : string,
     resourceUrl_of server name
     = (if decide (server = "" ∨ lastChar server = Some "/"%char)
        then server +:+ name
        else (server +:+ "/") +:+ name)) ∧
  (∀ args sid,
     dataStores w !! cacheName args = Some sid →
     contentServers w ≠ [] →
     returnCached args = Some false →
     ∃ r x,
       selectServer (preferredServer args) w = (Normal (Some r), w, []) ∧
       r ∈ contentServers w ∧ records w !! r = Some x ∧
       step (RequestResource args) w
       = (dispatch r (newRequest args sid r (serverUrl x) XhrOp) w,
          [XhrSend "GET" (resourceUrl_of (serverUrl x) (resourceName args))
             (default "arraybuffer" (truthy (responseType args)))])) ∧
  (∀ rid q,
     requests w !! rid = Some q → pending q = GetOp →
     (∃ r x, server q = Some r ∧ records w !! r = Some x ∧
             url q = resourceUrl_of (serverUrl x) (key q)) ∧
     (step (OnGetSuccess rid VUndefined) w).2 = [XhrSend "GET" (url q) (type q)] ∧
     (step (OnGetError rid) w).2 = [XhrSend "GET" (url q) (type q)]).
Proof.
  pose proof (reachable_ok w Hreach) as Hok.
  split; [| split].
  - intros server name. unfold resourceUrl_of.
    destruct server as [|c s]; [done |].
    rewrite decide_True by (cbn; lia).
    destruct (decide (lastChar (String c s) = Some "/"%char)).
    + by rewrite decide_True by by right.
    + rewrite decide_False; [done |]. by intros [|].
  - intros args sid Hcache Hservers Hskip.
    destruct (contentServers w) as [|r0 rest] eqn:Hl; [done |].
    destruct (requestResource_dispatches w args sid r0 rest Hok
                (reachable_registry_ok w Hreach)
                (reachable_caches_ok w Hreach) Hcache Hl)
      as (r & x & st & Hr & Hx & Hst & Hname & Hsel & Hrun).
    rewrite decide_True in Hrun by done.
    exists r, x. rewrite <- Hl. repeat split; try done.
    by apply step_requestResource in Hrun.
  - intros rid q Hrequest Hlookup. split; [| split].
    + by destruct (ok_requests _ Hok _ _ Hrequest).
    + unfold step. by rewrite (handle_getSuccess_miss w rid q Hrequest Hlookup).
    + unfold step. by rewrite (handle_getError w rid q Hrequest Hlookup).
Qed.

Lemma C9_witness :
  let w := after (Scenario.cacheReady ++ [RequestResource (Scenario.get "x.bin")])
                 newContentServer in
  reachable w ∧
  resourceUrl_of "" "x.bin" = "x.bin" ∧
  resourceUrl_of "http://a" "x.bin" = "http://a/x.bin" ∧
  resourceUrl_of "http://a/" "x.bin" = "http://a/x.bin" ∧
  (step (RequestResource (Scenario.fetch "y.bin")) w).2
  = [XhrSend "GET" "y.bin" "arraybuffer"] ∧
  (step (OnGetSuccess 0 VUndefined) w).2 = [XhrSend "GET" "x.bin" "arraybuffer"].
Proof.
  cbv zeta.
  assert (reachable (after (Scenario.cacheReady
                              ++ [RequestResource (Scenario.get "x.bin")])
                           newContentServer)) as Hreach by (by eexists).
  split; [exact Hreach |].
  destruct (C9_download_url _ Hreach) as (Hurl & Hfetch & Hmiss).
  split; [rewrite Hurl; vm_compute; reflexivity |].
  split; [rewrite Hurl; vm_compute; reflexivity |].
  split; [rewrite Hurl; vm_compute; reflexivity |].
  split.
  - destruct (Hfetch (Scenario.fetch "y.bin") 0%nat)
      as (r & x & Hsel & _ & Hx & Hstep);
      [vm_compute; reflexivity | vm_compute; discriminate | reflexivity |].
    rewrite Hstep. cbn [snd].
    vm_compute in Hsel. injection Hsel as <-.
    vm_compute in Hx. injection Hx as <-.
    vm_compute. reflexivity.
  - edestruct (Hmiss 0%nat) as (_ & Hsend & _);
      [vm_compute; reflexivity | vm_compute; reflexivity |].
    etrans; [exact Hsend | vm_compute; reflexivity].
Defined.

(** * The map of data stores and the events of the data stores *)




